(** * bookmarklet-llm: the streaming layer of the local server

    A shallow embedding of
    - [src/server/llm-providers.ts]  (class [LLMProviders]),
    - [src/server/server.ts]         (the handlers of the chat, the
      configuration, the provider list and the health check),
    - [src/config/config-manager.ts] (class [ConfigManager]),
    - [src/bookmarklet/modules/apiClient.ts] (class [ApiClient]),
    - [src/types/index.ts]           (the shared data types),
    followed by the properties of the design document that concern them
    and by further properties of the same code.

    Conventions.
    - Text that comes off the wire is a JavaScript string, that is a
      sequence of UTF-16 code units: [list N].  Text that only travels
      through the configuration and the request (names, prompts, keys) is
      only ever tested for emptiness, compared with literals and
      concatenated, so it is kept as [string].
    - Effects are explicit: the adapters run in a small state-and-error
      monad over the log of outbound [fetch] calls; [streamResponse]
      returns the trace of what it did to the reader and to [res].
    - [console.log] calls, and the [tokenCount] counter that only they
      read, are left out. *)

From Stdlib Require Import NArith ZArith QArith List String Ascii Bool Lia.
From Stdlib.Strings Require Import Byte.
From Stdlib Require Import DecimalString.
From stdpp Require Import base option list strings gmap.
Import ListNotations.

Local Open Scope N_scope.
#[local] Set Warnings "-register-all,-clear-no-such-hyp".

(** ** JavaScript strings *)

Module Js.

(** A string literal of the source, as code units. *)
Definition lit (s : string) : list N :=
  map N_of_ascii (list_ascii_of_string s).

Definition LF : N := 10.

(** [a === b] on strings. *)
Definition str_eqb (a b : list N) : bool := bool_decide (a = b).

(** [s.startsWith(prefix)]. *)
Fixpoint startsWith (s prefix : list N) : bool :=
  match prefix with
  | [] => true
  | p :: prefix' =>
      match s with
      | [] => false
      | c :: s' => (c =? p) && startsWith s' prefix'
      end
  end.

(** [s.slice(n)] for a non-negative literal [n]. *)
Definition slice (n : nat) (s : list N) : list N := drop n s.

(** Puts [c] in front of the first piece of a split. *)
Definition cons_head (c : N) (pieces : list (list N)) : list (list N) :=
  match pieces with
  | [] => [[c]]
  | h :: t => (c :: h) :: t
  end.

(** [s.split('\n\n')]: the pieces between the leftmost, non-overlapping
    occurrences of two line feeds; never empty. *)
Fixpoint split_blank (s : list N) : list (list N) :=
  match s with
  | [] => [[]]
  | c :: rest =>
      match rest with
      | [] => [[c]]
      | d :: rest' =>
          if (c =? LF) && (d =? LF) then [] :: split_blank rest'
          else cons_head c (split_blank rest)
      end
  end.

(** [events.pop()] on an array: the removed last element, if any, and
    what is left. *)
Definition pop {A} (l : list A) : option A * list A :=
  (last l, removelast l).

(** [x || ''] where [x] is a string or [undefined]. *)
Definition or_empty (x : option (list N)) : list N :=
  match x with
  | Some (c :: s) => c :: s
  | _ => []
  end.

End Js.

(** ** [TextDecoder]

    [new TextDecoder()] is a UTF-8 decoder; [decode(value, {stream: true})]
    keeps the state of an unfinished sequence for the next call.  The
    state machine below is the UTF-8 decoder of the Encoding standard,
    with replacement of ill-formed input by U+FFFD and removal of a
    leading byte-order mark. *)

Module TextDecoder.

Record t := mk {
  code_point : N;
  bytes_seen : N;
  bytes_needed : N;
  lower : N;
  upper : N;
  bom_seen : bool
}.

Definition create : t :=
  {| code_point := 0; bytes_seen := 0; bytes_needed := 0;
     lower := 0x80; upper := 0xBF; bom_seen := false |}.

(** The state between two code points (the BOM flag is kept). *)
Definition reset (d : t) : t :=
  {| code_point := 0; bytes_seen := 0; bytes_needed := 0;
     lower := 0x80; upper := 0xBF; bom_seen := bom_seen d |}.

Definition expect (d : t) (needed lo hi cp : N) : t :=
  {| code_point := cp; bytes_seen := 0; bytes_needed := needed;
     lower := lo; upper := hi; bom_seen := bom_seen d |}.

(** A byte read when no sequence is open. *)
Definition lead (d : t) (b : N) : t * list N :=
  if b <=? 0x7F then (d, [b])
  else if (0xC2 <=? b) && (b <=? 0xDF) then
    (expect d 1 0x80 0xBF (N.land b 0x1F), [])
  else if (0xE0 <=? b) && (b <=? 0xEF) then
    (expect d 2 (if b =? 0xE0 then 0xA0 else 0x80)
                (if b =? 0xED then 0x9F else 0xBF) (N.land b 0xF), [])
  else if (0xF0 <=? b) && (b <=? 0xF4) then
    (expect d 3 (if b =? 0xF0 then 0x90 else 0x80)
                (if b =? 0xF4 then 0x8F else 0xBF) (N.land b 0x7), [])
  else (d, [0xFFFD]).

(** One byte of input: the new state and the code points completed. *)
Definition step (d : t) (b : N) : t * list N :=
  if bytes_needed d =? 0 then lead d b
  else if negb ((lower d <=? b) && (b <=? upper d)) then
    (* ill-formed: U+FFFD, and the byte is read again as a lead byte *)
    let '(d', out) := lead (reset d) b in (d', 0xFFFD :: out)
  else
    let cp := N.lor (N.shiftl (code_point d) 6) (N.land b 0x3F) in
    if bytes_seen d + 1 =? bytes_needed d then (reset d, [cp])
    else
      ({| code_point := cp; bytes_seen := bytes_seen d + 1;
          bytes_needed := bytes_needed d;
          lower := 0x80; upper := 0xBF; bom_seen := bom_seen d |}, []).

(** A code point as UTF-16 code units. *)
Definition utf16 (cp : N) : list N :=
  if cp <? 0x10000 then [cp]
  else [0xD800 + N.shiftr (cp - 0x10000) 10;
        0xDC00 + N.land (cp - 0x10000) 0x3FF].

(** Output of one code point: the first one of the stream is dropped
    when it is the byte-order mark. *)
Definition output (d : t) (cp : N) : t * list N :=
  if bom_seen d then (d, utf16 cp)
  else
    let d' := {| code_point := code_point d; bytes_seen := bytes_seen d;
                 bytes_needed := bytes_needed d; lower := lower d;
                 upper := upper d; bom_seen := true |} in
    (d', if cp =? 0xFEFF then [] else utf16 cp).

Fixpoint outputs (d : t) (cps : list N) : t * list N :=
  match cps with
  | [] => (d, [])
  | cp :: cps' =>
      let '(d1, u1) := output d cp in
      let '(d2, u2) := outputs d1 cps' in
      (d2, u1 ++ u2)
  end.

Definition decode_byte (d : t) (b : byte) : t * list N :=
  let '(d1, cps) := step d (Byte.to_N b) in outputs d1 cps.

(** [decoder.decode(value, { stream: true })]. *)
Fixpoint decode (d : t) (value : list byte) : t * list N :=
  match value with
  | [] => (d, [])
  | b :: value' =>
      let '(d1, u1) := decode_byte d b in
      let '(d2, u2) := decode d1 value' in
      (d2, u1 ++ u2)
  end.

End TextDecoder.

(** ** JSON values, [JSON.parse] and property access *)

Module Json.

(** A number literal of a JSON text, kept exactly:
    (-1)^neg * mant * 10^exp10. *)
Record number := mkNumber { num_neg : bool; num_mant : N; num_exp10 : Z }.

(** A Number value, which is what [JSON.parse] makes of a literal: an
    IEEE 754 double other than NaN.  [Finite neg mant exp2] is
    (-1)^neg * mant * 2^exp2 with mant below 2^53 and exp2 from -1074 to
    971, and exp2 = -1074 whenever mant is below 2^52, so that every
    double has one form; the two zeros are [Finite _ 0 (-1074)]. *)
Inductive double :=
| Finite (neg : bool) (mant : N) (exp2 : Z)
| Infinite (neg : bool).

(** p / q < 2^l *)
Definition below (p q : N) (l : Z) : bool :=
  if (0 <=? l)%Z then p <? q * 2 ^ Z.to_N l
  else p * 2 ^ Z.to_N (- l) <? q.

(** The double nearest to the value of a literal, ties going to the
    even mantissa, and values from 2^1024 - 2^970 on to infinity.  The
    value is p / q; l is the integer part of its binary logarithm; e is
    the exponent of the last place kept, and num / den the value in
    units of 2^e. *)
Definition to_double (n : number) : double :=
  let m := num_mant n in
  let e10 := num_exp10 n in
  if m =? 0 then Finite (num_neg n) 0 (-1074)
  else
    let p := if (0 <=? e10)%Z then m * 10 ^ Z.to_N e10 else m in
    let q := if (0 <=? e10)%Z then 1 else 10 ^ Z.to_N (- e10) in
    let l0 := (Z.of_N (N.log2 p) - Z.of_N (N.log2 q))%Z in
    let l := if below p q l0 then (l0 - 1)%Z else l0 in
    let e := Z.max (l - 52) (-1074) in
    let num := if (e <? 0)%Z then p * 2 ^ Z.to_N (- e) else p in
    let den := if (e <? 0)%Z then q else q * 2 ^ Z.to_N e in
    let m0 := num / den in
    let r := num mod den in
    let m1 :=
      if (den <? 2 * r) || ((2 * r =? den) && N.odd m0) then m0 + 1 else m0 in
    let '(m2, e2) := if m1 =? 2 ^ 53 then (2 ^ 52, (e + 1)%Z) else (m1, e) in
    if (971 <? e2)%Z then Infinite (num_neg n) else Finite (num_neg n) m2 e2.

(** A value of JavaScript as [JSON.parse] can give it.  The members of
    an object are in the order of its own property keys, each key
    once. *)
Inductive value :=
| JNull
| JBool (b : bool)
| JNumber (n : double)
| JString (s : list N)
| JArray (items : list value)
| JObject (members : list (list N * value)).

(** *** The grammar of ECMA-404, as [JSON.parse] reads it *)

Definition is_ws (c : N) : bool :=
  (c =? 0x20) || (c =? 0x09) || (c =? 0x0A) || (c =? 0x0D).

Fixpoint skip_ws (s : list N) : list N :=
  match s with
  | c :: s' => if is_ws c then skip_ws s' else s
  | [] => []
  end.

Definition is_digit (c : N) : bool := (0x30 <=? c) && (c <=? 0x39).

Definition hex_val (c : N) : option N :=
  if is_digit c then Some (c - 0x30)
  else if (0x41 <=? c) && (c <=? 0x46) then Some (c - 0x41 + 10)
  else if (0x61 <=? c) && (c <=? 0x66) then Some (c - 0x61 + 10)
  else None.

(** The character after a backslash, other than [u]. *)
Definition simple_escape (c : N) : option N :=
  if c =? 0x22 then Some 0x22            (* quotation mark *)
  else if c =? 0x5C then Some 0x5C       (* reverse solidus *)
  else if c =? 0x2F then Some 0x2F       (* solidus *)
  else if c =? 0x62 then Some 0x08       (* backspace *)
  else if c =? 0x66 then Some 0x0C       (* form feed *)
  else if c =? 0x6E then Some 0x0A       (* line feed *)
  else if c =? 0x72 then Some 0x0D       (* carriage return *)
  else if c =? 0x74 then Some 0x09       (* tab *)
  else None.

(** The rest of a string after its opening quote: its code units and
    what follows the closing quote. *)
Fixpoint parse_chars (s : list N) : option (list N * list N) :=
  match s with
  | [] => None
  | c :: r =>
      if c =? 0x22 then Some ([], r)
      else if c =? 0x5C then
        match r with
        | [] => None
        | e :: r1 =>
            if e =? 0x75 then
              match r1 with
              | h1 :: h2 :: h3 :: h4 :: r2 =>
                  match hex_val h1, hex_val h2, hex_val h3, hex_val h4 with
                  | Some a, Some b, Some c', Some d =>
                      match parse_chars r2 with
                      | Some (cs, rest) =>
                          Some (((a * 16 + b) * 16 + c') * 16 + d :: cs, rest)
                      | None => None
                      end
                  | _, _, _, _ => None
                  end
              | _ => None
              end
            else
              match simple_escape e with
              | Some u =>
                  match parse_chars r1 with
                  | Some (cs, rest) => Some (u :: cs, rest)
                  | None => None
                  end
              | None => None
              end
        end
      else if c <? 0x20 then None
      else
        match parse_chars r with
        | Some (cs, rest) => Some (c :: cs, rest)
        | None => None
        end
  end.

(** The longest run of digits at the front: its value, its length and
    the rest. *)
Fixpoint digits (acc : N) (len : nat) (s : list N) : N * nat * list N :=
  match s with
  | c :: s' =>
      if is_digit c then digits (acc * 10 + (c - 0x30)) (S len) s'
      else (acc, len, s)
  | [] => (acc, len, [])
  end.

(** int: a single [0], or a non-zero digit followed by digits. *)
Definition parse_int (s : list N) : option (N * list N) :=
  match s with
  | c :: s' =>
      if c =? 0x30 then Some (0, s')
      else if is_digit c then
        let '(n, _, r) := digits (c - 0x30) 1 s' in Some (n, r)
      else None
  | [] => None
  end.

(** frac: nothing, or a point followed by at least one digit.  Returns
    the mantissa extended by the fraction digits and their number. *)
Definition parse_frac (mant : N) (s : list N) : option (N * nat * list N) :=
  match s with
  | c :: s' =>
      if c =? 0x2E then
        let '(m, len, r) := digits mant 0 s' in
        match len with O => None | S _ => Some (m, len, r) end
      else Some (mant, O, s)
  | [] => Some (mant, O, [])
  end.

(** exp: nothing, or [e]/[E], an optional sign and at least one digit. *)
Definition parse_exp (s : list N) : option (Z * list N) :=
  match s with
  | c :: s' =>
      if (c =? 0x65) || (c =? 0x45) then
        let '(sign, s1) :=
          match s' with
          | g :: s2 =>
              if g =? 0x2B then (1%Z, s2)
              else if g =? 0x2D then ((-1)%Z, s2)
              else (1%Z, s')
          | [] => (1%Z, s')
          end in
        let '(e, len, r) := digits 0 0 s1 in
        match len with O => None | S _ => Some ((sign * Z.of_N e)%Z, r) end
      else Some (0%Z, s)
  | [] => Some (0%Z, [])
  end.

Definition parse_number (s : list N) : option (number * list N) :=
  let '(neg, s0) :=
    match s with
    | c :: s' => if c =? 0x2D then (true, s') else (false, s)
    | [] => (false, s)
    end in
  match parse_int s0 with
  | Some (i, s1) =>
      match parse_frac i s1 with
      | Some (m, flen, s2) =>
          match parse_exp s2 with
          | Some (e, s3) => Some (mkNumber neg m (e - Z.of_nat flen), s3)
          | None => None
          end
      | None => None
      end
  | None => None
  end.

(** A property key that is an array index: the decimal digits, with no
    leading zero, of a number below 2^32 - 1. *)
Definition array_index (key : list N) : option N :=
  match key with
  | [] => None
  | c :: rest =>
      if forallb is_digit key
         && ((negb (c =? 0x30)) || match rest with [] => true | _ => false end)
      then
        let n := fold_left (fun acc d => acc * 10 + (d - 0x30)) key 0 in
        if n <? 4294967295 then Some n else None
      else None
  end.

(** The key [key], not yet among the keys, comes before the key [k] of
    an object: array indices come first, in ascending order, and the
    other keys after them in the order in which they were created. *)
Definition comes_before (key k : list N) : bool :=
  match array_index key with
  | Some i =>
      match array_index k with
      | Some j => i <? j
      | None => true
      end
  | None => false
  end.

(** [CreateDataProperty(object, key, v)] on the members of the object
    read so far: a key that is there keeps its place and takes the new
    value, a new key is put at its place in the order of the keys. *)
Fixpoint define (key : list N) (v : value) (members : list (list N * value))
  : list (list N * value) :=
  match members with
  | [] => [(key, v)]
  | (k, w) :: rest =>
      if Js.str_eqb k key then (k, v) :: rest
      else if comes_before key k then (key, v) :: (k, w) :: rest
      else (k, w) :: define key v rest
  end.

(** [literal w v s]: the word [w] at the front of [s] reads as [v]. *)
Definition literal (w : string) (v : value) (s : list N)
  : option (value * list N) :=
  if Js.startsWith s (Js.lit w)
  then Some (v, drop (String.length w) s) else None.

(** A value, with leading white space.  The three functions go down on
    [fuel]; [parse] gives them more than any text can use. *)
Fixpoint parse_value (fuel : nat) (s : list N) : option (value * list N) :=
  match fuel with
  | O => None
  | S f =>
      match skip_ws s with
      | [] => None
      | c :: r =>
          if c =? 0x7B then                                   (* left brace *)
            match skip_ws r with
            | [] => None
            | c1 :: r1 =>
                if c1 =? 0x7D then Some (JObject [], r1)
                else parse_members f [] (c1 :: r1)
            end
          else if c =? 0x5B then                              (* left bracket *)
            match skip_ws r with
            | [] => None
            | c1 :: r1 =>
                if c1 =? 0x5D then Some (JArray [], r1)
                else parse_elements f [] (c1 :: r1)
            end
          else if c =? 0x22 then
            match parse_chars r with
            | Some (cs, rest) => Some (JString cs, rest)
            | None => None
            end
          else if c =? 0x74 then literal "true" (JBool true) (c :: r)
          else if c =? 0x66 then literal "false" (JBool false) (c :: r)
          else if c =? 0x6E then literal "null" JNull (c :: r)
          else
            match parse_number (c :: r) with
            | Some (n, rest) => Some (JNumber (to_double n), rest)
            | None => None
            end
      end
  end

with parse_elements (fuel : nat) (acc : list value) (s : list N)
  : option (value * list N) :=
  match fuel with
  | O => None
  | S f =>
      match parse_value f s with
      | None => None
      | Some (v, r) =>
          match skip_ws r with
          | [] => None
          | c :: r1 =>
              if c =? 0x2C then parse_elements f (acc ++ [v]) r1
              else if c =? 0x5D then Some (JArray (acc ++ [v]), r1)
              else None
          end
      end
  end

with parse_members (fuel : nat) (acc : list (list N * value)) (s : list N)
  : option (value * list N) :=
  match fuel with
  | O => None
  | S f =>
      match skip_ws s with
      | [] => None
      | q :: r =>
          if q =? 0x22 then
            match parse_chars r with
            | None => None
            | Some (key, r1) =>
                match skip_ws r1 with
                | [] => None
                | c :: r2 =>
                    if c =? 0x3A then
                      match parse_value f r2 with
                      | None => None
                      | Some (v, r3) =>
                          match skip_ws r3 with
                          | [] => None
                          | c' :: r4 =>
                              if c' =? 0x2C
                              then parse_members f (define key v acc) r4
                              else if c' =? 0x7D
                              then Some (JObject (define key v acc), r4)
                              else None
                          end
                      end
                    else None
                end
            end
          else None
      end
  end.

(** [JSON.parse(text)]; [None] when it throws [SyntaxError]. *)
Definition parse (text : list N) : option value :=
  match parse_value (2 * length text + 2) text with
  | Some (v, rest) =>
      match skip_ws rest with
      | [] => Some v
      | _ :: _ => None
      end
  | None => None
  end.

(** *** Reading a parsed value *)

(** One of the two zeros. *)
Definition is_zero (d : double) : bool :=
  match d with
  | Finite _ 0 _ => true
  | _ => false
  end.

(** The literals that are read as a zero: those of value zero, and
    those of at most half the least positive double, 2^-1075 (a tie goes
    to the even mantissa, which is zero). *)
Definition rounds_to_zero (n : number) : bool :=
  if (0 <=? num_exp10 n)%Z then num_mant n =? 0
  else num_mant n * 2 ^ 1075 <=? 10 ^ Z.to_N (- num_exp10 n).

(** [ToBoolean]: what [x || y] and [if (x)] test. *)
Definition truthy (v : value) : bool :=
  match v with
  | JNull => false
  | JBool b => b
  | JNumber d => negb (is_zero d)
  | JString s => match s with [] => false | _ :: _ => true end
  | JArray _ | JObject _ => true
  end.

(** An own property of a parsed object; of two members with one key the
    later counts. *)
Fixpoint lookup_member (key : list N) (members : list (list N * value))
  : option value :=
  match members with
  | [] => None
  | (k, v) :: members' =>
      match lookup_member key members' with
      | Some w => Some w
      | None => if Js.str_eqb k key then Some v else None
      end
  end.

(** [v.name] for [v] other than [null], [None] being [undefined].  The
    names read by the source ([choices], [delta], [content], [type],
    [text], [candidates], [parts]) are on no prototype, so only an
    object can have them. *)
Definition prop (name : string) (v : value) : option value :=
  match v with
  | JObject members => lookup_member (Js.lit name) members
  | _ => None
  end.

(** [v[0]] for [v] other than [null]: the first element of an array,
    the member [0] of an object, the first code unit of a string. *)
Definition at0 (v : value) : option value :=
  match v with
  | JArray items => head items
  | JObject members => lookup_member (Js.lit "0") members
  | JString (c :: _) => Some (JString [c])
  | _ => None
  end.

(** [x?.f]: [undefined] when [x] is [null] or [undefined]. *)
Definition chain (f : value -> option value) (x : option value)
  : option value :=
  match x with
  | None | Some JNull => None
  | Some v => f v
  end.

(** [x.f] where [x] was parsed: throws [TypeError] (the outer [None])
    on [null]. *)
Definition member (f : value -> option value) (x : value)
  : option (option value) :=
  match x with
  | JNull => None
  | _ => Some (f x)
  end.

(** [x || ''] *)
Definition or_empty (x : option value) : value :=
  match x with
  | Some v => if truthy v then v else JString []
  | None => JString []
  end.

(** [x === 'word'] *)
Definition is_string (word : string) (x : option value) : bool :=
  match x with
  | Some (JString s) => Js.str_eqb s (Js.lit word)
  | _ => false
  end.

End Json.

(** ** [src/types/index.ts] *)

Inductive SupportedProviders := lmstudio | openai | anthropic | gemini.

Inductive MessageRole := user | assistant | system.

#[global] Instance SupportedProviders_eq_dec : EqDecision SupportedProviders.
Proof. solve_decision. Defined.

#[global] Instance MessageRole_eq_dec : EqDecision MessageRole.
Proof. solve_decision. Defined.

(** The property name of a provider in [config.providers], and the text
    it interpolates to. *)
Definition provider_key (p : SupportedProviders) : string :=
  match p with
  | lmstudio => "lmstudio"
  | openai => "openai"
  | anthropic => "anthropic"
  | gemini => "gemini"
  end.

(** [!s] for a string that may be [undefined]. *)
Definition falsy (s : option string) : bool :=
  match s with
  | None | Some EmptyString => true
  | Some (String _ _) => false
  end.

(** A string in a template literal; [undefined] prints as itself. *)
Definition interpolate (s : option string) : string :=
  match s with
  | Some x => x
  | None => "undefined"
  end.

Module LLMProvider.
Record t := mk {
  name : string;
  baseUrl : option string;
  apiKey : option string;
  model : string;
  systemPrompt : string;
  maxTokens : option Q;
  temperature : option Q;
  enabled : bool
}.

(** [{ ...p, apiKey: k }] *)
Definition with_apiKey (k : option string) (p : t) : t :=
  {| name := name p; baseUrl := baseUrl p; apiKey := k; model := model p;
     systemPrompt := systemPrompt p; maxTokens := maxTokens p;
     temperature := temperature p; enabled := enabled p |}.
End LLMProvider.

Module ChatMessage.
Record t := mk { role : MessageRole; content : string }.
End ChatMessage.

Module ChatHistoryItem.
(** [type] is ['user'] or ['assistant']. *)
Record t := mk { type : MessageRole; content : string; timestamp : N }.
End ChatHistoryItem.

Module ChatRequest.
Record t := mk {
  title : string;
  url : string;
  text : string;
  question : string;
  history : option (list ChatHistoryItem.t);
  provider : option SupportedProviders
}.
End ChatRequest.

(** ** The HTTP boundary *)

(** How a response body ends: the source closes it, or the transport
    fails and [reader.read()] rejects with an error. *)
Inductive Ending := Closed | Aborted (message : string).

(** A response body: the chunks its reader yields, then its ending. *)
Record ReadableStream := { chunks : list (list byte); ending : Ending }.

Record Response := {
  ok : bool;
  status : N;
  statusText : string;
  body : option ReadableStream
}.

Record GeminiPart := { part_text : string }.
Record GeminiContent := { gemini_role : string; parts : list GeminiPart }.

(** The object given to [JSON.stringify] as the request body. *)
Inductive RequestBody :=
| ChatCompletions (model : string) (messages : list ChatMessage.t)
    (stream : bool) (temperature max_tokens : option Q)
| AnthropicMessages (model : string) (messages : list ChatMessage.t)
    (system : string) (stream : bool) (temperature max_tokens : option Q)
| GeminiGenerate (contents : list GeminiContent)
    (generation_temperature generation_maxOutputTokens : option Q).

Record HttpRequest := {
  req_url : string;
  req_method : string;
  req_headers : list (string * string);
  req_body : RequestBody
}.

(** A completed call: its value, or the message of the [Error] thrown. *)
Inductive result (A : Type) := Ok (a : A) | Throw (message : string).
Arguments Ok {A} a.
Arguments Throw {A} message.

(** What [fetch] answers to a request: a response, or a rejection. *)
Definition Network := HttpRequest -> result Response.

(** Computations that may call [fetch] and may throw; the state is the
    list of requests sent so far. *)
Definition Fetching (A : Type) : Type :=
  list HttpRequest -> result A * list HttpRequest.

Definition ret {A} (a : A) : Fetching A := fun log => (Ok a, log).

Definition throw {A} (message : string) : Fetching A :=
  fun log => (Throw message, log).

Definition bind {A B} (m : Fetching A) (k : A -> Fetching B) : Fetching B :=
  fun log =>
    match m log with
    | (Ok a, log') => k a log'
    | (Throw message, log') => (Throw message, log')
    end.

Definition fetch (net : Network) (request : HttpRequest) : Fetching Response :=
  fun log => (net request, log ++ [request]).

Notation "'await' x <- m ; k" := (bind m (fun x => k))
  (at level 10, x name, m at level 100, k at level 200).

(** What the code does to the body reader and to the Express response.
    A token record is given by the value of [token] that the code hands
    to [JSON.stringify]: the text written is [data: ], the JSON text of
    the object with that one property, and a blank line. *)
Inductive SseRecord :=
| TokenRecord (token : Json.value)      (* data: {token: ...} *)
| ErrorRecord (error : string)          (* data: {error: ...} *)
| DoneRecord.                           (* data: [DONE] *)

Inductive Effect :=
| ReaderRead                                   (* await reader.read() *)
| ReaderReleaseLock                            (* reader.releaseLock() *)
| ResStatusJson (code : N) (error : string)    (* res.status(c).json({error}) *)
| ResWriteHead (code : N)                      (* res.writeHead(c, ...) *)
| ResWrite (record : SseRecord)                (* res.write(record + blank line) *)
| ResEnd.                                      (* res.end() *)

(** ** [src/server/llm-providers.ts] *)

Module LLMProviders.

Definition json_headers : list (string * string) :=
  [("Content-Type", "application/json")].

Definition callLMStudio (net : Network) (config : LLMProvider.t)
    (messages : list ChatMessage.t) : Fetching Response :=
  await response <-
    fetch net
      {| req_url := interpolate (LLMProvider.baseUrl config)
                    +:+ "/chat/completions";
         req_method := "POST";
         req_headers := json_headers;
         req_body :=
           ChatCompletions (LLMProvider.model config) messages true
             (LLMProvider.temperature config) (LLMProvider.maxTokens config)
      |};
  ret response.

Definition callOpenAI (net : Network) (config : LLMProvider.t)
    (messages : list ChatMessage.t) : Fetching Response :=
  if falsy (LLMProvider.apiKey config)
  then throw "OpenAI API key not configured"
  else
    await response <-
      fetch net
        {| req_url := interpolate (LLMProvider.baseUrl config)
                      +:+ "/chat/completions";
           req_method := "POST";
           req_headers :=
             [("Content-Type", "application/json");
              ("Authorization",
               "Bearer " +:+ interpolate (LLMProvider.apiKey config))];
           req_body :=
             ChatCompletions (LLMProvider.model config) messages true
               (LLMProvider.temperature config)
               (LLMProvider.maxTokens config)
        |};
    ret response.

(** [systemMessage?.content || config.systemPrompt] *)
Definition system_field (systemMessage : option ChatMessage.t)
    (config : LLMProvider.t) : string :=
  match systemMessage with
  | Some m =>
      match ChatMessage.content m with
      | EmptyString => LLMProvider.systemPrompt config
      | String _ _ => ChatMessage.content m
      end
  | None => LLMProvider.systemPrompt config
  end.

Definition callAnthropic (net : Network) (config : LLMProvider.t)
    (messages : list ChatMessage.t) : Fetching Response :=
  if falsy (LLMProvider.apiKey config)
  then throw "Anthropic API key not configured"
  else
    let systemMessage :=
      List.find (fun m => bool_decide (ChatMessage.role m = system))
        messages in
    let conversationMessages :=
      List.filter (fun m => bool_decide (ChatMessage.role m <> system))
        messages in
    await response <-
      fetch net
        {| req_url := interpolate (LLMProvider.baseUrl config)
                      +:+ "/messages";
           req_method := "POST";
           req_headers :=
             [("Content-Type", "application/json");
              ("x-api-key", interpolate (LLMProvider.apiKey config));
              ("anthropic-version", "2023-06-01")];
           req_body :=
             AnthropicMessages (LLMProvider.model config)
               conversationMessages (system_field systemMessage config)
               true (LLMProvider.temperature config)
               (LLMProvider.maxTokens config)
        |};
    ret response.

(** The element built for one message by [messages.map]. *)
Definition gemini_content (msg : ChatMessage.t) : GeminiContent :=
  {| gemini_role :=
       if bool_decide (ChatMessage.role msg = assistant)
       then "model" else "user";
     parts := [ {| part_text := ChatMessage.content msg |} ] |}.

Definition callGemini (net : Network) (config : LLMProvider.t)
    (messages : list ChatMessage.t) : Fetching Response :=
  if falsy (LLMProvider.apiKey config)
  then throw "Gemini API key not configured"
  else
    let parts := map gemini_content messages in
    await response <-
      fetch net
        {| req_url := interpolate (LLMProvider.baseUrl config)
                      +:+ "/models/" +:+ LLMProvider.model config
                      +:+ ":streamGenerateContent?key="
                      +:+ interpolate (LLMProvider.apiKey config);
           req_method := "POST";
           req_headers := json_headers;
           req_body :=
             GeminiGenerate parts (LLMProvider.temperature config)
               (LLMProvider.maxTokens config)
        |};
    ret response.

(** The [default] case of the switch, [Unsupported provider], has no
    value of [SupportedProviders] left to reach it. *)
Definition callProvider (net : Network) (providerName : SupportedProviders)
    (config : LLMProvider.t) (messages : list ChatMessage.t)
  : Fetching Response :=
  match providerName with
  | lmstudio => callLMStudio net config messages
  | openai => callOpenAI net config messages
  | anthropic => callAnthropic net config messages
  | gemini => callGemini net config messages
  end.

(** *** [streamResponse] *)

(** What the body of the [for] loop does with one event before it gets
    to [if (token)]: it returns from [streamResponse] after writing the
    terminator, or it goes on with a value in [token]. *)
Inductive Decoded := Sentinel | Token (token : Json.value).

(** The [try] block of the Anthropic branch; [None] when it throws. *)
Definition anthropic_try (data : list N) : option Json.value :=
  match Json.parse data with
  | None => None
  | Some parsed =>
      match Json.member (Json.prop "type") parsed with
      | None => None
      | Some type =>
          if Json.is_string "content_block_delta" type then
            Some (Json.or_empty
                    (Json.chain (Json.prop "text")
                       (Json.prop "delta" parsed)))
          else Some (Json.JString [])
      end
  end.

(** The [try] block of the Gemini branch. *)
Definition gemini_try (data : list N) : option Json.value :=
  match Json.parse data with
  | None => None
  | Some parsed =>
      match Json.member (Json.prop "candidates") parsed with
      | None => None
      | Some candidates =>
          Some (Json.or_empty
                  (Json.chain (Json.prop "text")
                     (Json.chain Json.at0
                        (Json.chain (Json.prop "parts")
                           (Json.chain (Json.prop "content")
                              (Json.chain Json.at0 candidates))))))
      end
  end.

(** The [try] block of the OpenAI and LM Studio branch. *)
Definition openai_try (data : list N) : option Json.value :=
  match Json.parse data with
  | None => None
  | Some parsed =>
      match Json.member (Json.prop "choices") parsed with
      | None => None
      | Some choices =>
          Some (Json.or_empty
                  (Json.chain (Json.prop "content")
                     (Json.chain (Json.prop "delta")
                        (Json.chain Json.at0 choices))))
      end
  end.

(** [try { ... } catch { }] around an assignment to [token], which was
    [''] before. *)
Definition caught (attempt : option Json.value) : Json.value :=
  match attempt with
  | Some token => token
  | None => Json.JString []
  end.

Definition decode_event (provider : SupportedProviders) (event : list N)
  : Decoded :=
  match provider with
  | anthropic =>
      if Js.startsWith event (Js.lit "data: ") then
        let data := Js.slice 6 event in
        if Js.str_eqb data (Js.lit "[DONE]") then Sentinel
        else Token (caught (anthropic_try data))
      else Token (Json.JString [])
  | gemini =>
      if Js.startsWith event (Js.lit "data: ") then
        let data := Js.slice 6 event in
        Token (caught (gemini_try data))
      else Token (Json.JString [])
  | lmstudio | openai =>
      if Js.startsWith event (Js.lit "data: ") then
        let data := Js.slice 6 event in
        if Js.str_eqb data (Js.lit "[DONE]") then Sentinel
        else Token (caught (openai_try data))
      else Token (Json.JString [])
  end.

(** [for (const event of events) { ... }]: the effects, and whether the
    loop left [streamResponse] by [return]. *)
Fixpoint for_events (provider : SupportedProviders)
    (events : list (list N)) : list Effect * bool :=
  match events with
  | [] => ([], false)
  | event :: events' =>
      match decode_event provider event with
      | Sentinel => ([ResWrite DoneRecord; ResEnd], true)
      | Token token =>
          let written :=
            if Json.truthy token then [ResWrite (TokenRecord token)]
            else [] in
          let '(effects, returned) := for_events provider events' in
          (written ++ effects, returned)
      end
  end.

(** How the [while (true)] loop is left. *)
Inductive Exit := Break | Return | Raise (message : string).

(** The [while] loop from a decoder state and a buffer, over what the
    reader still has to give. *)
Fixpoint read_loop (provider : SupportedProviders) (decoder : TextDecoder.t)
    (buffer : list N) (pending : list (list byte)) (ending : Ending)
  : list Effect * Exit :=
  match pending with
  | [] =>
      match ending with
      | Closed => ([ReaderRead], Break)                 (* done: true *)
      | Aborted message => ([ReaderRead], Raise message)
      end
  | value :: pending' =>
      let '(decoder', text) := TextDecoder.decode decoder value in
      let buffer := buffer ++ text in
      let events := Js.split_blank buffer in
      let '(popped, events) := Js.pop events in
      let buffer := Js.or_empty popped in
      let '(effects, returned) := for_events provider events in
      if returned then (ReaderRead :: effects, Return)
      else
        let '(effects', exit) :=
          read_loop provider decoder' buffer pending' ending in
        (ReaderRead :: effects ++ effects', exit)
  end.

(** [streamResponse(response, res, provider)]: its effects, in order,
    and whether it resolves or rejects.  The [finally] block runs on
    every way out of the loop. *)
Definition streamResponse (response : Response)
    (provider : SupportedProviders) : list Effect * result unit :=
  match body response with
  | None => ([], Throw "Response body is not readable")
  | Some stream =>
      let '(effects, exit) :=
        read_loop provider TextDecoder.create [] (chunks stream)
          (ending stream) in
      match exit with
      | Return => (effects ++ [ReaderReleaseLock], Ok tt)
      | Raise message => (effects ++ [ReaderReleaseLock], Throw message)
      | Break => (effects ++ [ReaderReleaseLock; ResEnd], Ok tt)
      end
  end.

End LLMProviders.

(** ** [src/config/config-manager.ts]

    The configuration is a graph of objects, and [{ ...this.config }]
    copies only the outermost one: the store below keeps the objects that
    are reached through a reference and mutated, the [providers] table
    and the provider records it points to. *)

Module ConfigManager.

Definition ref := positive.

Record FeaturesConfig := {
  enableHistory : bool;
  maxHistoryLength : N;
  enableThemes : bool;
  defaultTheme : string
}.

Record BookmarkletConfig := {
  autoGenerate : bool;
  defaultQuestion : string;
  themes : list string;
  bookmarklet_defaultTheme : string
}.

(** An object of type [DefaultConfig]: the values of its own fields. *)
Record DefaultConfig := {
  activeProvider : SupportedProviders;
  providers : ref;
  features : FeaturesConfig;
  bookmarklet : BookmarkletConfig
}.

(** The objects behind the references: a [providers] table lists its
    keys in insertion order, each with the reference it holds. *)
Record Heap := {
  tables : gmap ref (list (string * ref));
  records : gmap ref LLMProvider.t
}.

Record t := { defaultConfig : DefaultConfig; config : DefaultConfig }.

Definition default_prompt : string :=
  "You are a helpful AI assistant analyzing web content. Be concise but thorough. Format your responses with markdown when appropriate.".

(** The provider records of [this.defaultConfig]; the three keys come
    from the environment, [process.env.X || '']. *)
Definition default_record (name baseUrl : string) (apiKey : option string)
    (model : string) : LLMProvider.t :=
  {| LLMProvider.name := name;
     LLMProvider.baseUrl := Some baseUrl;
     LLMProvider.apiKey := apiKey;
     LLMProvider.model := model;
     LLMProvider.systemPrompt := default_prompt;
     LLMProvider.maxTokens := Some (1000 # 1)%Q;
     LLMProvider.temperature := Some (1 # 10)%Q;
     LLMProvider.enabled := true |}.

(** [process.env.X || ''] *)
Definition env_or_empty (x : option string) : option string :=
  Some (if falsy x then EmptyString else interpolate x).

(** The constructor when there is no configuration file:
    [this.config = { ...this.defaultConfig }].  The table is allocated
    at reference 1 and the four records at 2 to 5. *)
Definition create (OPENAI_API_KEY ANTHROPIC_API_KEY GEMINI_API_KEY
                   : option string) : t * Heap :=
  let defaults :=
    {| activeProvider := lmstudio;
       providers := 1%positive;
       features :=
         {| enableHistory := true; maxHistoryLength := 6;
            enableThemes := true; defaultTheme := "dark" |};
       bookmarklet :=
         {| autoGenerate := true;
            defaultQuestion :=
              "Give me answers to the multiple choice questions above. Don't include any other text.";
            themes := ["dark"; "light"; "blue"];
            bookmarklet_defaultTheme := "dark" |} |} in
  ({| defaultConfig := defaults; config := defaults |},
   {| tables :=
        {[ 1%positive :=
             [("lmstudio", 2%positive); ("openai", 3%positive);
              ("anthropic", 4%positive); ("gemini", 5%positive)] ]};
      records :=
        <[ 2%positive :=
             default_record "LM Studio" "http://localhost:1234/v1" None
               "auto" ]>
        (<[ 3%positive :=
              default_record "OpenAI" "https://api.openai.com/v1"
                (env_or_empty OPENAI_API_KEY) "gpt-4o-mini" ]>
        (<[ 4%positive :=
              default_record "Anthropic Claude"
                "https://api.anthropic.com/v1"
                (env_or_empty ANTHROPIC_API_KEY)
                "claude-3-haiku-20240307" ]>
        (<[ 5%positive :=
              default_record "Google Gemini"
                "https://generativelanguage.googleapis.com/v1beta"
                (env_or_empty GEMINI_API_KEY) "gemini-1.5-flash" ]>
         ∅))) |}).

(** [table[key]] *)
Fixpoint table_get (table : list (string * ref)) (key : string)
  : option ref :=
  match table with
  | [] => None
  | (k, r) :: table' =>
      if bool_decide (k = key) then Some r else table_get table' key
  end.

(** [c.providers[p]], read in the store. *)
Definition provider_of (h : Heap) (c : DefaultConfig)
    (p : SupportedProviders) : option LLMProvider.t :=
  match tables h !! providers c with
  | Some table =>
      match table_get table (provider_key p) with
      | Some r => records h !! r
      | None => None
      end
  | None => None
  end.

(** [getActiveProvider()] *)
Definition getActiveProvider (this : t) (h : Heap) : option LLMProvider.t :=
  provider_of h (config this) (activeProvider (config this)).

(** The body of the [forEach] callback of [getSafeConfig], for the key
    [provider] of the table [safeConfig.providers]: an assignment to the
    [apiKey] field of the record the table refers to. *)
Definition mask_key (table : list (string * ref)) (h : Heap)
    (provider : string) : Heap :=
  match table_get table provider with
  | Some r =>
      match records h !! r with
      | Some record =>
          if negb (falsy (LLMProvider.apiKey record)) then
            {| tables := tables h;
               records :=
                 <[r := LLMProvider.with_apiKey
                          (Some (if negb (falsy (LLMProvider.apiKey record))
                                 then "***" else ""))
                          record]> (records h) |}
          else h
      | None => h
      end
  | None => h
  end.

(** [getSafeConfig()]: the object returned and the store afterwards.
    [safeConfig] is a new object with the fields of [this.config], so
    its [providers] is the same reference. *)
Definition getSafeConfig (this : t) (h : Heap) : DefaultConfig * Heap :=
  let safeConfig := config this in
  match tables h !! providers safeConfig with
  | Some table =>
      (safeConfig, fold_left (mask_key table) (map fst table) h)
  | None => (safeConfig, h)
  end.

(** The record at [r] has had its key replaced. *)
Definition masked (h : Heap) (r : ref) : Prop :=
  exists record,
    records h !! r = Some record
    /\ LLMProvider.apiKey record = Some "***".


Record ProviderStatus := {
  status_model : string;
  status_temperature : Q;
  hasApiKey : bool;
  status : string
}.

Record ProviderStatusResponse := {
  active : string;
  available : list string;
  status_providers : list (string * ProviderStatus)
}.

(** [config.temperature || 0.1] *)
Definition temperature_or_default (temperature : option Q) : Q :=
  match temperature with
  | Some q => if Qeq_bool q 0 then (1 # 10)%Q else q
  | None => (1 # 10)%Q
  end.

(** The entry [getProviderStatus] builds for one [name, config] pair. *)
Definition provider_status (name : string) (config : LLMProvider.t)
  : ProviderStatus :=
  {| status_model := LLMProvider.model config;
     status_temperature :=
       temperature_or_default (LLMProvider.temperature config);
     hasApiKey := negb (falsy (LLMProvider.apiKey config));
     status :=
       if bool_decide (name = "lmstudio") then "local"
       else if negb (falsy (LLMProvider.apiKey config)) then "configured"
       else "needs-key" |}.

(** [getProviderStatus()]; [None] when a reference denotes no object,
    where the property access throws.  The keys of a table are distinct,
    so the entries assigned one by one are the entries in order. *)
Definition getProviderStatus (this : t) (h : Heap)
  : option ProviderStatusResponse :=
  match tables h !! providers (config this) with
  | Some table =>
      match mapM (fun entry : string * ref =>
                    match records h !! entry.2 with
                    | Some config =>
                        Some (entry.1, provider_status entry.1 config)
                    | None => None
                    end) table with
      | Some entries =>
          Some {| active := provider_key (activeProvider (config this));
                  available := map fst table;
                  status_providers := entries |}
      | None => None
      end
  | None => None
  end.

End ConfigManager.

(** ** [src/server/server.ts] *)

Module Server.

Definition quote : string := String (ascii_of_nat 34) EmptyString.
Definition newline : string := String (ascii_of_nat 10) EmptyString.

(** [`${n}`] for a status code. *)
Definition decimal (n : N) : string :=
  NilZero.string_of_uint (N.to_uint n).

(** The template literal of [contextualQuestion]. *)
Definition contextualQuestion (title url text question : string) : string :=
  "Current page: " +:+ quote +:+ title +:+ quote +:+ " (" +:+ url +:+ ")"
  +:+ newline +:+ newline +:+ text
  +:+ newline +:+ newline +:+ "Question: " +:+ question.

(** The [messages] array when it is handed to [callProvider]: the
    literal it starts as, and the one [push]. *)
Definition build_messages (providerConfig : LLMProvider.t)
    (request : ChatRequest.t) : list ChatMessage.t :=
  [ ChatMessage.mk system (LLMProvider.systemPrompt providerConfig) ]
  ++ [ ChatMessage.mk user
         (contextualQuestion (ChatRequest.title request)
            (ChatRequest.url request) (ChatRequest.text request)
            (ChatRequest.question request)) ].

(** The [catch] block of the handler. *)
Definition on_error (headersSent : bool) (message : string) : list Effect :=
  if negb headersSent
  then [ResStatusJson 500 "Internal server error"]
  else [ResWrite (ErrorRecord message); ResEnd].

(** The last statement of the [try] block,
    [await LLMProviders.streamResponse(response, res, activeProvider)],
    under the [catch] block; the headers were sent before. *)
Definition relay (response : Response) (activeProvider : SupportedProviders)
  : list Effect :=
  match LLMProviders.streamResponse response activeProvider with
  | (effects, Ok _) => effects
  | (effects, Throw message) => effects ++ on_error true message
  end.

(** [app.post('/chat-stream', ...)] on a request body of the declared
    type [ChatRequest]: what it does to [res] and to the reader, and the
    [fetch] calls made.

    The four [console.log] calls between the look-up of the provider and
    [res.writeHead] evaluate [question.substring(0, 50)] and
    [history.length].  With [question] a string and [history] an array
    or absent, as the type has them, they cannot throw, and they are
    left out.  The route does not check the body against the type: a
    body with a [question] that is truthy and no string, or with
    [history: null], makes them throw before the header is sent, and the
    [catch] block then answers with the status 500 of [on_error false].
    Such bodies are outside this definition. *)
Definition chat_stream (configManager : ConfigManager.t)
    (heap : ConfigManager.Heap) (net : Network) (request : ChatRequest.t)
  : list Effect * list HttpRequest :=
  if falsy (Some (ChatRequest.title request))
     || falsy (Some (ChatRequest.url request))
     || falsy (Some (ChatRequest.text request))
     || falsy (Some (ChatRequest.question request))
  then
    ([ResStatusJson 400
        "Missing required fields: title, url, text, question"], [])
  else
    let activeProvider :=
      match ChatRequest.provider request with
      | Some p => p
      | None => ConfigManager.activeProvider
                  (ConfigManager.config configManager)
      end in
    match ConfigManager.provider_of heap
            (ConfigManager.config configManager) activeProvider with
    | None =>
        ([ResStatusJson 400
            ("Unknown provider: " +:+ provider_key activeProvider)], [])
    | Some providerConfig =>
        let messages := build_messages providerConfig request in
        match LLMProviders.callProvider net activeProvider providerConfig
                messages [] with
        | (Throw message, log) =>
            (ResWriteHead 200 :: on_error true message, log)
        | (Ok response, log) =>
            if negb (ok response) then
              ([ResWriteHead 200;
                ResWrite (ErrorRecord
                            (provider_key activeProvider
                             +:+ " server error: "
                             +:+ decimal (status response)));
                ResEnd], log)
            else (ResWriteHead 200 :: relay response activeProvider, log)
        end
    end.

(** [app.get('/config', ...)]: the store after the handler has run. *)
Definition get_config (configManager : ConfigManager.t)
    (heap : ConfigManager.Heap) : ConfigManager.Heap :=
  snd (ConfigManager.getSafeConfig configManager heap).


(** [app.get('/providers', ...)] *)
Definition get_providers (configManager : ConfigManager.t)
    (heap : ConfigManager.Heap)
  : option ConfigManager.ProviderStatusResponse :=
  ConfigManager.getProviderStatus configManager heap.

(** The body of the answer of [GET /health], without its time stamp. *)
Record ServerHealth := {
  health_status : string;
  health_activeProvider : string;
  providerStatus : string;
  version : string
}.

(** [app.get('/health', ...)].  [probe] is what [fetch] answers to the
    URL it is given; the second component lists the URLs fetched.  An
    active provider that denotes no record makes the property access in
    the [try] block throw, which the [catch] block turns into
    [unreachable]. *)
Definition health (probe : string -> result Response)
    (configManager : ConfigManager.t) (heap : ConfigManager.Heap)
  : ServerHealth * list string :=
  let activeProvider := ConfigManager.getActiveProvider configManager heap in
  let active :=
    ConfigManager.activeProvider (ConfigManager.config configManager) in
  let '(providerStatus, fetched) :=
    if bool_decide (active = lmstudio) then
      match activeProvider with
      | None => ("unreachable", [])
      | Some record =>
          let url := interpolate (LLMProvider.baseUrl record) +:+ "/models" in
          match probe url with
          | Ok testResponse =>
              (if ok testResponse then "healthy" else "error", [url])
          | Throw _ => ("unreachable", [url])
          end
      end
    else
      match activeProvider with
      | None => ("unreachable", [])
      | Some record =>
          (if negb (falsy (LLMProvider.apiKey record)) then "configured"
           else "needs-key", [])
      end in
  ({| health_status := "ok";
      health_activeProvider := provider_key active;
      providerStatus := providerStatus;
      version := "2.0.0" |}, fetched).

End Server.

(** ** [src/bookmarklet/modules/apiClient.ts]

    The other end of [POST /chat-stream].  The three callbacks are the
    caller's and are taken not to throw. *)

Module ApiClient.

Record ApiClientConfig := {
  serverUrl : string;
  timeout : N;
  retryAttempts : nat;
  retryDelay : N
}.

Definition defaultApiConfig : ApiClientConfig :=
  {| serverUrl := "http://localhost:4000"; timeout := 30000;
     retryAttempts := 3; retryDelay := 1000 |}.

(** [withRetry(operation, retryCount)], with [left] for what
    [retryAttempts] exceeds [retryCount] by: the outcome and the times
    waited, in milliseconds.  [operation n] is what the call of
    [operation] gives when [n] calls were made before it. *)
Fixpoint withRetry_from {A} (left : nat) (retryDelay : N)
    (operation : nat -> result A) (retryCount : nat) : result A * list N :=
  match operation retryCount with
  | Ok a => (Ok a, [])
  | Throw message =>
      match left with
      | O => (Throw message, [])
      | S left' =>
          let '(outcome, waits) :=
            withRetry_from left' retryDelay operation (S retryCount) in
          (outcome, retryDelay * (N.of_nat retryCount + 1) :: waits)
      end
  end.

Definition withRetry {A} (config : ApiClientConfig)
    (operation : nat -> result A) : result A * list N :=
  withRetry_from (retryAttempts config) (retryDelay config) operation 0.

(** What is handed to [onError]: a value found in a record of the
    stream, or the message of an error caught. *)
Inductive ErrorValue := FromStream (v : Json.value) | Caught (message : string).

Inductive ClientEffect :=
| OnToken (token : Json.value)
| OnError (error : ErrorValue)
| OnComplete
| ReleaseLock.

(** [chunk.split('\n')] *)
Fixpoint split_lines (s : list N) : list (list N) :=
  match s with
  | [] => [[]]
  | c :: rest =>
      if c =? Js.LF then [] :: split_lines rest
      else Js.cons_head c (split_lines rest)
  end.

(** [x] when [if (x)] takes it: defined and truthy. *)
Definition taken (x : option Json.value) : option Json.value :=
  match x with
  | Some v => if Json.truthy v then Some v else None
  | None => None
  end.

(** What the [try] block does with the value parsed from one line: the
    callbacks, and whether it returns from [sendChatRequest].  [None]
    when reading a property of [null] throws, which the [catch] block
    only logs. *)
Definition handle_data (data : Json.value)
  : option (list ClientEffect * bool) :=
  match Json.member (Json.prop "error") data with
  | None => None
  | Some error =>
      match taken error with
      | Some e => Some ([OnError (FromStream e)], true)
      | None =>
          let tokens :=
            match taken (Json.prop "token" data) with
            | Some t => [OnToken t]
            | None => []
            end in
          match taken (Json.prop "done" data) with
          | Some _ => Some (tokens ++ [OnComplete], true)
          | None => Some (tokens, false)
          end
      end
  end.

(** The body of [for (const line of lines)]. *)
Definition handle_line (line : list N) : list ClientEffect * bool :=
  if Js.startsWith line (Js.lit "data: ") then
    match Json.parse (Js.slice 6 line) with
    | None => ([], false)
    | Some data =>
        match handle_data data with
        | Some outcome => outcome
        | None => ([], false)
        end
    end
  else ([], false).

Fixpoint for_lines (lines : list (list N)) : list ClientEffect * bool :=
  match lines with
  | [] => ([], false)
  | line :: lines' =>
      let '(effects, returned) := handle_line line in
      if returned then (effects, true)
      else
        let '(effects', returned') := for_lines lines' in
        (effects ++ effects', returned')
  end.

(** How the [while (true)] loop of the client is left. *)
Inductive Exit := Break | Return | Raise (message : string).

Fixpoint read_loop (decoder : TextDecoder.t) (pending : list (list byte))
    (ending : Ending) : list ClientEffect * Exit :=
  match pending with
  | [] =>
      match ending with
      | Closed => ([OnComplete], Break)
      | Aborted message => ([], Raise message)
      end
  | value :: pending' =>
      let '(decoder', chunk) := TextDecoder.decode decoder value in
      let lines := split_lines chunk in
      let '(effects, returned) := for_lines lines in
      if returned then (effects, Return)
      else
        let '(effects', exit) := read_loop decoder' pending' ending in
        (effects ++ effects', exit)
  end.

(** [sendChatRequest(request, onToken, onError, onComplete)], where
    [operation] stands for [fetchWithTimeout] on the chat request: the
    callbacks made and the release of the reader, in order, and the times
    waited between attempts. *)
Definition sendChatRequest (config : ApiClientConfig)
    (operation : nat -> result Response) : list ClientEffect * list N :=
  match withRetry config operation with
  | (Throw message, waits) => ([OnError (Caught message)], waits)
  | (Ok response, waits) =>
      if negb (ok response) then
        ([OnError (Caught ("Server error: " +:+ Server.decimal (status response)
                           +:+ " " +:+ statusText response))], waits)
      else
        match body response with
        | None => ([OnError (Caught "No response body received")], waits)
        | Some stream =>
            let '(effects, exit) :=
              read_loop TextDecoder.create (chunks stream) (ending stream) in
            match exit with
            | Break | Return => (effects ++ [ReleaseLock], waits)
            | Raise message =>
                (effects ++ [ReleaseLock; OnError (Caught message)], waits)
            end
        end
  end.

End ApiClient.

(** ** What is observed of a run *)

(** The effects other than the reads: what happens to [res] and when the
    lock is released. *)
Definition without_reads (effects : list Effect) : list Effect :=
  List.filter (fun e => match e with ReaderRead => false | _ => true end)
    effects.

(** The records written to the client, in order. *)
Fixpoint written (effects : list Effect) : list SseRecord :=
  match effects with
  | [] => []
  | ResWrite r :: effects' => r :: written effects'
  | _ :: effects' => written effects'
  end.

(** The text a fresh decoder makes of a byte sequence. *)
Definition decoded (bytes : list byte) : list N :=
  snd (TextDecoder.decode TextDecoder.create bytes).

(** A successful response with the given body. *)
Definition streaming (pending : list (list byte)) (e : Ending) : Response :=
  {| ok := true; status := 200; statusText := "OK";
     body := Some {| chunks := pending; ending := e |} |}.

(** The complete events of a text and its unfinished tail. *)
Definition complete_events (s : list N) : list (list N) :=
  removelast (Js.split_blank s).

Definition partial_tail (s : list N) : list N :=
  default [] (last (Js.split_blank s)).

(** The message of the error an adapter throws for a missing key; the
    LM Studio adapter has none. *)
Definition missing_key_message (provider : SupportedProviders) : string :=
  match provider with
  | lmstudio => EmptyString
  | openai => "OpenAI API key not configured"
  | anthropic => "Anthropic API key not configured"
  | gemini => "Gemini API key not configured"
  end.

(** The writes of a sequence of tokens. *)
Definition token_writes (tokens : list Json.value) : list Effect :=
  map (fun t => ResWrite (TokenRecord t)) tokens.

(** The event is the terminator for this provider: the loop returns on it. *)
Definition is_terminator (provider : SupportedProviders) (event : list N)
  : bool :=
  match LLMProviders.decode_event provider event with
  | LLMProviders.Sentinel => true
  | LLMProviders.Token _ => false
  end.

(** The event is a [data: ] record that gets to [JSON.parse], and
    [JSON.parse] throws on its payload.  The payload [[DONE]], which is
    no JSON text either, does not get there in the branches that test
    for it first: all but the branch of Gemini. *)
Definition malformed (provider : SupportedProviders) (event : list N) : bool :=
  Js.startsWith event (Js.lit "data: ")
  && negb match provider with
          | gemini => false
          | _ => Js.str_eqb (Js.slice 6 event) (Js.lit "[DONE]")
          end
  && match Json.parse (Js.slice 6 event) with
     | None => true
     | Some _ => false
     end.

(** A caller that goes away after the first [n] effects of a run changes
    nothing in what [streamResponse] does next: the function puts no
    listener on [res] or on the request, hands no abort signal to [fetch]
    and does not look at what [res.write] returns.  What the run still
    does then is the rest of its effects. *)
Definition after_abandonment (n : nat) (effects : list Effect) : list Effect :=
  drop n effects.

(** The byte source is let go when the caller goes away: nothing more is
    read from it. *)
Definition released_on_abandonment (n : nat) (effects : list Effect) : Prop :=
  ReaderRead ∉ after_abandonment n effects.

(** ** Writing streams down *)

(** The same text with each apostrophe turned into a quotation mark, to
    write JSON in a string. *)
Fixpoint quoted (s : string) : string :=
  match s with
  | EmptyString => EmptyString
  | String c s' =>
      String (if Ascii.eqb c (ascii_of_nat 39) then ascii_of_nat 34 else c)
        (quoted s')
  end.

(** The bytes of an ASCII text. *)
Definition bytes (s : string) : list byte := list_byte_of_string s.

Definition blank_line : list byte := [x0a; x0a].

(** One record of the wire format: [data: ], a payload, a blank line. *)
Definition data_record (payload : string) : list byte :=
  bytes "data: " ++ bytes (quoted payload) ++ blank_line.

(** The record of a token that is the string [s]. *)
Definition fragment (s : string) : SseRecord :=
  TokenRecord (Json.JString (Js.lit s)).

(** The three records of the first scenario of the design document. *)
Definition scenario_A : list (list byte) :=
  [ data_record "{'choices':[{'delta':{'content':'Hi'}}]}";
    data_record "{'choices':[{'delta':{'content':' there'}}]}";
    data_record "[DONE]" ].

(** The second: a message start and one content delta. *)
Definition scenario_B : list (list byte) :=
  [ data_record "{'type':'message_start'}";
    data_record "{'type':'content_block_delta','delta':{'text':'Hello'}}" ].

(** The third: one candidate. *)
Definition scenario_C : list (list byte) :=
  [ data_record "{'candidates':[{'content':{'parts':[{'text':'OK'}]}}]}" ].

(** A delta whose content is the one letter U+00E9, two bytes on the
    wire. *)
Definition accented_record : list byte :=
  bytes "data: " ++ bytes (quoted "{'choices':[{'delta':{'content':'")
  ++ [xc3; xa9] ++ bytes (quoted "'}}]}") ++ blank_line.

(** A second question on a page, sent with the first exchange as
    history. *)
Definition request_with_history : ChatRequest.t :=
  {| ChatRequest.title := "Title";
     ChatRequest.url := "https://example.com/";
     ChatRequest.text := "Page text";
     ChatRequest.question := "And then?";
     ChatRequest.history :=
       Some [ ChatHistoryItem.mk user "First question" 1;
              ChatHistoryItem.mk assistant "First answer" 2 ];
     ChatRequest.provider := None |}.

(** The same request with another history. *)
Definition with_history (history : option (list ChatHistoryItem.t))
    (request : ChatRequest.t) : ChatRequest.t :=
  {| ChatRequest.title := ChatRequest.title request;
     ChatRequest.url := ChatRequest.url request;
     ChatRequest.text := ChatRequest.text request;
     ChatRequest.question := ChatRequest.question request;
     ChatRequest.history := history;
     ChatRequest.provider := ChatRequest.provider request |}.

(** The key of a provider in the live configuration. *)
Definition live_apiKey (configManager : ConfigManager.t)
    (heap : ConfigManager.Heap) (p : SupportedProviders) : option string :=
  match ConfigManager.provider_of heap (ConfigManager.config configManager) p
  with
  | Some record => LLMProvider.apiKey record
  | None => None
  end.

(** ** Further observations *)

(** The text of a sequence of events on the wire: each is followed by a
    blank line. *)
Definition frame (events : list (list N)) : list N :=
  concat (map (fun event => event ++ [Js.LF; Js.LF]) events).

(** An event as the wire format carries it: it holds no blank line and
    does not end in a line feed. *)
Definition framed (event : list N) : Prop :=
  Js.split_blank event = [event] /\ last event <> Some Js.LF.

(** An event as [event.startsWith('data: ')] followed by a payload. *)
Definition data_event (payload : list N) : list N :=
  Js.lit "data: " ++ payload.

(** A content delta the way the Anthropic API frames it: an [event: ]
    line, then the data line. *)
Definition anthropic_wire_event : list byte :=
  bytes "event: content_block_delta" ++ [x0a]
  ++ bytes (quoted "data: {'type':'content_block_delta','delta':{'text':'Hello'}}")
  ++ blank_line.

(** How [getSafeConfig] may leave a record: as it was, or, if it had a
    key, with [***] in its place. *)
Definition kept_or_masked (before after : LLMProvider.t) : Prop :=
  after = before
  \/ (falsy (LLMProvider.apiKey before) = false
      /\ after = LLMProvider.with_apiKey (Some "***") before).

(** Two stores with the same tables whose records correspond in that way. *)
Definition masking_of (h h' : ConfigManager.Heap) : Prop :=
  ConfigManager.tables h' = ConfigManager.tables h
  /\ forall r,
       match ConfigManager.records h !! r, ConfigManager.records h' !! r with
       | Some before, Some after => kept_or_masked before after
       | None, None => True
       | _, _ => False
       end.

(** The manager and the store of a fresh installation with a key for
    OpenAI in the environment. *)
Definition keyed_manager : ConfigManager.t :=
  fst (ConfigManager.create (Some "sk-live") None None).

Definition keyed_heap : ConfigManager.Heap :=
  snd (ConfigManager.create (Some "sk-live") None None).

(** The provider a chat request is for: [provider ||
    configManager.config.activeProvider]. *)
Definition requested_provider (configManager : ConfigManager.t)
    (request : ChatRequest.t) : SupportedProviders :=
  match ChatRequest.provider request with
  | Some p => p
  | None => ConfigManager.activeProvider (ConfigManager.config configManager)
  end.

(** The four required fields of a chat request are there. *)
Definition complete_request (request : ChatRequest.t) : Prop :=
  ChatRequest.title request <> EmptyString
  /\ ChatRequest.url request <> EmptyString
  /\ ChatRequest.text request <> EmptyString
  /\ ChatRequest.question request <> EmptyString.

(** The ways a chat answer that has begun can finish: after the
    terminator of the provider, on the end of its stream, on a broken
    stream, or on an error before anything was read. *)
Inductive Finish : list Effect -> Prop :=
| FinishDone :
    Finish [ResWrite DoneRecord; ResEnd; ReaderReleaseLock]
| FinishExhausted :
    Finish [ReaderReleaseLock; ResEnd]
| FinishBroken (message : string) :
    Finish [ReaderReleaseLock; ResWrite (ErrorRecord message); ResEnd]
| FinishRefused (message : string) :
    Finish [ResWrite (ErrorRecord message); ResEnd].

(** The chunks of a body the client answers with no callback: a
    successful response with that body. *)
Definition served (pending : list (list byte)) (e : Ending)
  : nat -> result Response :=
  fun _ => Ok (streaming pending e).

(** The callbacks among the effects of the client. *)
Definition callbacks (effects : list ApiClient.ClientEffect)
  : list ApiClient.ClientEffect :=
  List.filter (fun x => match x with
                        | ApiClient.ReleaseLock => false
                        | _ => true
                        end) effects.

(** A callback that ends the exchange. *)
Definition terminal (x : ApiClient.ClientEffect) : Prop :=
  match x with
  | ApiClient.OnError _ | ApiClient.OnComplete => True
  | _ => False
  end.

(** The bytes of [res.write('data: [DONE]\n\n')]. *)
Definition done_bytes : list byte := bytes "data: [DONE]" ++ blank_line.

(** A decoder between two characters, or inside one as the decoder
    itself gets there. *)
Definition decoder_ok (d : TextDecoder.t) : Prop :=
  TextDecoder.bytes_needed d = 0 \/ 128 <= TextDecoder.lower d.

(** Callbacks that are tokens only, each truthy; and such callbacks
    followed by the one that ends the exchange. *)
Definition only_tokens (effects : list ApiClient.ClientEffect) : Prop :=
  exists tokens,
    effects = map ApiClient.OnToken tokens
    /\ Forall (fun t => Json.truthy t = true) tokens.

Definition finished (effects : list ApiClient.ClientEffect) : Prop :=
  exists tokens last,
    effects = map ApiClient.OnToken tokens ++ [last]
    /\ terminal last
    /\ Forall (fun t => Json.truthy t = true) tokens.

(** ** What [res.write] sends

    The records are written with
    [res.write(`data: ${JSON.stringify({ name: s })}\n\n`)], where Node
    encodes the string as UTF-8.  [JSON.stringify] is given for an
    object with one property that holds a string, which is how the
    records are made when the token is a string. *)

Module Wire.

Definition is_high (c : N) : bool := (0xD800 <=? c) && (c <=? 0xDBFF).
Definition is_low (c : N) : bool := (0xDC00 <=? c) && (c <=? 0xDFFF).

Definition hex_digit (n : N) : N :=
  if n <? 10 then 0x30 + n else 0x61 + (n - 10).

(** The escape of a code unit with four lower-case hexadecimal digits. *)
Definition unicode_escape (c : N) : list N :=
  [0x5C; 0x75; hex_digit (c / 4096); hex_digit ((c / 256) mod 16);
   hex_digit ((c / 16) mod 16); hex_digit (c mod 16)].

(** A code unit that is not a surrogate, as [QuoteJSONString] writes it. *)
Definition quote_unit (c : N) : list N :=
  if c =? 0x08 then [0x5C; 0x62]
  else if c =? 0x09 then [0x5C; 0x74]
  else if c =? 0x0A then [0x5C; 0x6E]
  else if c =? 0x0C then [0x5C; 0x66]
  else if c =? 0x0D then [0x5C; 0x72]
  else if c =? 0x22 then [0x5C; 0x22]
  else if c =? 0x5C then [0x5C; 0x5C]
  else if c <? 0x20 then unicode_escape c
  else [c].

(** The inside of a quoted string: a surrogate pair is kept, a
    surrogate on its own is escaped. *)
Fixpoint quote_chars (s : list N) : list N :=
  match s with
  | [] => []
  | c :: r =>
      if is_high c then
        match r with
        | d :: r' =>
            if is_low d then c :: d :: quote_chars r'
            else unicode_escape c ++ quote_chars r
        | [] => unicode_escape c
        end
      else if is_low c then unicode_escape c ++ quote_chars r
      else quote_unit c ++ quote_chars r
  end.

(** [JSON.stringify(s)] for a string [s]. *)
Definition quote (s : list N) : list N := 0x22 :: quote_chars s ++ [0x22].

(** [JSON.stringify({ name: s })] for a string [s]. *)
Definition stringify (name : string) (s : list N) : list N :=
  [0x7B] ++ quote (Js.lit name) ++ [0x3A] ++ quote s ++ [0x7D].

Definition byte_of (n : N) : byte := default x00 (Byte.of_N n).

(** The UTF-8 bytes of a code point. *)
Definition utf8_code_point (cp : N) : list byte :=
  map byte_of
    (if cp <? 0x80 then [cp]
     else if cp <? 0x800 then [0xC0 + cp / 64; 0x80 + cp mod 64]
     else if cp <? 0x10000 then
       [0xE0 + cp / 4096; 0x80 + (cp / 64) mod 64; 0x80 + cp mod 64]
     else
       [0xF0 + cp / 262144; 0x80 + (cp / 4096) mod 64;
        0x80 + (cp / 64) mod 64; 0x80 + cp mod 64]).

(** The UTF-8 bytes of a string: a surrogate on its own is written as
    U+FFFD. *)
Fixpoint utf8 (s : list N) : list byte :=
  match s with
  | [] => []
  | c :: r =>
      if is_high c then
        match r with
        | d :: r' =>
            if is_low d then
              utf8_code_point (0x10000 + (c - 0xD800) * 1024 + (d - 0xDC00))
              ++ utf8 r'
            else utf8_code_point 0xFFFD ++ utf8 r
        | [] => utf8_code_point 0xFFFD
        end
      else if is_low c then utf8_code_point 0xFFFD ++ utf8 r
      else utf8_code_point c ++ utf8 r
  end.

(** The text of [`data: ${JSON.stringify({ name: s })}\n\n`] and the
    bytes written for it. *)
Definition data_text (name : string) (s : list N) : list N :=
  Js.lit "data: " ++ stringify name s ++ [Js.LF; Js.LF].

Definition data_bytes (name : string) (s : list N) : list byte :=
  utf8 (data_text name s).

(** The bytes of one [res.write]; [None] for a token that is not a
    string. *)
Definition record_bytes (r : SseRecord) : option (list byte) :=
  match r with
  | TokenRecord (Json.JString s) => Some (data_bytes "token" s)
  | TokenRecord _ => None
  | ErrorRecord message => Some (data_bytes "error" (Js.lit message))
  | DoneRecord => Some (utf8 (Js.lit "data: [DONE]" ++ [Js.LF; Js.LF]))
  end.

End Wire.

(** A string of code units in which every surrogate is part of a pair. *)
Inductive well_formed : list N -> Prop :=
| well_formed_nil : well_formed []
| well_formed_unit c s :
    c < 0x10000 -> Wire.is_high c = false -> Wire.is_low c = false ->
    well_formed s -> well_formed (c :: s)
| well_formed_pair c d s :
    Wire.is_high c = true -> Wire.is_low d = true ->
    well_formed s -> well_formed (c :: d :: s).

(** A decoder between two characters, after the first one. *)
Definition idle (d : TextDecoder.t) : Prop :=
  TextDecoder.bytes_needed d = 0 /\ TextDecoder.bom_seen d = true.

(** The strings of a record are made of 16-bit code units. *)
Definition code_units (r : SseRecord) : Prop :=
  match r with
  | TokenRecord (Json.JString s) => Forall (fun c => c < 65536) s
  | _ => True
  end.

(** What the client is to call last for the records that follow the
    tokens: the error of an error record, unless it is empty, and
    completion otherwise. *)
Definition last_call (closing : list SseRecord) : ApiClient.ClientEffect :=
  match closing with
  | [ErrorRecord (String a message)] =>
      ApiClient.OnError
        (ApiClient.FromStream (Json.JString (Js.lit (String a message))))
  | _ => ApiClient.OnComplete
  end.

(** What [parse_chars] makes of the rest of a string once it has read
    the code unit [c]. *)
Definition read (c : N) (rest : option (list N * list N))
  : option (list N * list N) :=
  match rest with
  | Some (cs, r) => Some (c :: cs, r)
  | None => None
  end.

(** A response of a provider that streams the given chunks, and a chat
    request for LM Studio. *)
Definition streams (pending : list (list byte)) : Network :=
  fun _ => Ok (streaming pending Closed).

Definition plain_request : ChatRequest.t :=
  ChatRequest.mk "Title" "https://example.com/" "Page text" "Why?" None
    (Some lmstudio).

(** The payload of a record of the provider's own format that carries
    the text [s]: a content delta of chat completions, a
    [content_block_delta] of Anthropic, a candidate of Gemini, with the
    text as [JSON.stringify] writes it. *)
Definition delta_payload (provider : SupportedProviders) (s : list N)
  : list N :=
  match provider with
  | lmstudio | openai =>
      Js.lit (quoted "{'choices':[{'delta':{'content':")
      ++ Wire.quote s ++ Js.lit "}}]}"
  | anthropic =>
      Js.lit (quoted "{'type':'content_block_delta','delta':{'text':")
      ++ Wire.quote s ++ Js.lit "}}"
  | gemini =>
      Js.lit (quoted "{'candidates':[{'content':{'parts':[{'text':")
      ++ Wire.quote s ++ Js.lit "}]}}]}"
  end.

Definition delta_event (provider : SupportedProviders) (s : list N)
  : list N :=
  data_event (delta_payload provider s).

(** The complete events of a stream in which records that do not parse
    are mixed with records that carry a text. *)
Inductive Piece := Garbage (event : list N) | Delta (text : list N).

Definition piece_event (provider : SupportedProviders) (piece : Piece)
  : list N :=
  match piece with
  | Garbage event => event
  | Delta text => delta_event provider text
  end.

(** The texts carried, in order, as tokens. *)
Fixpoint fragments (pieces : list Piece) : list Json.value :=
  match pieces with
  | [] => []
  | Garbage _ :: pieces' => fragments pieces'
  | Delta text :: pieces' => Json.JString text :: fragments pieces'
  end.

Definition sound (provider : SupportedProviders) (piece : Piece) : Prop :=
  match piece with
  | Garbage event => malformed provider event = true
  | Delta text => text <> [] /\ Forall (fun c => c < 65536) text
  end.

(** A code unit that stands for itself between the quotes of a JSON
    string. *)
Definition plain (c : N) : bool :=
  (0x20 <=? c) && negb (c =? 0x22) && negb (c =? 0x5C).

(* ===== Properties ===== *)

(** * Properties *)

(** ** Splitting on blank lines *)

Section SplitBlank.

Lemma pair_induction (P : list N -> Prop) :
  P [] ->
  (forall c, P [c]) ->
  (forall c d r, P r -> P (d :: r) -> P (c :: d :: r)) ->
  forall s, P s.
Proof.
  intros H0 H1 H2 s.
  enough (P s /\ forall c, P (c :: s)) by tauto.
  induction s as [|d r [IHr IHdr]]; split; auto.
Qed.

Lemma split_blank_cons2 c d r :
  Js.split_blank (c :: d :: r) =
  if (c =? Js.LF) && (d =? Js.LF) then [] :: Js.split_blank r
  else Js.cons_head c (Js.split_blank (d :: r)).
Proof. reflexivity. Qed.

Lemma split_blank_not_nil s : Js.split_blank s <> [].
Proof.
  induction s as [| c | c d r IHr IHdr] using pair_induction; try done.
  rewrite split_blank_cons2.
  destruct ((c =? Js.LF) && (d =? Js.LF)); [done|].
  destruct (Js.split_blank (d :: r)); done.
Qed.

Lemma split_blank_single s h : Js.split_blank s = [h] -> h = s.
Proof.
  revert h.
  induction s as [| c | c d r IHr IHdr] using pair_induction; intros h.
  - cbn. congruence.
  - cbn. congruence.
  - rewrite split_blank_cons2.
    destruct ((c =? Js.LF) && (d =? Js.LF)).
    + intros H. injection H as _ H. by apply split_blank_not_nil in H.
    + destruct (Js.split_blank (d :: r)) as [|h' t] eqn:E.
      * by apply split_blank_not_nil in E.
      * cbn. intros H. injection H as <- ->.
        by rewrite (IHdr h' eq_refl).
Qed.

Lemma split_blank_pieces s :
  Js.split_blank s = complete_events s ++ [partial_tail s].
Proof.
  unfold complete_events, partial_tail.
  destruct (Js.split_blank s) as [|h t] eqn:E using rev_ind.
  - by apply split_blank_not_nil in E.
  - by rewrite removelast_last, last_snoc.
Qed.

Lemma removelast_cons2 {A} (x y : A) l :
  removelast (x :: y :: l) = x :: removelast (y :: l).
Proof. reflexivity. Qed.

Lemma split_blank_app s t :
  Js.split_blank (s ++ t) =
  complete_events s ++ Js.split_blank (partial_tail s ++ t).
Proof.
  induction s as [| c | c d r IHr IHdr] using pair_induction.
  - reflexivity.
  - reflexivity.
  - change ((c :: d :: r) ++ t) with (c :: d :: (r ++ t)).
    unfold complete_events, partial_tail in *.
    rewrite !split_blank_cons2.
    destruct ((c =? Js.LF) && (d =? Js.LF)) eqn:Hsep.
    + rewrite IHr.
      destruct (Js.split_blank r) as [|h tl] eqn:E.
      * by apply split_blank_not_nil in E.
      * reflexivity.
    + change (d :: r ++ t) with ((d :: r) ++ t). rewrite IHdr.
      destruct (Js.split_blank (d :: r)) as [|h [|h2 tl]] eqn:E.
      * by apply split_blank_not_nil in E.
      * apply split_blank_single in E as ->.
        change (Js.cons_head c (Js.split_blank ((d :: r) ++ t)) =
                Js.split_blank (c :: d :: (r ++ t))).
        rewrite split_blank_cons2, Hsep. reflexivity.
      * cbn [Js.cons_head]. rewrite !removelast_cons2. reflexivity.
Qed.

Lemma complete_events_app s t :
  complete_events (s ++ t) =
  complete_events s ++ complete_events (partial_tail s ++ t).
Proof.
  unfold complete_events at 1. rewrite split_blank_app.
  rewrite removelast_app by apply split_blank_not_nil. reflexivity.
Qed.

Lemma partial_tail_app s t :
  partial_tail (s ++ t) = partial_tail (partial_tail s ++ t).
Proof.
  unfold partial_tail at 1. rewrite split_blank_app.
  rewrite (split_blank_pieces (partial_tail s ++ t)).
  rewrite app_assoc, last_snoc. reflexivity.
Qed.

(** The tail that is kept holds no blank line. *)
Lemma partial_tail_whole s :
  Js.split_blank (partial_tail s) = [partial_tail s].
Proof.
  pose proof (split_blank_app s []) as H.
  rewrite !app_nil_r in H. rewrite split_blank_pieces in H at 1.
  by apply app_inv_head in H.
Qed.

Lemma complete_events_whole s :
  Js.split_blank s = [s] -> complete_events s = [] /\ partial_tail s = s.
Proof. unfold complete_events, partial_tail. by intros ->. Qed.

Lemma or_empty_last (l : list (list N)) :
  Js.or_empty (last l) = default [] (last l).
Proof. destruct (last l) as [[|]|]; reflexivity. Qed.

End SplitBlank.

(** ** The read loop is a function of the bytes received *)

Section ReadLoop.

Import LLMProviders.

Lemma decode_app d a b :
  TextDecoder.decode d (a ++ b) =
  let '(d1, u1) := TextDecoder.decode d a in
  let '(d2, u2) := TextDecoder.decode d1 b in
  (d2, u1 ++ u2).
Proof.
  revert d. induction a as [|x a IH]; intros d; cbn.
  - by destruct (TextDecoder.decode d b).
  - destruct (TextDecoder.decode_byte d x) as [d1 u1].
    rewrite IH.
    destruct (TextDecoder.decode d1 a) as [d2 u2].
    destruct (TextDecoder.decode d2 b) as [d3 u3].
    by rewrite app_assoc.
Qed.

Lemma for_events_app p es1 es2 :
  for_events p (es1 ++ es2) =
  if snd (for_events p es1) then for_events p es1
  else (fst (for_events p es1) ++ fst (for_events p es2),
        snd (for_events p es2)).
Proof.
  induction es1 as [|e es1 IH]; cbn.
  - by destruct (for_events p es2).
  - destruct (decode_event p e); [done|].
    rewrite IH.
    destruct (for_events p es1) as [fx1 [|]]; cbn; [done|].
    by rewrite app_assoc.
Qed.

(** One turn of the loop, with the pieces named. *)
Lemma read_loop_cons p d buffer value pending e :
  read_loop p d buffer (value :: pending) e =
  let d' := fst (TextDecoder.decode d value) in
  let text := buffer ++ snd (TextDecoder.decode d value) in
  let turn := for_events p (complete_events text) in
  if snd turn then (ReaderRead :: fst turn, Return)
  else
    let later := read_loop p d' (partial_tail text) pending e in
    (ReaderRead :: fst turn ++ fst later, snd later).
Proof.
  cbn [read_loop]. unfold Js.pop.
  destruct (TextDecoder.decode d value) as [d' text]. cbn [fst snd].
  rewrite or_empty_last.
  fold (complete_events (buffer ++ text)).
  fold (partial_tail (buffer ++ text)).
  destruct (for_events p (complete_events (buffer ++ text))) as [fx [|]];
    cbn [fst snd]; [done|].
  by destruct (read_loop p d' (partial_tail (buffer ++ text)) pending e).
Qed.

Lemma read_loop_nil p d buffer e :
  read_loop p d buffer [] e =
  ([ReaderRead], match e with Closed => Break | Aborted m => Raise m end).
Proof. by destruct e. Qed.

Lemma without_reads_app a b :
  without_reads (a ++ b) = without_reads a ++ without_reads b.
Proof. apply List.filter_app. Qed.

(** Two chunks read one after the other do what their concatenation
    does when read at once. *)
Lemma read_loop_merge p d buffer v1 v2 pending e :
  let one := read_loop p d buffer ((v1 ++ v2) :: pending) e in
  let two := read_loop p d buffer (v1 :: v2 :: pending) e in
  without_reads (fst one) = without_reads (fst two) /\ snd one = snd two.
Proof.
  cbn zeta. rewrite !read_loop_cons. cbn zeta.
  rewrite decode_app.
  destruct (TextDecoder.decode d v1) as [d1 t1].
  destruct (TextDecoder.decode d1 v2) as [d2 t2] eqn:E2. cbn [fst snd].
  rewrite (app_assoc buffer t1 t2).
  rewrite (complete_events_app (buffer ++ t1) t2).
  rewrite (partial_tail_app (buffer ++ t1) t2), for_events_app.
  destruct (for_events p (complete_events (buffer ++ t1))) as [fx1 [|]];
    cbn [fst snd]; [done|].
  rewrite read_loop_cons. cbn zeta. rewrite E2. cbn [fst snd].
  destruct (for_events p
              (complete_events (partial_tail (buffer ++ t1) ++ t2)))
    as [fx2 [|]]; cbn [fst snd].
  - split; [|done]. cbn. rewrite !without_reads_app. reflexivity.
  - split; [|done]. cbn. rewrite !without_reads_app. cbn.
    rewrite !without_reads_app. by rewrite app_assoc.
Qed.

Lemma read_loop_concat p pending :
  forall d buffer e,
    Js.split_blank buffer = [buffer] ->
    let one := read_loop p d buffer [concat pending] e in
    let many := read_loop p d buffer pending e in
    without_reads (fst many) = without_reads (fst one)
    /\ snd many = snd one.
Proof.
  induction pending as [|v pending IH]; intros d buffer e Hwhole; cbn zeta.
  - cbn [concat]. rewrite read_loop_cons, read_loop_nil.
    cbn [TextDecoder.decode fst snd]. rewrite app_nil_r.
    destruct (complete_events_whole buffer Hwhole) as [-> ->].
    cbn zeta. cbn [for_events fst snd]. by rewrite read_loop_nil.
  - cbn [concat].
    destruct (read_loop_merge p d buffer v (concat pending) [] e)
      as [-> ->].
    rewrite !read_loop_cons. cbn zeta.
    destruct (TextDecoder.decode d v) as [d1 t1]. cbn [fst snd].
    destruct (for_events p (complete_events (buffer ++ t1))) as [fx [|]];
      cbn [fst snd]; [done|].
    destruct (IH d1 (partial_tail (buffer ++ t1)) e
                (partial_tail_whole _)) as [H1 H2].
    split; [|done]. cbn. rewrite !without_reads_app. by rewrite H1.
Qed.

Lemma for_events_no_read p events :
  without_reads (fst (for_events p events)) = fst (for_events p events).
Proof.
  induction events as [|ev events IH]; cbn [for_events]; [done|].
  destruct (decode_event p ev) as [|tok]; [done|].
  destruct (for_events p events) as [fx r]. cbn [fst snd] in *.
  rewrite without_reads_app, IH.
  by destruct (Json.truthy tok).
Qed.

(** What a run does, apart from reading, in terms of the complete
    events of the whole text received. *)
Lemma streamResponse_closed_form p pending e :
  let turn := for_events p (complete_events (decoded (concat pending))) in
  let run := streamResponse (streaming pending e) p in
  without_reads (fst run) =
    fst turn ++
    (if snd turn then [ReaderReleaseLock]
     else match e with
          | Closed => [ReaderReleaseLock; ResEnd]
          | Aborted _ => [ReaderReleaseLock]
          end)
  /\ snd run =
     if snd turn then Ok tt
     else match e with Closed => Ok tt | Aborted m => Throw m end.
Proof.
  cbn zeta. unfold streamResponse, streaming. cbn [body chunks ending].
  destruct (read_loop_concat p pending TextDecoder.create [] e eq_refl)
    as [H1 H2].
  destruct (read_loop p TextDecoder.create [] pending e) as [fx exit].
  cbn [fst snd] in H1, H2. subst exit.
  assert (without_reads
            (fst (read_loop p TextDecoder.create [] [concat pending] e))
          = fst (for_events p (complete_events (decoded (concat pending))))
          /\ snd (read_loop p TextDecoder.create [] [concat pending] e)
             = if snd (for_events p
                         (complete_events (decoded (concat pending))))
               then Return
               else match e with Closed => Break | Aborted m => Raise m end)
    as [H3 H4].
  { rewrite read_loop_cons. cbn zeta. rewrite read_loop_nil.
    unfold decoded. cbn [app].
    destruct (for_events p _) as [gx [|]] eqn:E; cbn [fst snd].
    - split; [|done]. cbn.
      pose proof (for_events_no_read p
        (complete_events (TextDecoder.decode TextDecoder.create
                            (concat pending)).2)) as H.
      by rewrite E in H.
    - split; [|done]. cbn. rewrite without_reads_app. cbn.
      rewrite app_nil_r.
      pose proof (for_events_no_read p
        (complete_events (TextDecoder.decode TextDecoder.create
                            (concat pending)).2)) as H.
      by rewrite E in H. }
  rewrite H4.
  destruct (snd (for_events p _)).
  - cbn [fst snd]. rewrite without_reads_app, H1, H3. done.
  - destruct e; cbn [fst snd]; rewrite without_reads_app, H1, H3; done.
Qed.

Lemma written_without_reads fx : written (without_reads fx) = written fx.
Proof.
  induction fx as [|x fx IH]; [done|].
  destruct x; cbn; fold (without_reads fx); by rewrite ?IH.
Qed.

Lemma written_app a b : written (a ++ b) = written a ++ written b.
Proof.
  induction a as [|x a IH]; [done|]. destruct x; cbn; by rewrite ?IH.
Qed.

End ReadLoop.

(** C1. [streamResponse] does not depend on where the chunk boundaries
    fall.  For each provider and two ways of cutting one byte sequence
    into chunks, a boundary in the middle of a record or of a character
    included, the two runs do the same to the response, in the same
    order, and finish the same way; they differ only in the number of
    reads.  The records written are those of the complete,
    blank-line-terminated events of the whole text: what follows the last
    blank line stays in the buffer and is never decoded. *)
Theorem chunk_boundary_independence
    (provider : SupportedProviders) (pending1 pending2 : list (list byte))
    (e : Ending) :
  concat pending1 = concat pending2 ->
  let run1 := LLMProviders.streamResponse (streaming pending1 e) provider in
  let run2 := LLMProviders.streamResponse (streaming pending2 e) provider in
  without_reads (fst run1) = without_reads (fst run2)
  /\ written (fst run1) = written (fst run2)
  /\ snd run1 = snd run2
  /\ written (fst run1) =
     written (fst (LLMProviders.for_events provider
                     (complete_events (decoded (concat pending1))))).
Proof.
  intros Hsame. cbn zeta.
  destruct (streamResponse_closed_form provider pending1 e) as [H1 H1'].
  destruct (streamResponse_closed_form provider pending2 e) as [H2 H2'].
  cbn zeta in *. rewrite <- Hsame in H2, H2'.
  assert (without_reads (LLMProviders.streamResponse
                           (streaming pending1 e) provider).1
          = without_reads (LLMProviders.streamResponse
                             (streaming pending2 e) provider).1) as Hfx
    by (by rewrite H1, H2).
  repeat split.
  - exact Hfx.
  - by rewrite <- (written_without_reads (_ (streaming pending1 e) _).1),
      Hfx, written_without_reads.
  - by rewrite H1', H2'.
  - rewrite <- written_without_reads, H1, written_app.
    destruct (snd (LLMProviders.for_events provider _)); [|destruct e];
      cbn; by rewrite app_nil_r.
Qed.

(** The first record of scenario A cut after nine bytes, against the
    whole stream in one chunk. *)
Lemma chunk_boundary_independence_witness :
  let whole := [concat scenario_A] in
  let cut := [take 9 (concat scenario_A); drop 9 (concat scenario_A)] in
  concat cut = concat whole
  /\ without_reads
       (fst (LLMProviders.streamResponse (streaming cut Closed) openai))
     = without_reads
         (fst (LLMProviders.streamResponse (streaming whole Closed) openai)).
Proof.
  split; [reflexivity|].
  exact (proj1 (chunk_boundary_independence openai _ _ Closed eq_refl)).
Defined.

(** A boundary between the two bytes of a character: the decoder keeps
    the first byte, and the token is the letter all the same. *)
Example chunk_boundary_inside_character :
  nth_error accented_record 39 = Some xc3
  /\ written
       (fst (LLMProviders.streamResponse
               (streaming [take 40 accented_record; drop 40 accented_record]
                  Closed) openai))
     = [TokenRecord (Json.JString [0xE9])].
Proof. split; vm_compute; reflexivity. Qed.

(** ** The shape of a run *)

Section Shape.

Import LLMProviders.

(** The loop over the events of one chunk writes tokens, and then, if
    it met the terminator, the terminator record and the end. *)
Lemma for_events_shape p events :
  exists tokens,
    fst (for_events p events) =
      token_writes tokens ++
      (if snd (for_events p events) then [ResWrite DoneRecord; ResEnd]
       else [])
    /\ snd (for_events p events) = existsb (is_terminator p) events.
Proof.
  induction events as [|ev events (tokens & Hfx & Hret)].
  - by exists [].
  - cbn [for_events existsb]. unfold is_terminator at 1.
    destruct (decode_event p ev) as [|tok]; cbn [orb].
    + by exists [].
    + destruct (for_events p events) as [fx r]. cbn [fst snd] in *.
      subst fx. rewrite <- Hret.
      destruct (Json.truthy tok).
      * by exists (tok :: tokens).
      * by exists tokens.
Qed.

Lemma token_writes_written tokens :
  written (token_writes tokens) = map TokenRecord tokens.
Proof.
  induction tokens as [|t ts IH]; [done|].
  cbn [token_writes map written]. fold (token_writes ts). by rewrite IH.
Qed.

Lemma token_writes_only tokens x :
  x ∈ token_writes tokens -> exists t, x = ResWrite (TokenRecord t).
Proof.
  unfold token_writes. intros (t & -> & _)%list_elem_of_fmap. by exists t.
Qed.

(** The way a run goes is decided by the complete events of the text. *)
Lemma streamResponse_shape p pending e :
  let met :=
    existsb (is_terminator p) (complete_events (decoded (concat pending))) in
  let run := streamResponse (streaming pending e) p in
  exists tokens,
    written (fst (for_events p
                    (complete_events (decoded (concat pending)))))
      = map TokenRecord tokens ++ (if met then [DoneRecord] else [])
    /\ without_reads (fst run) =
         token_writes tokens ++
         (if met then [ResWrite DoneRecord; ResEnd; ReaderReleaseLock]
          else match e with
               | Closed => [ReaderReleaseLock; ResEnd]
               | Aborted _ => [ReaderReleaseLock]
               end)
    /\ snd run =
         if met then Ok tt
         else match e with Closed => Ok tt | Aborted m => Throw m end.
Proof.
  cbn zeta.
  destruct (streamResponse_closed_form p pending e) as [H1 H2].
  cbn zeta in H1, H2.
  destruct (for_events_shape p
              (complete_events (decoded (concat pending))))
    as (tokens & Hfx & Hret).
  exists tokens. rewrite H1, H2, Hfx, <- Hret.
  rewrite written_app, token_writes_written.
  destruct (snd (for_events p _)); [|destruct e];
    rewrite <- ?app_assoc; cbn [app]; rewrite ?app_nil_r; done.
Qed.

End Shape.

(** ** Scenario A *)

Lemma scenario_A_events provider :
  provider = openai \/ provider = lmstudio ->
  LLMProviders.for_events provider
    (complete_events (decoded (concat scenario_A)))
  = ([ResWrite (fragment "Hi"); ResWrite (fragment " there");
      ResWrite DoneRecord; ResEnd], true).
Proof. intros [-> | ->]; vm_compute; reflexivity. Qed.

(** C7. With the OpenAI and LM Studio strategy, the three records of
    [scenario_A] (a delta whose content is [Hi], a delta whose content is
    [ there], and [data: [DONE]]), each closed by a blank line and
    however they are cut into chunks, make [streamResponse] write the
    token [Hi], the token [ there] and the terminator, in this order and
    nothing else; it then ends the response, releases the reader and
    resolves. *)
Theorem scenario_A_tokens_then_done
    (provider : SupportedProviders) (pending : list (list byte)) (e : Ending) :
  provider = openai \/ provider = lmstudio ->
  concat pending = concat scenario_A ->
  let run := LLMProviders.streamResponse (streaming pending e) provider in
  written (fst run) = [fragment "Hi"; fragment " there"; DoneRecord]
  /\ without_reads (fst run) =
       [ResWrite (fragment "Hi"); ResWrite (fragment " there");
        ResWrite DoneRecord; ResEnd; ReaderReleaseLock]
  /\ snd run = Ok tt.
Proof.
  intros Hp Hbytes. cbn zeta.
  destruct (streamResponse_closed_form provider pending e) as [H1 H2].
  cbn zeta in H1, H2.
  rewrite Hbytes, (scenario_A_events provider Hp) in H1, H2.
  cbn [fst snd app] in H1, H2.
  rewrite <- written_without_reads, H1, H2. done.
Qed.

(** One record per chunk, with OpenAI. *)
Lemma scenario_A_tokens_then_done_witness :
  (openai = openai \/ openai = lmstudio)
  /\ concat scenario_A = concat scenario_A
  /\ written
       (fst (LLMProviders.streamResponse (streaming scenario_A Closed) openai))
     = [fragment "Hi"; fragment " there"; DoneRecord].
Proof.
  split; [by left|]. split; [reflexivity|].
  exact (proj1 (scenario_A_tokens_then_done openai scenario_A Closed
                  (or_introl eq_refl) eq_refl)).
Defined.

(** The same scenario with one record per chunk, reads included. *)
Example scenario_A_trace :
  LLMProviders.streamResponse (streaming scenario_A Closed) lmstudio
  = ([ReaderRead; ResWrite (fragment "Hi");
      ReaderRead; ResWrite (fragment " there");
      ReaderRead; ResWrite DoneRecord; ResEnd; ReaderReleaseLock], Ok tt).
Proof. vm_compute. reflexivity. Qed.

(** ** [JSON.parse] reads back what [JSON.stringify] writes *)

Section Quote.

Ltac divlia := zify; Z.to_euclidean_division_equations; lia.

Ltac cmp :=
  repeat match goal with
  | |- context [N.leb ?a ?b] =>
      first [ rewrite (proj2 (N.leb_le a b)) by divlia
            | rewrite (proj2 (N.leb_gt a b)) by divlia ]
  | |- context [N.ltb ?a ?b] =>
      first [ rewrite (proj2 (N.ltb_lt a b)) by divlia
            | rewrite (proj2 (N.ltb_ge a b)) by divlia ]
  | |- context [N.eqb ?a ?b] =>
      first [ rewrite (proj2 (N.eqb_eq a b)) by divlia
            | rewrite (proj2 (N.eqb_neq a b)) by divlia ]
  end; cbn [andb orb negb].

Lemma lit_below m : Forall (fun c => c < 256) (Js.lit m).
Proof.
  unfold Js.lit. induction m as [|a m IH]; cbn; constructor; [|exact IH].
  apply N_ascii_bounded.
Qed.

Lemma hex_val_hex_digit n :
  n < 16 -> Json.hex_val (Wire.hex_digit n) = Some n.
Proof.
  intros Hn. unfold Wire.hex_digit, Json.hex_val, Json.is_digit.
  destruct (N.ltb_spec n 10); cmp; f_equal; lia.
Qed.

Lemma parse_plain c rest :
  0x20 <= c -> c <> 0x22 -> c <> 0x5C ->
  Json.parse_chars (c :: rest) = read c (Json.parse_chars rest).
Proof. intros. cbn [Json.parse_chars]. by cmp. Qed.

Lemma parse_unicode_escape c rest :
  c < 65536 ->
  Json.parse_chars (Wire.unicode_escape c ++ rest)
  = read c (Json.parse_chars rest).
Proof.
  intros Hc. unfold Wire.unicode_escape. cbn [app Json.parse_chars]. cmp.
  rewrite !hex_val_hex_digit by divlia.
  replace (((c / 4096 * 16 + (c / 256) mod 16) * 16 + (c / 16) mod 16) * 16
           + c mod 16) with c by divlia.
  reflexivity.
Qed.

Lemma parse_quote_unit c rest :
  c < 65536 ->
  Json.parse_chars (Wire.quote_unit c ++ rest)
  = read c (Json.parse_chars rest).
Proof.
  intros Hc. unfold Wire.quote_unit.
  repeat match goal with
         | |- context [if ?a =? ?b then _ else _] =>
             destruct (N.eqb_spec a b) as [->|?];
             [cbn [app Json.parse_chars]; unfold Json.simple_escape;
              by cmp|]
         end.
  destruct (N.ltb_spec c 0x20).
  - by apply parse_unicode_escape.
  - by apply parse_plain.
Qed.

Lemma parse_quote_chars s :
  Forall (fun c => c < 65536) s ->
  forall rest,
    Json.parse_chars (Wire.quote_chars s ++ 0x22 :: rest) = Some (s, rest).
Proof.
  induction s as [|c|c d r IHr IHd] using pair_induction; intros Hs rest.
  - reflexivity.
  - apply Forall_cons in Hs as [Hc _]. cbn [Wire.quote_chars].
    destruct (Wire.is_high c); [|destruct (Wire.is_low c)];
      rewrite ?app_nil_r;
      by rewrite 1?parse_unicode_escape, 1?parse_quote_unit by done.
  - apply Forall_cons in Hs as [Hc Hs]. specialize (IHd Hs).
    apply Forall_cons in Hs as [Hd Hs]. specialize (IHr Hs).
    change (Wire.quote_chars (c :: d :: r))
      with (if Wire.is_high c then
              if Wire.is_low d then c :: d :: Wire.quote_chars r
              else Wire.unicode_escape c ++ Wire.quote_chars (d :: r)
            else if Wire.is_low c
                 then Wire.unicode_escape c ++ Wire.quote_chars (d :: r)
                 else Wire.quote_unit c ++ Wire.quote_chars (d :: r)).
    destruct (Wire.is_high c) eqn:Hh;
      [destruct (Wire.is_low d) eqn:Hl|destruct (Wire.is_low c)];
      rewrite <- ?app_assoc;
      rewrite 1?parse_unicode_escape, 1?parse_quote_unit, ?IHd by done;
      try reflexivity.
    unfold Wire.is_high in Hh. unfold Wire.is_low in Hl.
    apply andb_true_iff in Hh as [Hh _]. apply andb_true_iff in Hl as [Hl _].
    apply N.leb_le in Hh, Hl. cbn [app].
    rewrite !parse_plain, IHr by lia. reflexivity.
Qed.

Lemma parse_stringify name s :
  Forall (fun c => c < 65536) s ->
  Json.parse (Wire.stringify name s)
  = Some (Json.JObject [(Js.lit name, Json.JString s)]).
Proof.
  intros Hs.
  assert (Wire.stringify name s
          = 0x7B :: 0x22 ::
            (Wire.quote_chars (Js.lit name) ++ 0x22 :: 0x3A :: 0x22 ::
             (Wire.quote_chars s ++ 0x22 :: [0x7D]))) as ->.
  { unfold Wire.stringify, Wire.quote. cbn [app].
    by rewrite <- !app_assoc. }
  unfold Json.parse.
  set (text := Wire.quote_chars (Js.lit name) ++ _).
  cbn [length]. 
  destruct (2 * S (S (length text)) + 2)%nat as [|[|[|fuel]]] eqn:E; [lia..|].
  clear E. subst text.
  cbn [Json.parse_value Json.skip_ws]. unfold Json.is_ws. cmp.
  cbn [Json.skip_ws]. unfold Json.is_ws. cmp.
  cbn [Json.parse_members Json.skip_ws]. unfold Json.is_ws. cmp.
  rewrite parse_quote_chars.
  2:{ eapply Forall_impl; [apply lit_below|]. cbn. intros; lia. }
  cbn [Json.skip_ws]. unfold Json.is_ws. cmp.
  cbn [Json.parse_value Json.skip_ws]. unfold Json.is_ws. cmp.
  rewrite parse_quote_chars by done.
  cbn [Json.skip_ws]. unfold Json.is_ws. cmp.
  reflexivity.
Qed.

Lemma quote_chars_printable s :
  Forall (fun c => 0x20 <= c) (Wire.quote_chars s).
Proof.
  assert (forall c, Forall (fun c => 0x20 <= c) (Wire.unicode_escape c))
    as Hescape.
  { intros c. unfold Wire.unicode_escape, Wire.hex_digit.
    repeat (apply List.Forall_cons;
            [first [lia | destruct (_ <? _); divlia]|]).
    apply List.Forall_nil. }
  assert (forall c, Wire.is_high c = false -> Wire.is_low c = false ->
                    Forall (fun c => 0x20 <= c) (Wire.quote_unit c))
    as Hunit.
  { intros c _ _. unfold Wire.quote_unit.
    repeat match goal with
           | |- context [if ?a =? ?b then _ else _] =>
               destruct (N.eqb_spec a b) as [->|?];
               [repeat (apply List.Forall_cons; [lia|]);
                apply List.Forall_nil|]
           end.
    destruct (N.ltb_spec c 0x20); [apply Hescape|].
    apply List.Forall_cons; [lia|apply List.Forall_nil]. }
  induction s as [|c|c d r IHr IHd] using pair_induction.
  - constructor.
  - cbn [Wire.quote_chars].
    destruct (Wire.is_high c) eqn:Hh; [|destruct (Wire.is_low c) eqn:Hl];
      rewrite ?app_nil_r; auto.
  - change (Wire.quote_chars (c :: d :: r))
      with (if Wire.is_high c then
              if Wire.is_low d then c :: d :: Wire.quote_chars r
              else Wire.unicode_escape c ++ Wire.quote_chars (d :: r)
            else if Wire.is_low c
                 then Wire.unicode_escape c ++ Wire.quote_chars (d :: r)
                 else Wire.quote_unit c ++ Wire.quote_chars (d :: r)).
    destruct (Wire.is_high c) eqn:Hh;
      [destruct (Wire.is_low d) eqn:Hl|destruct (Wire.is_low c) eqn:Hl];
      try (apply Forall_app; split; auto).
    unfold Wire.is_high in Hh. unfold Wire.is_low in Hl.
    apply andb_true_iff in Hh as [Hh _]. apply andb_true_iff in Hl as [Hl _].
    apply N.leb_le in Hh, Hl.
    do 2 (apply List.Forall_cons; [lia|]). exact IHr.
Qed.

End Quote.

(** ** Records that do not parse *)

Lemma malformed_decodes_to_nothing provider event :
  malformed provider event = true ->
  LLMProviders.decode_event provider event
  = LLMProviders.Token (Json.JString []).
Proof.
  unfold malformed, is_terminator.
  intros [[Hdata Hterm]%andb_prop Hparse]%andb_prop.
  destruct (Json.parse (Js.slice 6 event)) eqn:E; [done|].
  destruct provider; cbn [LLMProviders.decode_event] in *;
    rewrite Hdata in *;
    try (destruct (Js.str_eqb (Js.slice 6 event) (Js.lit "[DONE]"));
         [done|]);
    unfold LLMProviders.openai_try, LLMProviders.anthropic_try,
      LLMProviders.gemini_try; by rewrite E.
Qed.

Section Deltas.

Import LLMProviders.

(** Decides the comparisons of numerals. *)
Ltac numerals :=
  repeat match goal with
  | |- context [N.eqb ?a ?b] =>
      let v := eval vm_compute in (N.eqb a b) in
      match v with true => idtac | false => idtac end;
      change (N.eqb a b) with v
  end; cbn [andb orb negb].

Ltac enter :=
  repeat progress
    (cbn [Json.parse_value Json.parse_members Json.parse_elements
          Json.skip_ws Json.define];
     unfold Json.is_ws; numerals).

Lemma parse_key key rest :
  forallb plain key = true ->
  Json.parse_chars (key ++ 0x22 :: rest) = Some (key, rest).
Proof.
  induction key as [|c key IH]; [reflexivity|].
  cbn [forallb]. intros [Hc Hkey]%andb_prop. unfold plain in Hc.
  apply andb_prop in Hc as [[H1 H2]%andb_prop H3].
  apply N.leb_le in H1. apply negb_true_iff, N.eqb_neq in H2, H3.
  cbn [app]. rewrite parse_plain, (IH Hkey) by done. reflexivity.
Qed.

Lemma parse_string_value f s rest :
  Forall (fun c => c < 65536) s ->
  Json.parse_value (S f) (0x22 :: Wire.quote_chars s ++ 0x22 :: rest)
  = Some (Json.JString s, rest).
Proof. intros Hs. enter. by rewrite parse_quote_chars. Qed.

Lemma parse_object_one f key body v rest :
  forallb plain key = true ->
  Json.parse_value f body = Some (v, 0x7D :: rest) ->
  Json.parse_value (S (S f)) (0x7B :: 0x22 :: key ++ 0x22 :: 0x3A :: body)
  = Some (Json.JObject [(key, v)], rest).
Proof.
  intros Hkey Hbody. enter. rewrite (parse_key key _ Hkey). enter.
  rewrite Hbody. enter. reflexivity.
Qed.

Lemma parse_object_two f k1 k2 body1 body2 v1 v2 rest :
  forallb plain k1 = true -> forallb plain k2 = true ->
  Json.parse_value (S f) body1
  = Some (v1, 0x2C :: 0x22 :: k2 ++ 0x22 :: 0x3A :: body2) ->
  Json.parse_value f body2 = Some (v2, 0x7D :: rest) ->
  Json.parse_value (S (S (S f)))
    (0x7B :: 0x22 :: k1 ++ 0x22 :: 0x3A :: body1)
  = Some (Json.JObject (Json.define k2 v2 [(k1, v1)]), rest).
Proof.
  intros H1 H2 Hbody1 Hbody2. remember (S f) as f1 eqn:Ef.
  enter. rewrite (parse_key k1 _ H1). enter.
  rewrite Hbody1. enter. subst f1. enter. rewrite (parse_key k2 _ H2). enter.
  rewrite Hbody2. enter. reflexivity.
Qed.

Lemma parse_array_one f b v rest :
  Json.parse_value f (0x7B :: b) = Some (v, 0x5D :: rest) ->
  Json.parse_value (S (S f)) (0x5B :: 0x7B :: b)
  = Some (Json.JArray [v], rest).
Proof. intros Hb. enter. rewrite Hb. enter. reflexivity. Qed.

Lemma parse_delta_payload provider s :
  Forall (fun c => c < 65536) s ->
  Json.parse (delta_payload provider s)
  = Some
      match provider with
      | lmstudio | openai =>
          Json.JObject
            [(Js.lit "choices",
              Json.JArray
                [Json.JObject
                   [(Js.lit "delta",
                     Json.JObject [(Js.lit "content", Json.JString s)])]])]
      | anthropic =>
          Json.JObject
            [(Js.lit "type", Json.JString (Js.lit "content_block_delta"));
             (Js.lit "delta",
              Json.JObject [(Js.lit "text", Json.JString s)])]
      | gemini =>
          Json.JObject
            [(Js.lit "candidates",
              Json.JArray
                [Json.JObject
                   [(Js.lit "content",
                     Json.JObject
                       [(Js.lit "parts",
                         Json.JArray
                           [Json.JObject
                              [(Js.lit "text", Json.JString s)]])])]])]
      end.
Proof.
  intros Hs. unfold Json.parse.
  assert (forall prefix suffix,
            Js.lit prefix ++ Wire.quote s ++ Js.lit suffix
            = Js.lit prefix
              ++ 0x22 :: (Wire.quote_chars s ++ 0x22 :: Js.lit suffix)) as Hshape.
  { intros prefix suffix. unfold Wire.quote. cbn [app].
    by rewrite <- app_assoc. }
  assert (forall text v,
            (14 <= length text)%nat ->
            (forall f, Json.parse_value (14 + f) text = Some (v, [])) ->
            match Json.parse_value (2 * length text + 2) text with
            | Some (v, rest) =>
                match Json.skip_ws rest with
                | [] => Some v
                | _ :: _ => None
                end
            | None => None
            end = Some v) as Hfuel.
  { intros text v Hlen H.
    replace (2 * length text + 2)%nat
      with (14 + (2 * length text + 2 - 14))%nat by lia.
    by rewrite H. }
  destruct provider; unfold delta_payload; rewrite Hshape;
    (apply Hfuel; [rewrite length_app; cbn; lia|]); intros f.
  - change (14 + f)%nat with (S (S (S (S (S (S (S (S (S (5 + f)))))))))).
    apply (parse_object_one _ (Js.lit "choices")); [reflexivity|].
    apply parse_array_one.
    apply (parse_object_one _ (Js.lit "delta")); [reflexivity|].
    apply (parse_object_one _ (Js.lit "content")); [reflexivity|].
    by apply parse_string_value.
  - change (14 + f)%nat with (S (S (S (S (S (S (S (S (S (5 + f)))))))))).
    apply (parse_object_one _ (Js.lit "choices")); [reflexivity|].
    apply parse_array_one.
    apply (parse_object_one _ (Js.lit "delta")); [reflexivity|].
    apply (parse_object_one _ (Js.lit "content")); [reflexivity|].
    by apply parse_string_value.
  - change (14 + f)%nat with (S (S (S (S (S (9 + f)))))).
    eapply (parse_object_two (S (S (9 + f))) (Js.lit "type")
              (Js.lit "delta")); [reflexivity|reflexivity| |].
    + apply (parse_string_value _ (Js.lit "content_block_delta")).
      eapply Forall_impl; [apply lit_below|]. cbn. intros; lia.
    + apply (parse_object_one _ (Js.lit "text")); [reflexivity|].
      by apply parse_string_value.
  - change (14 + f)%nat with (S (S (S (S (S (S (S (S (S (S (S (S (S (1 + f)))))))))))))).
    apply (parse_object_one _ (Js.lit "candidates")); [reflexivity|].
    apply parse_array_one.
    apply (parse_object_one _ (Js.lit "content")); [reflexivity|].
    apply (parse_object_one _ (Js.lit "parts")); [reflexivity|].
    apply parse_array_one.
    apply (parse_object_one _ (Js.lit "text")); [reflexivity|].
    by apply parse_string_value.
Qed.

Lemma data_event_payload payload :
  Js.startsWith (data_event payload) (Js.lit "data: ") = true
  /\ Js.slice 6 (data_event payload) = payload.
Proof. split; [by destruct payload | reflexivity]. Qed.

Lemma parsed_is_not_the_sentinel payload v :
  Json.parse payload = Some v ->
  Js.str_eqb payload (Js.lit "[DONE]") = false.
Proof.
  intros Hparse. unfold Js.str_eqb. case_bool_decide as H; [|done].
  subst payload. vm_compute in Hparse. discriminate.
Qed.

(** A record of the provider's format that carries a text gives that
    text as its token. *)
Lemma decode_delta provider c s :
  Forall (fun c => c < 65536) (c :: s) ->
  decode_event provider (delta_event provider (c :: s))
  = Token (Json.JString (c :: s)).
Proof.
  intros Hs. unfold delta_event.
  destruct (data_event_payload (delta_payload provider (c :: s)))
    as [Hdata Hslice].
  pose proof (parse_delta_payload provider (c :: s) Hs) as Hparse.
  pose proof (parsed_is_not_the_sentinel _ _ Hparse) as Hdone.
  destruct provider; cbn [decode_event];
    rewrite Hdata, Hslice, ?Hdone;
    unfold openai_try, anthropic_try, gemini_try; rewrite Hparse;
    reflexivity.
Qed.

Lemma for_events_pieces provider pieces :
  Forall (sound provider) pieces ->
  for_events provider (map (piece_event provider) pieces)
  = (token_writes (fragments pieces), false).
Proof.
  induction 1 as [|piece pieces Hpiece _ IH]; [reflexivity|].
  cbn [map for_events]. rewrite IH.
  destruct piece as [event|text]; cbn [sound piece_event fragments] in *.
  - by rewrite (malformed_decodes_to_nothing provider event Hpiece).
  - destruct Hpiece as [Htext Hunits].
    destruct text as [|c s]; [done|].
    by rewrite (decode_delta provider c s Hunits).
Qed.

End Deltas.

(** C6, as it holds.  A stream whose complete events are records that
    do not parse, mixed in any order with records of the provider's own
    format that carry a text: every record with a text gives a token
    record with exactly that text, in the order of the stream, and the
    records that do not parse give nothing, end nothing and raise
    nothing: the loop is not left by [return], and how the run finishes
    is decided by the end of the byte stream alone.  And next to any
    other events, a record that does not parse is handled as if it were
    not there.  What is left out of the records that do not parse is the
    payload [[DONE]], which the branches of LM Studio, OpenAI and
    Anthropic take for the terminator before they parse. *)
Theorem decode_tolerance
    (provider : SupportedProviders) (pieces : list Piece) :
  Forall (sound provider) pieces ->
  LLMProviders.for_events provider (map (piece_event provider) pieces)
  = (token_writes (fragments pieces), false)
  /\ (forall pending e,
        complete_events (decoded (concat pending))
        = map (piece_event provider) pieces ->
        let run := LLMProviders.streamResponse (streaming pending e) provider in
        written (fst run) = map TokenRecord (fragments pieces)
        /\ without_reads (fst run)
           = token_writes (fragments pieces)
             ++ match e with
                | Closed => [ReaderReleaseLock; ResEnd]
                | Aborted _ => [ReaderReleaseLock]
                end
        /\ snd run = match e with
                     | Closed => Ok tt
                     | Aborted message => Throw message
                     end)
  /\ (forall event before after,
        malformed provider event = true ->
        LLMProviders.for_events provider (before ++ event :: after)
        = LLMProviders.for_events provider (before ++ after)).
Proof.
  intros Hpieces.
  pose proof (for_events_pieces provider pieces Hpieces) as Hturn.
  split; [exact Hturn|]. split.
  - intros pending e Hev. cbn zeta.
    destruct (streamResponse_closed_form provider pending e) as [H1 H2].
    cbn zeta in H1, H2. rewrite Hev, Hturn in H1, H2. cbn [fst snd] in H1, H2.
    split; [|by split].
    rewrite <- written_without_reads, H1, written_app, token_writes_written.
    destruct e; cbn; by rewrite app_nil_r.
  - intros event before after Hbad.
    pose proof (malformed_decodes_to_nothing provider event Hbad) as Hdec.
    rewrite !for_events_app. cbn [LLMProviders.for_events]. rewrite Hdec.
    cbn. by destruct (LLMProviders.for_events provider after).
Qed.

(** With OpenAI: an unfinished object between two deltas, and after
    them a text with a quotation mark and a letter outside ASCII. *)
Lemma decode_tolerance_witness :
  let pieces :=
    [Delta (Js.lit "Hi"); Garbage (Js.lit "data: {oops");
     Delta (Js.lit " there"); Delta [0x22; 0xE9]] in
  Forall (sound openai) pieces
  /\ LLMProviders.for_events openai (map (piece_event openai) pieces)
     = ([ResWrite (fragment "Hi"); ResWrite (fragment " there");
         ResWrite (TokenRecord (Json.JString [0x22; 0xE9]))], false).
Proof.
  cbn zeta.
  assert (Forall (sound openai)
            [Delta (Js.lit "Hi"); Garbage (Js.lit "data: {oops");
             Delta (Js.lit " there"); Delta [0x22; 0xE9]]) as Hsound.
  { repeat first [apply List.Forall_cons | apply List.Forall_nil];
      cbn [sound];
      try (split; [discriminate|];
           repeat first [apply List.Forall_cons | apply List.Forall_nil];
           reflexivity).
    vm_compute. reflexivity. }
  split; [exact Hsound|].
  exact (proj1 (decode_tolerance openai _ Hsound)).
Defined.

(** C6 does not hold as it is worded, for every record whose payload
    fails to parse: the payload [[DONE]] is no JSON text, and in the
    branch of Anthropic, whose format has no such record, it ends the
    stream all the same.  The terminator record is written for it, and
    the well-formed record that follows it gives no token. *)
Lemma sentinel_is_not_skipped :
  Json.parse (Js.lit "[DONE]") = None
  /\ LLMProviders.for_events anthropic
       [delta_event anthropic (Js.lit "a"); Js.lit "data: [DONE]";
        delta_event anthropic (Js.lit "b")]
     = ([ResWrite (fragment "a"); ResWrite DoneRecord; ResEnd], true)
  /\ written
       (fst (LLMProviders.streamResponse
               (streaming
                  [data_record "{'type':'content_block_delta','delta':{'text':'a'}}";
                   data_record "[DONE]";
                   data_record "{'type':'content_block_delta','delta':{'text':'b'}}"]
                  Closed) anthropic))
     = [fragment "a"; DoneRecord].
Proof. split; [|split]; vm_compute; reflexivity. Qed.

(** A record that does not parse between two that do, for the two other
    families. *)
Example decode_tolerance_anthropic :
  written
    (fst (LLMProviders.streamResponse
            (streaming
               [ data_record "{'type':'content_block_delta','delta':{'text':'a'}}";
                 data_record "{'type':'content_block_delta','delta':";
                 data_record "{'type':'content_block_delta','delta':{'text':'b'}}" ]
               Closed) anthropic))
  = [fragment "a"; fragment "b"].
Proof. vm_compute. reflexivity. Qed.

Example decode_tolerance_gemini :
  written
    (fst (LLMProviders.streamResponse
            (streaming
               [ data_record "{'candidates':[{'content':{'parts':[{'text':'a'}]}}]}";
                 data_record "[DONE]";
                 data_record "{'candidates':[{'content':{'parts':[{'text':'b'}]}}]}" ]
               Closed) gemini))
  = [fragment "a"; fragment "b"].
Proof. vm_compute. reflexivity. Qed.

(** ** How a stream is finished *)

(** The claim C4 fails where the byte stream is simply exhausted: in the
    second scenario of the design document the Anthropic run resolves, and
    the only record it has written is the token; the response is ended
    without a terminator record. *)
Lemma exhaustion_writes_no_terminator :
  let run := LLMProviders.streamResponse (streaming scenario_B Closed)
               anthropic in
  snd run = Ok tt
  /\ written (fst run) = [fragment "Hello"]
  /\ last (written (fst run)) <> Some DoneRecord.
Proof. vm_compute. repeat split; congruence. Qed.

(** C4, as the code has it.  A stream that closes in order always
    resolves, in one of two ways.  If one of its complete events is the
    terminator of the provider ([data: [DONE]] for LM Studio, OpenAI and
    Anthropic; Gemini has none), the tokens before it are written, then
    the terminator record, and the response is ended.  Otherwise the
    tokens are written and the response is ended with no terminator
    record: the end of the response is the only signal. *)
Theorem done_is_signalled_by_the_end
    (provider : SupportedProviders) (pending : list (list byte)) :
  let events := complete_events (decoded (concat pending)) in
  let run := LLMProviders.streamResponse (streaming pending Closed) provider in
  snd run = Ok tt
  /\ (exists tokens,
        if existsb (is_terminator provider) events then
          without_reads (fst run) =
            token_writes tokens
            ++ [ResWrite DoneRecord; ResEnd; ReaderReleaseLock]
          /\ written (fst run) = map TokenRecord tokens ++ [DoneRecord]
        else
          without_reads (fst run) =
            token_writes tokens ++ [ReaderReleaseLock; ResEnd]
          /\ written (fst run) = map TokenRecord tokens)
  /\ (provider = gemini -> existsb (is_terminator provider) events = false).
Proof.
  cbn zeta.
  destruct (streamResponse_shape provider pending Closed)
    as (tokens & Hw & Hfx & Hres).
  cbn zeta in *. split; [|split].
  - rewrite Hres. by destruct (existsb _ _).
  - exists tokens.
    rewrite <- written_without_reads, Hfx, written_app, token_writes_written.
    destruct (existsb _ _); cbn; by rewrite ?app_nil_r.
  - intros ->. apply not_true_is_false. intros H%existsb_exists.
    destruct H as (ev & _ & Hev). unfold is_terminator in Hev.
    cbn [LLMProviders.decode_event] in Hev.
    by destruct (Js.startsWith ev (Js.lit "data: ")).
Qed.



(** The third scenario of the design document: one candidate, then the
    connection is cut. *)
Example scenario_C_trace :
  Server.relay (streaming scenario_C (Aborted "terminated")) gemini
  = [ReaderRead; ResWrite (fragment "OK"); ReaderRead; ReaderReleaseLock;
     ResWrite (ErrorRecord "terminated"); ResEnd].
Proof. vm_compute. reflexivity. Qed.

(** The same through the whole handler, with a key for Gemini in the
    environment and a network that answers with that body. *)
Example scenario_C_through_handler :
  let '(configManager, heap) := ConfigManager.create None None (Some "k") in
  fst (Server.chat_stream configManager heap
         (fun _ => Ok (streaming scenario_C (Aborted "terminated")))
         (ChatRequest.mk "Title" "https://example.com/" "Page text" "Why?"
            None (Some gemini)))
  = [ResWriteHead 200; ReaderRead; ResWrite (fragment "OK"); ReaderRead;
     ReaderReleaseLock; ResWrite (ErrorRecord "terminated"); ResEnd].
Proof. vm_compute. reflexivity. Qed.

(** ** When the reader is released *)

Section Release.

Import LLMProviders.

Lemma for_events_no_release p events :
  ReaderReleaseLock ∉ fst (for_events p events).
Proof.
  destruct (for_events_shape p events) as (tokens & -> & _).
  intros [H|H]%elem_of_app.
  - by apply token_writes_only in H as [t Ht].
  - destruct (snd (for_events p events)); set_solver.
Qed.

Lemma read_loop_no_release p pending :
  forall d buffer e, ReaderReleaseLock ∉ fst (read_loop p d buffer pending e).
Proof.
  induction pending as [|v pending IH]; intros d buffer e.
  - rewrite read_loop_nil. set_solver.
  - rewrite read_loop_cons. cbn zeta.
    pose proof (for_events_no_release p
                  (complete_events (buffer ++ (TextDecoder.decode d v).2)))
      as Hturn.
    destruct (for_events p _) as [fx [|]]; cbn [fst snd] in *.
    + set_solver.
    + specialize (IH (TextDecoder.decode d v).1
                     (partial_tail (buffer ++ (TextDecoder.decode d v).2)) e).
      set_solver.
Qed.

End Release.

(** The claim C8 fails on a stream of two chunks: if the caller goes away
    once it has the first token, the run still reads the second chunk,
    writes its token and reads again; the reader is released only when
    the loop finds the stream exhausted. *)
Lemma abandoned_stream_is_read_on :
  let run := LLMProviders.streamResponse
               (streaming (take 2 scenario_A) Closed) openai in
  take 2 (fst run) = [ReaderRead; ResWrite (fragment "Hi")]
  /\ after_abandonment 2 (fst run)
     = [ReaderRead; ResWrite (fragment " there"); ReaderRead;
        ReaderReleaseLock; ResEnd]
  /\ ~ released_on_abandonment 2 (fst run).
Proof.
  cbn zeta. split; [by vm_compute|]. split; [by vm_compute|].
  unfold released_on_abandonment. intros H. apply H.
  vm_compute. apply list_elem_of_here.
Qed.

(** C8, as the code has it.  [streamResponse] releases the reader once,
    in its [finally] block, when the read loop has been left: by the
    [return] after a terminator, by the [break] on exhaustion, or by the
    error of a rejected read.  The loop itself never releases it, and
    nothing is read afterwards; no event at the caller's side enters into
    it. *)
Theorem reader_released_when_loop_is_left
    (provider : SupportedProviders) (pending : list (list byte)) (e : Ending) :
  let loop := LLMProviders.read_loop provider TextDecoder.create [] pending e in
  let run := LLMProviders.streamResponse (streaming pending e) provider in
  exists rest,
    fst run = fst loop ++ ReaderReleaseLock :: rest
    /\ (ReaderReleaseLock ∉ fst loop)
    /\ (ReaderRead ∉ rest)
    /\ (ReaderReleaseLock ∉ rest)
    /\ rest = match snd loop with
              | LLMProviders.Break => [ResEnd]
              | _ => []
              end.
Proof.
  cbn zeta. unfold LLMProviders.streamResponse, streaming.
  cbn [body chunks ending].
  pose proof (read_loop_no_release provider pending TextDecoder.create [] e)
    as Hloop.
  destruct (LLMProviders.read_loop provider TextDecoder.create [] pending e)
    as [fx exit].
  cbn [fst snd] in *.
  destruct exit; eexists; (split; [reflexivity|]); set_solver.
Qed.

(** ** The adapters *)

Lemma fetch_then_return (net : Network) (request : HttpRequest)
    (log : list HttpRequest) :
  (await response <- fetch net request; ret response) log
  = (net request, log ++ [request]).
Proof. unfold bind, fetch, ret. by destruct (net request). Qed.

(** C5. For OpenAI, Anthropic and Gemini, a configuration whose [apiKey]
    is empty or absent makes the adapter throw its configuration error
    before any [fetch]: the log of requests is left as it was.  The LM
    Studio adapter never looks at the key: it sends exactly one request,
    whose only header is the content type. *)
Theorem missing_credential_fails_before_fetch :
  (forall (net : Network) (provider : SupportedProviders)
          (config : LLMProvider.t) (messages : list ChatMessage.t)
          (log : list HttpRequest),
      provider <> lmstudio ->
      falsy (LLMProvider.apiKey config) = true ->
      LLMProviders.callProvider net provider config messages log
      = (Throw (missing_key_message provider), log))
  /\ (forall (net : Network) (config : LLMProvider.t)
             (messages : list ChatMessage.t) (log : list HttpRequest),
        exists request,
          LLMProviders.callProvider net lmstudio config messages log
          = (net request, log ++ [request])
          /\ req_headers request = [("Content-Type", "application/json")]
          /\ (forall value, ("Authorization", value) ∉ req_headers request)).
Proof.
  split.
  - intros net provider config messages log Hp Hkey.
    destruct provider; [done| | |];
      cbn [LLMProviders.callProvider missing_key_message];
      unfold LLMProviders.callOpenAI, LLMProviders.callAnthropic,
        LLMProviders.callGemini; rewrite Hkey; reflexivity.
  - intros net config messages log.
    cbn [LLMProviders.callProvider]. unfold LLMProviders.callLMStudio.
    rewrite fetch_then_return. eexists. split; [reflexivity|]. split.
    + reflexivity.
    + intros value H. cbn in H. apply list_elem_of_singleton in H.
      discriminate H.
Qed.

(** OpenAI with an empty key. *)
Lemma missing_credential_fails_before_fetch_witness :
  let config := ConfigManager.default_record "OpenAI"
                  "https://api.openai.com/v1" (Some "") "gpt-4o-mini" in
  openai <> lmstudio
  /\ falsy (LLMProvider.apiKey config) = true
  /\ forall net,
       LLMProviders.callProvider net openai config [] []
       = (Throw "OpenAI API key not configured", []).
Proof.
  split; [discriminate|]. split; [reflexivity|]. intros net.
  apply (proj1 missing_credential_fails_before_fetch net openai);
    [discriminate | reflexivity].
Defined.

(** C10. When the key is there, [callGemini] sends one request whose
    body has a [contents] entry for each message, in order: its role is
    [model] exactly when the message's role is [assistant] and [user]
    otherwise, and its parts are the one text of the message.  A system
    message so goes out as a [user] entry; the body has no field of its
    own for it. *)
Theorem gemini_role_mapping
    (net : Network) (config : LLMProvider.t) (messages : list ChatMessage.t)
    (log : list HttpRequest) :
  falsy (LLMProvider.apiKey config) = false ->
  exists request contents,
    LLMProviders.callGemini net config messages log
    = (net request, log ++ [request])
    /\ req_body request =
         GeminiGenerate contents (LLMProvider.temperature config)
           (LLMProvider.maxTokens config)
    /\ length contents = length messages
    /\ forall (i : nat) (msg : ChatMessage.t),
         messages !! i = Some msg ->
         exists entry,
           contents !! i = Some entry
           /\ (gemini_role entry = "model"
               <-> ChatMessage.role msg = assistant)
           /\ (gemini_role entry = "user"
               <-> ChatMessage.role msg <> assistant)
           /\ (ChatMessage.role msg = system -> gemini_role entry = "user")
           /\ parts entry = [ {| part_text := ChatMessage.content msg |} ].
Proof.
  intros Hkey. unfold LLMProviders.callGemini. rewrite Hkey.
  rewrite fetch_then_return.
  eexists. exists (map LLMProviders.gemini_content messages).
  split; [|split; [|split]].
  - reflexivity.
  - reflexivity.
  - apply length_map.
  - intros i msg Hi. exists (LLMProviders.gemini_content msg).
    split.
    + change (map LLMProviders.gemini_content messages)
        with (LLMProviders.gemini_content <$> messages).
      by rewrite list_lookup_fmap, Hi.
    + unfold LLMProviders.gemini_content. cbn [gemini_role parts].
      destruct (ChatMessage.role msg); cbn; repeat split; done.
Qed.

(** A system, a user and an assistant message. *)
Lemma gemini_role_mapping_witness :
  let config := ConfigManager.default_record "Google Gemini"
                  "https://generativelanguage.googleapis.com/v1beta"
                  (Some "key") "gemini-1.5-flash" in
  let messages := [ChatMessage.mk system "S"; ChatMessage.mk user "U";
                   ChatMessage.mk assistant "A"] in
  falsy (LLMProvider.apiKey config) = false
  /\ forall net, exists request contents,
       LLMProviders.callGemini net config messages []
       = (net request, [] ++ [request])
       /\ req_body request =
            GeminiGenerate contents (LLMProvider.temperature config)
              (LLMProvider.maxTokens config)
       /\ length contents = 3%nat.
Proof.
  split; [reflexivity|]. intros net.
  destruct (gemini_role_mapping net
              (ConfigManager.default_record "Google Gemini"
                 "https://generativelanguage.googleapis.com/v1beta"
                 (Some "key") "gemini-1.5-flash")
              [ChatMessage.mk system "S"; ChatMessage.mk user "U";
               ChatMessage.mk assistant "A"] [] eq_refl)
    as (request & contents & H1 & H2 & H3 & _).
  exists request, contents. by repeat split.
Defined.

(** What the three roles become. *)
Example gemini_roles :
  map LLMProviders.gemini_content
    [ChatMessage.mk system "S"; ChatMessage.mk user "U";
     ChatMessage.mk assistant "A"]
  = [ {| gemini_role := "user"; parts := [ {| part_text := "S" |} ] |};
      {| gemini_role := "user"; parts := [ {| part_text := "U" |} ] |};
      {| gemini_role := "model"; parts := [ {| part_text := "A" |} ] |} ].
Proof. reflexivity. Qed.

(** ** The conversation sent to the provider *)

(** The message list does not depend on the history of the request. *)
Lemma build_messages_ignores_history
    (providerConfig : LLMProvider.t) (request : ChatRequest.t)
    (history : option (list ChatHistoryItem.t)) :
  Server.build_messages providerConfig (with_history history request)
  = Server.build_messages providerConfig request
  /\ length (Server.build_messages providerConfig request) = 2%nat.
Proof. split; reflexivity. Qed.

(** Nor does anything else the handler does. *)
Lemma chat_stream_ignores_history
    (configManager : ConfigManager.t) (heap : ConfigManager.Heap)
    (net : Network) (request : ChatRequest.t)
    (history : option (list ChatHistoryItem.t)) :
  Server.chat_stream configManager heap net (with_history history request)
  = Server.chat_stream configManager heap net request.
Proof. reflexivity. Qed.

(** C2 does not hold of the handler: the history of the request is read
    and counted for the log, and then left out.  With the configuration
    of a fresh installation (LM Studio active), the request
    [request_with_history] makes one call to the provider, and the
    messages in its body are the system prompt and the one user message
    with the page and the question; neither [First question] nor
    [First answer] is among them. *)
Theorem history_is_not_sent (net : Network) :
  let '(configManager, heap) := ConfigManager.create None None None in
  snd (Server.chat_stream configManager heap net request_with_history)
  = [ {| req_url := "http://localhost:1234/v1/chat/completions";
         req_method := "POST";
         req_headers := [("Content-Type", "application/json")];
         req_body :=
           ChatCompletions "auto"
             [ ChatMessage.mk system ConfigManager.default_prompt;
               ChatMessage.mk user
                 (Server.contextualQuestion "Title" "https://example.com/"
                    "Page text" "And then?") ]
             true (Some (1 # 10)%Q) (Some (1000 # 1)%Q) |} ].
Proof.
  cbn beta iota zeta delta [ConfigManager.create].
  unfold Server.chat_stream.
  change (falsy (Some (ChatRequest.title request_with_history))
          || falsy (Some (ChatRequest.url request_with_history))
          || falsy (Some (ChatRequest.text request_with_history))
          || falsy (Some (ChatRequest.question request_with_history)))
    with false.
  cbn match. cbn [ChatRequest.provider request_with_history].
  cbn [ConfigManager.config ConfigManager.activeProvider].
  match goal with
  | |- context [ConfigManager.provider_of ?h ?c lmstudio] =>
      change (ConfigManager.provider_of h c lmstudio)
        with (Some (ConfigManager.default_record "LM Studio"
                      "http://localhost:1234/v1" None "auto"))
  end.
  cbn match. cbn [LLMProviders.callProvider].
  unfold LLMProviders.callLMStudio. rewrite fetch_then_return.
  destruct (net _) as [response|message]; [|reflexivity].
  destruct (ok response); reflexivity.
Qed.

(** ** The configuration after [GET /config] *)

Section Masking.

Import ConfigManager.

Lemma table_get_key (table : list (string * ref)) (key : string) (r : ref) :
  table_get table key = Some r -> key ∈ map fst table.
Proof.
  induction table as [|[k r'] table IH]; cbn; [done|].
  case_bool_decide as Hk.
  - intros _. subst k. apply list_elem_of_here.
  - intros H. apply list_elem_of_further, IH, H.
Qed.

Lemma mask_key_keeps_masked table h key r :
  masked h r -> masked (mask_key table h key) r.
Proof.
  intros (record & Hr & Hkey). unfold mask_key.
  destruct (table_get table key) as [r'|]; [|by exists record].
  destruct (records h !! r') as [record'|] eqn:Hr'; [|by exists record].
  destruct (falsy (LLMProvider.apiKey record')) eqn:Hf; cbn [negb];
    [by exists record|].
  destruct (decide (r' = r)) as [->|Hne].
  - eexists. cbn [records]. rewrite lookup_insert_eq. split; reflexivity.
  - exists record. cbn [records]. by rewrite lookup_insert_ne.
Qed.

Lemma mask_key_masks table h key r record :
  table_get table key = Some r ->
  records h !! r = Some record ->
  falsy (LLMProvider.apiKey record) = false ->
  masked (mask_key table h key) r.
Proof.
  intros Ht Hr Hf. unfold mask_key. rewrite Ht, Hr, Hf. cbn [negb].
  eexists. cbn [records]. rewrite lookup_insert_eq. split; reflexivity.
Qed.

Lemma fold_mask_keeps_masked table keys :
  forall h r, masked h r -> masked (fold_left (mask_key table) keys h) r.
Proof.
  induction keys as [|k keys IH]; intros h r Hm; [done|].
  cbn [fold_left]. by apply IH, mask_key_keeps_masked.
Qed.

(** A record of the table keeps its place in the store, masked or
    not. *)
Lemma mask_key_keeps_record table h key r record :
  records h !! r = Some record ->
  exists record', records (mask_key table h key) !! r = Some record'
    /\ (falsy (LLMProvider.apiKey record') = false
        <-> falsy (LLMProvider.apiKey record) = false).
Proof.
  intros Hr. unfold mask_key.
  destruct (table_get table key) as [r'|]; [|by exists record].
  destruct (records h !! r') as [record'|] eqn:Hr'; [|by exists record].
  destruct (falsy (LLMProvider.apiKey record')) eqn:Hf; cbn [negb];
    [by exists record|].
  destruct (decide (r' = r)) as [->|Hne].
  - eexists. cbn [records]. rewrite lookup_insert_eq.
    split; [reflexivity|]. cbn. rewrite Hr in Hr'. by injection Hr' as ->.
  - exists record. cbn [records]. by rewrite lookup_insert_ne.
Qed.

Lemma fold_mask_masks table keys :
  forall h key r record,
    key ∈ keys ->
    table_get table key = Some r ->
    records h !! r = Some record ->
    falsy (LLMProvider.apiKey record) = false ->
    masked (fold_left (mask_key table) keys h) r.
Proof.
  induction keys as [|k keys IH]; intros h key r record Hin Ht Hr Hf.
  - by apply elem_of_nil in Hin.
  - cbn [fold_left]. apply elem_of_cons in Hin as [<-|Hin].
    + apply fold_mask_keeps_masked. by eapply mask_key_masks.
    + destruct (mask_key_keeps_record table h k r record Hr)
        as (record' & Hr' & Hiff).
      eapply IH; [exact Hin|exact Ht|exact Hr'|by apply Hiff].
Qed.



End Masking.


(** C9 does not hold of the code: the copy made by [getSafeConfig] is
    one level deep, so the masking lands in the live configuration.
    With [OPENAI_API_KEY] set to [sk-live], the live key of OpenAI is
    [sk-live] before [GET /config] and [***] after it, and the next chat
    request to OpenAI carries [Bearer ***]. *)
Theorem get_config_destroys_the_live_key (net : Network) :
  let '(configManager, heap) :=
    ConfigManager.create (Some "sk-live") None None in
  let heap' := Server.get_config configManager heap in
  live_apiKey configManager heap openai = Some "sk-live"
  /\ live_apiKey configManager heap' openai = Some "***"
  /\ exists request,
       snd (Server.chat_stream configManager heap' net
              (ChatRequest.mk "Title" "https://example.com/" "Page text"
                 "Why?" None (Some openai)))
       = [request]
       /\ req_headers request =
            [("Content-Type", "application/json");
             ("Authorization", "Bearer ***")].
Proof.
  cbn beta iota zeta delta [ConfigManager.create].
  split; [by vm_compute|]. split; [by vm_compute|].
  unfold Server.chat_stream. cbn [ChatRequest.title ChatRequest.url
    ChatRequest.text ChatRequest.question ChatRequest.provider falsy orb].
  match goal with
  | |- context [ConfigManager.provider_of ?h ?c openai] =>
      let v := eval vm_compute in (ConfigManager.provider_of h c openai) in
      change (ConfigManager.provider_of h c openai) with v
  end.
  cbn match. cbn [LLMProviders.callProvider].
  unfold LLMProviders.callOpenAI. cbn [LLMProvider.apiKey falsy].
  rewrite fetch_then_return. eexists. split.
  - destruct (net _) as [response|message]; [|reflexivity].
    destruct (ok response); reflexivity.
  - reflexivity.
Qed.

(** ** [JSON.parse] never fails for want of fuel *)

Section JsonFuel.

Import Json.

Lemma skip_ws_length s : (length (skip_ws s) <= length s)%nat.
Proof.
  induction s as [|c s IH]; cbn; [lia|].
  destruct (is_ws c); cbn; lia.
Qed.

Lemma skip_ws_cons s c r :
  skip_ws s = c :: r -> (length r < length s)%nat.
Proof.
  intros H. pose proof (skip_ws_length s) as Hl. rewrite H in Hl.
  cbn in Hl. lia.
Qed.

Lemma parse_chars_length s :
  forall cs r, parse_chars s = Some (cs, r) -> (length r < length s)%nat.
Proof.
  induction s as [s IH] using (induction_ltof1 _ (@length N)).
  unfold ltof in IH. intros cs r.
  destruct s as [|c s]; cbn [parse_chars]; [done|].
  destruct (c =? 34).
  { intros [= <- <-]. cbn. lia. }
  destruct (c =? 92).
  - destruct s as [|e r1]; [done|].
    destruct (e =? 117).
    + destruct r1 as [|h1 [|h2 [|h3 [|h4 r2]]]]; try done.
      destruct (hex_val h1), (hex_val h2), (hex_val h3), (hex_val h4);
        try done.
      destruct (parse_chars r2) as [[cs' rest]|] eqn:E; [|done].
      intros [= <- <-]. apply IH in E; cbn in *; lia.
    + destruct (simple_escape e); [|done].
      destruct (parse_chars r1) as [[cs' rest]|] eqn:E; [|done].
      intros [= <- <-]. apply IH in E; cbn in *; lia.
  - destruct (c <? 32); [done|].
    destruct (parse_chars s) as [[cs' rest]|] eqn:E; [|done].
    intros [= <- <-]. apply IH in E; cbn in *; lia.
Qed.

Lemma digits_length s :
  forall acc len, (length (digits acc len s).2 <= length s)%nat.
Proof.
  induction s as [|c s IH]; intros acc len; cbn; [lia|].
  destruct (is_digit c); cbn; [|lia].
  specialize (IH (acc * 10 + (c - 48)) (S len)). lia.
Qed.

Lemma parse_number_length s n r :
  parse_number s = Some (n, r) -> (length r < length s)%nat.
Proof.
  unfold parse_number.
  set (start := match s with
                | [] => (false, s)
                | c :: s' => if c =? 45 then (true, s') else (false, s)
                end).
  assert (length start.2 <= length s)%nat as Hstart.
  { subst start. destruct s as [|c s']; [done|].
    destruct (c =? 45); cbn; lia. }
  destruct start as [neg s0]. cbn [snd] in Hstart.
  destruct (parse_int s0) as [[i s1]|] eqn:Hint; [|done].
  assert (length s1 < length s0)%nat as H1.
  { unfold parse_int in Hint. destruct s0 as [|c s0']; [done|].
    destruct (c =? 48); [injection Hint as <- <-; cbn; lia|].
    destruct (is_digit c); [|done].
    pose proof (digits_length s0' (c - 48) 1) as Hd.
    destruct (digits (c - 48) 1 s0') as [[n0 l0] r0].
    injection Hint as <- <-. cbn in *. lia. }
  destruct (parse_frac i s1) as [[[m flen] s2]|] eqn:Hfrac; [|done].
  assert (length s2 <= length s1)%nat as H2.
  { unfold parse_frac in Hfrac. destruct s1 as [|c s1'].
    - injection Hfrac as <- <- <-. done.
    - destruct (c =? 46).
      + pose proof (digits_length s1' i 0) as Hd.
        destruct (digits i 0 s1') as [[m0 l0] r0].
        destruct l0; [done|]. injection Hfrac as <- <- <-. cbn in *. lia.
      + injection Hfrac as <- <- <-. done. }
  destruct (parse_exp s2) as [[e s3]|] eqn:Hexp; [|done].
  assert (length s3 <= length s2)%nat as H3.
  { unfold parse_exp in Hexp. destruct s2 as [|c s2'].
    - injection Hexp as <- <-. done.
    - destruct ((c =? 101) || (c =? 69)).
      + set (signed := match s2' with
                       | [] => (1%Z, s2')
                       | g :: s4 =>
                           if g =? 43 then (1%Z, s4)
                           else if g =? 45 then ((-1)%Z, s4)
                           else (1%Z, s2')
                       end) in Hexp.
        assert (length signed.2 <= length s2')%nat as Hs.
        { subst signed. destruct s2' as [|g s4]; [done|].
          destruct (g =? 43); [cbn; lia|].
          destruct (g =? 45); cbn; lia. }
        destruct signed as [sign s5]. cbn [snd] in Hs.
        pose proof (digits_length s5 0 0) as Hd.
        destruct (digits 0 0 s5) as [[e0 l0] r0].
        destruct l0; [done|]. injection Hexp as <- <-. cbn in *. lia.
      + injection Hexp as <- <-. done. }
  intros [= <- <-]. lia.
Qed.

Lemma literal_length w v s v' r :
  w <> EmptyString -> literal w v s = Some (v', r) ->
  (length r < length s)%nat.
Proof.
  unfold literal. intros Hw.
  destruct (Js.startsWith s (Js.lit w)) eqn:E; [|done].
  intros [= <- <-]. destruct w as [|a w]; [done|].
  destruct s as [|c s]; [done|]. cbn [String.length drop].
  pose proof (length_drop s (String.length w)). cbn. lia.
Qed.

Lemma parse_length f :
  (forall s v r, parse_value f s = Some (v, r) -> (length r < length s)%nat)
  /\ (forall acc s v r,
        parse_elements f acc s = Some (v, r) -> (length r < length s)%nat)
  /\ (forall acc s v r,
        parse_members f acc s = Some (v, r) -> (length r < length s)%nat).
Proof.
  induction f as [|f (IHv & IHe & IHm)]; [by repeat split|].
  split; [|split].
  - intros s v r. cbn [parse_value].
    destruct (skip_ws s) as [|c r0] eqn:Hs; [done|].
    apply skip_ws_cons in Hs.
    destruct (c =? 123).
    { destruct (skip_ws r0) as [|c1 r1] eqn:Hs1; [done|].
      apply skip_ws_cons in Hs1.
      destruct (c1 =? 125); [intros [= <- <-]; lia|].
      intros H%IHm. cbn in *. lia. }
    destruct (c =? 91).
    { destruct (skip_ws r0) as [|c1 r1] eqn:Hs1; [done|].
      apply skip_ws_cons in Hs1.
      destruct (c1 =? 93); [intros [= <- <-]; lia|].
      intros H%IHe. cbn in *. lia. }
    destruct (c =? 34).
    { destruct (parse_chars r0) as [[cs rest]|] eqn:E; [|done].
      apply parse_chars_length in E. intros [= <- <-]. lia. }
    destruct (c =? 116); [intros H%literal_length; [cbn in *; lia|done]|].
    destruct (c =? 102); [intros H%literal_length; [cbn in *; lia|done]|].
    destruct (c =? 110); [intros H%literal_length; [cbn in *; lia|done]|].
    destruct (parse_number (c :: r0)) as [[n rest]|] eqn:E; [|done].
    apply parse_number_length in E. intros [= <- <-]. cbn in *. lia.
  - intros acc s v r. cbn [parse_elements].
    destruct (parse_value f s) as [[v0 r0]|] eqn:E; [|done].
    apply IHv in E.
    destruct (skip_ws r0) as [|c r1] eqn:Hs; [done|].
    apply skip_ws_cons in Hs.
    destruct (c =? 44); [intros H%IHe; lia|].
    destruct (c =? 93); [|done]. intros [= <- <-]. lia.
  - intros acc s v r. cbn [parse_members].
    destruct (skip_ws s) as [|q r0] eqn:Hs; [done|].
    apply skip_ws_cons in Hs.
    destruct (q =? 34); [|done].
    destruct (parse_chars r0) as [[key r1]|] eqn:E; [|done].
    apply parse_chars_length in E.
    destruct (skip_ws r1) as [|c r2] eqn:Hs1; [done|].
    apply skip_ws_cons in Hs1.
    destruct (c =? 58); [|done].
    destruct (parse_value f r2) as [[v0 r3]|] eqn:Ev; [|done].
    apply IHv in Ev.
    destruct (skip_ws r3) as [|c' r4] eqn:Hs2; [done|].
    apply skip_ws_cons in Hs2.
    destruct (c' =? 44); [intros H%IHm; lia|].
    destruct (c' =? 125); [|done]. intros [= <- <-]. lia.
Qed.

(** Above twice the length of the text, the fuel does not matter. *)
Lemma parse_fuel f :
  (forall s f',
      (2 * length s + 1 <= f)%nat -> (2 * length s + 1 <= f')%nat ->
      parse_value f s = parse_value f' s)
  /\ (forall acc s f',
        (2 * length s + 2 <= f)%nat -> (2 * length s + 2 <= f')%nat ->
        parse_elements f acc s = parse_elements f' acc s)
  /\ (forall acc s f',
        (2 * length s + 2 <= f)%nat -> (2 * length s + 2 <= f')%nat ->
        parse_members f acc s = parse_members f' acc s).
Proof.
  induction f as [|f (IHv & IHe & IHm)];
    [repeat split; intros; lia|].
  split; [|split].
  - intros s [|f'] Hf Hf'; [lia|]. cbn [parse_value].
    destruct (skip_ws s) as [|c r0] eqn:Hs; [done|].
    apply skip_ws_cons in Hs.
    destruct (c =? 123).
    { destruct (skip_ws r0) as [|c1 r1] eqn:Hs1; [done|].
      apply skip_ws_cons in Hs1.
      destruct (c1 =? 125); [done|].
      apply IHm; cbn; lia. }
    destruct (c =? 91); [|done].
    destruct (skip_ws r0) as [|c1 r1] eqn:Hs1; [done|].
    apply skip_ws_cons in Hs1.
    destruct (c1 =? 93); [done|].
    apply IHe; cbn; lia.
  - intros acc s [|f'] Hf Hf'; [lia|]. cbn [parse_elements].
    rewrite (IHv s f') by lia.
    destruct (parse_value f' s) as [[v0 r0]|] eqn:E; [|done].
    apply (proj1 (parse_length f')) in E.
    destruct (skip_ws r0) as [|c r1] eqn:Hs; [done|].
    apply skip_ws_cons in Hs.
    destruct (c =? 44); [|done].
    apply IHe; lia.
  - intros acc s [|f'] Hf Hf'; [lia|]. cbn [parse_members].
    destruct (skip_ws s) as [|q r0] eqn:Hs; [done|].
    apply skip_ws_cons in Hs.
    destruct (q =? 34); [|done].
    destruct (parse_chars r0) as [[key r1]|] eqn:E; [|done].
    apply parse_chars_length in E.
    destruct (skip_ws r1) as [|c r2] eqn:Hs1; [done|].
    apply skip_ws_cons in Hs1.
    destruct (c =? 58); [|done].
    rewrite (IHv r2 f') by lia.
    destruct (parse_value f' r2) as [[v0 r3]|] eqn:Ev; [|done].
    apply (proj1 (parse_length f')) in Ev.
    destruct (skip_ws r3) as [|c' r4] eqn:Hs2; [done|].
    apply skip_ws_cons in Hs2.
    destruct (c' =? 44); [|done].
    apply IHm; lia.
Qed.

(** [Json.parse] gives the result of the grammar: more fuel than it
    takes changes nothing, so [None] is a syntax error of the text. *)
Lemma parse_enough_fuel text f :
  (2 * length text + 2 <= f)%nat ->
  parse text =
  match parse_value f text with
  | Some (v, rest) =>
      match skip_ws rest with
      | [] => Some v
      | _ :: _ => None
      end
  | None => None
  end.
Proof.
  intros Hf. unfold parse.
  by rewrite (proj1 (parse_fuel (2 * length text + 2)) text f) by lia.
Qed.

End JsonFuel.

(** ** Numbers and objects as [JSON.parse] reads them *)

Section Zero.

Lemma pow2_log2 a : a <> 0 -> 2 ^ N.log2 a <= a < 2 ^ (N.log2 a + 1).
Proof.
  intros Ha. destruct (N.log2_spec a) as [H1 H2]; [lia|].
  rewrite <- N.add_1_r in H2. done.
Qed.

(** The last step: a positive mantissa before rounding, or a remainder
    above the half, gives a result that is not zero. *)
Lemma not_zero_after_rounding neg e num den :
  den <> 0 -> den < 2 * num ->
  Json.is_zero
    (let m0 := num / den in
     let r := num mod den in
     let m1 :=
       if (den <? 2 * r) || ((2 * r =? den) && N.odd m0) then m0 + 1 else m0 in
     let '(m2, e2) := if m1 =? 2 ^ 53 then (2 ^ 52, (e + 1)%Z) else (m1, e) in
     if (971 <? e2)%Z then Json.Infinite neg else Json.Finite neg m2 e2)
  = false.
Proof.
  intros Hden Hhalf. cbn zeta.
  set (m0 := num / den). set (r := num mod den).
  assert (num = den * m0 + r) as Hdiv by apply N.div_mod'.
  assert (r < den) as Hr by (by apply N.mod_lt).
  set (m1 := if (den <? 2 * r) || ((2 * r =? den) && N.odd m0)
             then m0 + 1 else m0).
  assert (m1 <> 0) as Hm1.
  { subst m1. destruct (N.eq_dec m0 0) as [E|E].
    - rewrite E in *. assert (num = r) as Hnum by lia.
      assert ((den <? 2 * r) = true) as -> by (apply N.ltb_lt; lia).
      cbn. lia.
    - destruct ((den <? 2 * r) || ((2 * r =? den) && N.odd m0)); lia. }
  destruct (m1 =? 2 ^ 53) eqn:E53.
  - destruct (971 <? e + 1)%Z; done.
  - destruct (971 <? e)%Z; [done|]. cbn. by destruct m1.
Qed.


(** Which literals are falsy: [JSON.parse] reads a literal as a zero
    exactly when its value is zero or at most 2^-1075. *)
Lemma to_double_zero n :
  Json.is_zero (Json.to_double n) = Json.rounds_to_zero n.
Proof.
  unfold Json.to_double, Json.rounds_to_zero.
  destruct n as [neg m e10]. cbn [Json.num_mant Json.num_exp10 Json.num_neg].
  destruct (N.eqb_spec m 0) as [->|Hm].
  { destruct (0 <=? e10)%Z; [done|]. cbn [Json.is_zero]. symmetry.
    apply N.leb_le. lia. }
  destruct (Z.leb_spec 0 e10) as [He|He].
  - (* an integer that is not zero *)
    set (p := m * 10 ^ Z.to_N e10).
    assert (p <> 0) as Hp.
    { subst p. apply N.neq_mul_0. split; [done|].
      apply N.pow_nonzero. lia. }
    change (N.log2 1) with 0. rewrite Z.sub_0_r.
    assert (Json.below p 1 (Z.of_N (N.log2 p)) = false) as ->.
    { unfold Json.below.
      assert ((0 <=? Z.of_N (N.log2 p))%Z = true) as -> by (apply Z.leb_le; lia).
      rewrite N2Z.id. apply N.ltb_ge. destruct (pow2_log2 p Hp). lia. }
    set (e := Z.max (Z.of_N (N.log2 p) - 52) (-1074)).
    apply not_zero_after_rounding.
    + destruct (e <? 0)%Z; [lia|]. apply N.neq_mul_0. split; [lia|].
      apply N.pow_nonzero. lia.
    + destruct (Z.ltb_spec e 0) as [E|E].
      * assert (1 <= 2 ^ Z.to_N (- e)) by (apply N.lt_pred_le, N.neq_0_lt_0, N.pow_nonzero; lia).
        nia.
      * assert (e = Z.of_N (N.log2 p) - 52)%Z as Ee by lia.
        destruct (pow2_log2 p Hp) as [Hlow _].
        assert (N.log2 p = Z.to_N e + 52) as El by lia.
        rewrite El, N.pow_add_r in Hlow.
        assert (1 <= 2 ^ Z.to_N e) by (apply N.lt_pred_le, N.neq_0_lt_0, N.pow_nonzero; lia).
        change (2 ^ 52) with 4503599627370496 in Hlow. nia.
  - (* a fraction *)
    set (q := 10 ^ Z.to_N (- e10)).
    assert (q <> 0) as Hq by (apply N.pow_nonzero; lia).
    set (l0 := (Z.of_N (N.log2 m) - Z.of_N (N.log2 q))%Z).
    set (l := if Json.below m q l0 then (l0 - 1)%Z else l0).
    set (e := Z.max (l - 52) (-1074)).
    assert (forall a, 1 <= 2 ^ a) as Hpow
      by (intros a; apply N.lt_pred_le, N.neq_0_lt_0, N.pow_nonzero; lia).
    destruct (pow2_log2 m Hm) as [Hm1 Hm2].
    destruct (pow2_log2 q Hq) as [Hq1 Hq2].
    destruct (N.leb_spec (m * 2 ^ 1075) q) as [Hsmall|Hbig].
    + (* at most half the least double *)
      assert (l0 <= -1075)%Z as Hl0.
      { assert (N.log2 (m * 2 ^ 1075) <= N.log2 q) as H
          by (by apply N.log2_le_mono).
        rewrite N.log2_mul_pow2 in H by lia. lia. }
      assert (e = -1074)%Z as ->.
      { subst e l. destruct (Json.below m q l0); lia. }
      change ((-1074 <? 0)%Z) with true.
      change (Z.to_N (- -1074)) with 1074. cbn iota zeta.
      assert (m * 2 ^ 1075 = 2 * (m * 2 ^ 1074)) as E2.
      { change 1075 with (1074 + 1). rewrite N.pow_add_r. lia. }
      assert (m * 2 ^ 1074 < q) as Hlt.
      { pose proof (Hpow 1074). nia. }
      rewrite (N.div_small _ _ Hlt), (N.mod_small _ _ Hlt).
      assert ((q <? 2 * (m * 2 ^ 1074)) = false) as ->
        by (apply N.ltb_ge; lia).
      cbn [N.odd andb orb]. rewrite andb_false_r. reflexivity.
    + (* more than that *)
      assert ((0 <= l)%Z -> q * 2 ^ Z.to_N l <= m) as Hl_pos.
      { intros Hl. subst l. unfold Json.below in *.
        destruct (Z.leb_spec 0 l0) as [E0|E0].
        - destruct (N.ltb_spec m (q * 2 ^ Z.to_N l0)) as [Eb|Eb]; [|done].
          assert (N.log2 m = N.log2 q + 1 + Z.to_N (l0 - 1)) as Ea by lia.
          rewrite Ea, !N.pow_add_r in Hm1. rewrite N.pow_add_r in Hq2.
          pose proof (Hpow (Z.to_N (l0 - 1))) as Hp1. nia.
        - destruct (m * 2 ^ Z.to_N (- l0) <? q); lia. }
      assert ((l < 0)%Z -> q <= m * 2 ^ Z.to_N (- l)) as Hl_neg.
      { intros Hl. subst l. unfold Json.below in *.
        destruct (Z.leb_spec 0 l0) as [E0|E0].
        - destruct (N.ltb_spec m (q * 2 ^ Z.to_N l0)) as [Eb|Eb]; [|lia].
          assert (l0 = 0)%Z as E by lia.
          assert (N.log2 q + 1 = N.log2 m + Z.to_N (- (l0 - 1))) as Ea by lia.
          rewrite Ea, N.pow_add_r in Hq2.
          pose proof (Hpow (Z.to_N (- (l0 - 1)))) as Hp1. nia.
        - destruct (N.ltb_spec (m * 2 ^ Z.to_N (- l0)) q) as [Eb|Eb]; [|done].
          assert (N.log2 q + 1 = N.log2 m + Z.to_N (- (l0 - 1))) as Ea by lia.
          rewrite Ea, N.pow_add_r in Hq2.
          pose proof (Hpow (Z.to_N (- (l0 - 1)))) as Hp1. nia. }
      clearbody l. clear l0 Hm1 Hm2 Hq1 Hq2.
      apply not_zero_after_rounding.
      * destruct (e <? 0)%Z; [done|]. apply N.neq_mul_0. split; [done|].
        apply N.pow_nonzero. lia.
      * destruct (Z.ltb_spec e 0) as [E|E].
        -- destruct (Z.eq_dec e (-1074)%Z) as [->|Ee].
           { change (Z.to_N (- -1074)) with 1074.
             change 1075 with (1074 + 1) in Hbig.
             rewrite N.pow_add_r in Hbig. lia. }
           assert (e = l - 52)%Z as El by lia.
           destruct (Z.ltb_spec l 0) as [El0|El0].
           ++ specialize (Hl_neg El0).
              assert (Z.to_N (- e) = Z.to_N (- l) + 52) as -> by lia.
              rewrite N.pow_add_r. pose proof (Hpow 52) as Hp1.
              pose proof (Hpow (Z.to_N (- l))) as Hp2. nia.
           ++ specialize (Hl_pos El0).
              pose proof (Hpow (Z.to_N l)) as Hp1.
              pose proof (Hpow (Z.to_N (- e))) as Hp2. nia.
        -- assert (e = l - 52)%Z as El by lia.
           assert (0 <= l)%Z as El0 by lia. specialize (Hl_pos El0).
           assert (Z.to_N l = Z.to_N e + 52) as Ea by lia.
           rewrite Ea, N.pow_add_r in Hl_pos.
           pose proof (Hpow 52) as Hp1. pose proof (Hpow (Z.to_N e)) as Hp2. nia.
Qed.

End Zero.

(** Literals at the edges of the doubles: the least positive double and
    the two literals around its half; the greatest double and the two
    literals around the point from which the literals are read as
    infinity; an integer between two doubles; and one tenth. *)
Example to_double_at_the_edges :
  let read text :=
    match Json.parse (Js.lit text) with
    | Some (Json.JNumber d) => Some d
    | _ => None
    end in
  read "5e-324" = Some (Json.Finite false 1 (-1074))
  /\ read "2.4703282292062327e-324" = Some (Json.Finite false 0 (-1074))
  /\ read "2.4703282292062328e-324" = Some (Json.Finite false 1 (-1074))
  /\ read "1.7976931348623157e308"
     = Some (Json.Finite false (2 ^ 53 - 1) 971)
  /\ read "1.7976931348623158e308"
     = Some (Json.Finite false (2 ^ 53 - 1) 971)
  /\ read "1.7976931348623159e308" = Some (Json.Infinite false)
  /\ read "9007199254740993" = Some (Json.Finite false (2 ^ 52) 1)
  /\ read "0.1" = Some (Json.Finite false 7205759403792794 (-56))
  /\ read "-0" = Some (Json.Finite true 0 (-1074)).
Proof. cbn zeta. repeat (split; [vm_compute; reflexivity|]). vm_compute. reflexivity. Qed.

(** The own keys of a parsed object: the array indices first, in
    ascending order, then the other keys in the order in which they
    come in the text; a key that comes twice keeps its first place and
    its last value. *)
Example keys_of_a_parsed_object :
  Json.parse (Js.lit (quoted "{'b':null,'2':null,'a':true,'10':null,'b':false,'01':null}"))
  = Some (Json.JObject
            [(Js.lit "2", Json.JNull); (Js.lit "10", Json.JNull);
             (Js.lit "b", Json.JBool false); (Js.lit "a", Json.JBool true);
             (Js.lit "01", Json.JNull)]).
Proof. vm_compute. reflexivity. Qed.

(** * Further properties of the stream normaliser *)

Section AfterTheTerminator.

Import LLMProviders.

Lemma for_events_terminator p event rest :
  is_terminator p event = true ->
  for_events p (event :: rest) = ([ResWrite DoneRecord; ResEnd], true).
Proof.
  unfold is_terminator. cbn [for_events].
  by destruct (decode_event p event).
Qed.

Lemma for_events_cut p before event after :
  is_terminator p event = true ->
  for_events p (before ++ event :: after) = for_events p (before ++ [event]).
Proof.
  intros Hterm. rewrite !for_events_app.
  by rewrite !(for_events_terminator p event _ Hterm).
Qed.

End AfterTheTerminator.

Section TheDoneRecord.

Import LLMProviders.

Lemma startsWith_split s prefix :
  Js.startsWith s prefix = true -> s = prefix ++ drop (length prefix) s.
Proof.
  revert s. induction prefix as [|p prefix IH]; intros s; [done|].
  destruct s as [|c s]; [done|]. cbn [Js.startsWith].
  intros [Hc Hs]%andb_prop. apply N.eqb_eq in Hc. subst c.
  cbn [app length drop]. by rewrite <- (IH s Hs).
Qed.

(** The only event on which the loop returns is [data: [DONE]], and the
    Gemini branch does not return on it either. *)
Lemma terminator_is_the_done_record p event :
  is_terminator p event = true
  <-> p <> gemini /\ event = Js.lit "data: [DONE]".
Proof.
  unfold is_terminator. split.
  - destruct p; cbn [decode_event];
      destruct (Js.startsWith event (Js.lit "data: ")) eqn:Hdata; try done;
      unfold Js.str_eqb; case_bool_decide as Hdone; try done;
      intros _; (split; [done|]);
      apply startsWith_split in Hdata; unfold Js.slice in Hdone;
      change (length (Js.lit "data: ")) with 6%nat in Hdata;
      by rewrite Hdata, Hdone.
  - intros [Hp ->]. by destruct p.
Qed.

End TheDoneRecord.

(** X1. The terminator is final.  The terminator is the record
    [data: [DONE]], which the branch of LM Studio and OpenAI and the
    branch of Anthropic test for.  Once it is among the complete events,
    what follows it in the stream is never decoded, whether it comes in
    the same chunk or in a later one, and a failure of the transport
    after it is never reported: the run writes what the events up to the
    terminator give, releases the reader and resolves, and the
    terminator record is the last record written. *)
Theorem nothing_after_the_terminator
    (provider : SupportedProviders) (pending : list (list byte)) (e : Ending)
    (before after : list (list N)) :
  provider <> gemini ->
  complete_events (decoded (concat pending))
  = before ++ Js.lit "data: [DONE]" :: after ->
  let run := LLMProviders.streamResponse (streaming pending e) provider in
  without_reads (fst run)
  = fst (LLMProviders.for_events provider (before ++ [Js.lit "data: [DONE]"]))
    ++ [ReaderReleaseLock]
  /\ last (written (fst run)) = Some DoneRecord
  /\ snd run = Ok tt.
Proof.
  intros Hp Hev. cbn zeta.
  assert (is_terminator provider (Js.lit "data: [DONE]") = true) as Hterm
    by (by apply terminator_is_the_done_record).
  set (event := Js.lit "data: [DONE]") in *.
  destruct (streamResponse_closed_form provider pending e) as [H1 H2].
  cbn zeta in H1, H2.
  rewrite Hev, (for_events_cut provider before event after Hterm) in H1, H2.
  assert (snd (LLMProviders.for_events provider (before ++ [event])) = true
          /\ last (written (fst (LLMProviders.for_events provider
                                   (before ++ [event]))))
             = Some DoneRecord) as [Hret Hlast].
  { rewrite for_events_app, (for_events_terminator provider event [] Hterm).
    destruct (for_events_shape provider before) as (tokens & Hfx & _).
    destruct (LLMProviders.for_events provider before) as [fx [|]];
      cbn [fst snd] in *.
    - split; [done|]. subst fx. rewrite written_app, token_writes_written.
      change (written [ResWrite DoneRecord; ResEnd]) with [DoneRecord].
      by rewrite last_snoc.
    - split; [done|]. rewrite written_app.
      change (written [ResWrite DoneRecord; ResEnd]) with [DoneRecord].
      by rewrite last_snoc. }
  rewrite Hret in H1, H2. split; [exact H1|]. split; [|exact H2].
  rewrite <- written_without_reads, H1, written_app.
  change (written [ReaderReleaseLock]) with (@nil SseRecord).
  by rewrite app_nil_r.
Qed.

(** Scenario A followed by one more record and a broken connection. *)
Lemma nothing_after_the_terminator_witness :
  let pending := scenario_A ++ [data_record "{'choices':[{'delta':{'content':'late'}}]}"] in
  openai <> gemini
  /\ last (written
             (fst (LLMProviders.streamResponse
                     (streaming pending (Aborted "reset")) openai)))
     = Some DoneRecord.
Proof.
  split; [discriminate|].
  refine (proj1 (proj2 (nothing_after_the_terminator openai _ _
                          [Js.lit (quoted "data: {'choices':[{'delta':{'content':'Hi'}}]}");
                           Js.lit (quoted "data: {'choices':[{'delta':{'content':' there'}}]}")]
                          [Js.lit (quoted "data: {'choices':[{'delta':{'content':'late'}}]}")]
                          ltac:(discriminate) _))).
  vm_compute. reflexivity.
Defined.

(** The [message_stop] record of Anthropic is no terminator: the delta
    that comes after it is written.  And with Gemini [data: [DONE]] is a
    record that does not parse, after which the loop goes on. *)
Example message_stop_is_no_terminator :
  written
    (fst (LLMProviders.streamResponse
            (streaming
               [data_record "{'type':'content_block_delta','delta':{'text':'a'}}";
                data_record "{'type':'message_stop'}";
                data_record "{'type':'content_block_delta','delta':{'text':'b'}}"]
               Closed) anthropic))
  = [fragment "a"; fragment "b"]
  /\ written
       (fst (LLMProviders.streamResponse
               (streaming
                  [data_record "[DONE]";
                   data_record "{'candidates':[{'content':{'parts':[{'text':'c'}]}}]}"]
                  Closed) gemini))
     = [fragment "c"].
Proof. split; vm_compute; reflexivity. Qed.

Section SkippedEvents.

Import LLMProviders.

Lemma not_data_decodes_to_nothing p event :
  Js.startsWith event (Js.lit "data: ") = false ->
  decode_event p event = Token (Json.JString []).
Proof. intros H. destruct p; cbn [decode_event]; by rewrite H. Qed.

Lemma for_events_nothing p event rest :
  decode_event p event = Token (Json.JString []) ->
  for_events p (event :: rest) = for_events p rest.
Proof.
  intros H. cbn [for_events]. rewrite H. cbn.
  by destruct (for_events p rest).
Qed.

Lemma for_events_all_nothing p events :
  Forall (fun event => decode_event p event = Token (Json.JString [])) events ->
  for_events p events = ([], false).
Proof.
  induction 1 as [|event events H _ IH]; [done|].
  by rewrite for_events_nothing.
Qed.

End SkippedEvents.

(** X2. Only an event that begins with [data: ] is looked at.  An event
    with anything else in front (a comment line, an [event: ] line before
    the data line, a payload without the space after the colon) is passed
    over whole: the run is the same as without it.  A stream none of
    whose events begins with [data: ] so writes no record at all and, when
    it closes in order, ends as an empty answer. *)
Theorem events_without_data_prefix_are_skipped
    (provider : SupportedProviders) (pending : list (list byte)) :
  Forall (fun event => Js.startsWith event (Js.lit "data: ") = false)
    (complete_events (decoded (concat pending))) ->
  (forall e,
     written
       (fst (LLMProviders.streamResponse (streaming pending e) provider))
     = [])
  /\ without_reads
       (fst (LLMProviders.streamResponse (streaming pending Closed) provider))
     = [ReaderReleaseLock; ResEnd]
  /\ snd (LLMProviders.streamResponse (streaming pending Closed) provider)
     = Ok tt.
Proof.
  intros Hall.
  assert (LLMProviders.for_events provider
            (complete_events (decoded (concat pending))) = ([], false))
    as Hnone.
  { apply for_events_all_nothing.
    eapply Forall_impl; [exact Hall|].
    intros event. apply not_data_decodes_to_nothing. }
  split; [|split].
  - intros e.
    destruct (streamResponse_closed_form provider pending e) as [H1 _].
    cbn zeta in H1. rewrite Hnone in H1. cbn [fst snd app] in H1.
    rewrite <- written_without_reads, H1. by destruct e.
  - destruct (streamResponse_closed_form provider pending Closed) as [H1 _].
    cbn zeta in H1. by rewrite Hnone in H1.
  - destruct (streamResponse_closed_form provider pending Closed) as [_ H2].
    cbn zeta in H2. by rewrite Hnone in H2.
Qed.

(** A content delta framed with its [event: ] line in front. *)
Lemma events_without_data_prefix_are_skipped_witness :
  Forall (fun event => Js.startsWith event (Js.lit "data: ") = false)
    (complete_events (decoded (concat [anthropic_wire_event])))
  /\ written
       (fst (LLMProviders.streamResponse
               (streaming [anthropic_wire_event] Closed) anthropic))
     = [].
Proof.
  assert (Forall (fun event => Js.startsWith event (Js.lit "data: ") = false)
            (complete_events (decoded (concat [anthropic_wire_event]))))
    as H by (vm_compute; repeat constructor).
  split; [exact H|].
  exact (proj1 (events_without_data_prefix_are_skipped anthropic
                  [anthropic_wire_event] H) Closed).
Defined.

Section PayloadShapes.

Import LLMProviders.

Lemma non_object_decodes_to_nothing p payload v :
  Json.parse payload = Some v ->
  (forall members, v <> Json.JObject members) ->
  decode_event p (data_event payload) = Token (Json.JString []).
Proof.
  intros Hparse Hobj.
  destruct (data_event_payload payload) as [Hstart Hslice].
  pose proof (parsed_is_not_the_sentinel payload v Hparse) as Hdone.
  destruct p; cbn [decode_event]; rewrite Hstart, Hslice, ?Hdone;
    unfold openai_try, anthropic_try, gemini_try; rewrite Hparse;
    destruct v; try done; by destruct (Hobj members).
Qed.

End PayloadShapes.

(** X3. Only a JSON object can give a token.  A [data: ] record whose
    payload is well-formed JSON of another kind ([null], a number, a
    string, [true], an array) writes nothing and stops nothing, with any
    provider: for [null] the property access throws and the error is
    caught with the parse errors, for the others the path is absent. *)
Theorem only_objects_yield_tokens
    (provider : SupportedProviders) (payload : list N) (v : Json.value)
    (before after : list (list N)) :
  Json.parse payload = Some v ->
  (forall members, v <> Json.JObject members) ->
  LLMProviders.for_events provider [data_event payload] = ([], false)
  /\ LLMProviders.for_events provider (before ++ data_event payload :: after)
     = LLMProviders.for_events provider (before ++ after).
Proof.
  intros Hparse Hobj.
  pose proof (non_object_decodes_to_nothing provider payload v Hparse Hobj)
    as Hdec.
  split.
  - by rewrite for_events_nothing.
  - by rewrite !for_events_app, for_events_nothing.
Qed.

(** The payload [null], for the three families. *)
Lemma only_objects_yield_tokens_witness :
  Json.parse (Js.lit "null") = Some Json.JNull
  /\ (forall members, Json.JNull <> Json.JObject members)
  /\ LLMProviders.for_events openai [data_event (Js.lit "null")] = ([], false)
  /\ LLMProviders.for_events anthropic [data_event (Js.lit "null")]
     = ([], false)
  /\ LLMProviders.for_events gemini [data_event (Js.lit "null")] = ([], false).
Proof.
  split; [reflexivity|]. split; [discriminate|].
  split; [|split].
  - exact (proj1 (only_objects_yield_tokens openai (Js.lit "null") Json.JNull
                    [] [] eq_refl ltac:(discriminate))).
  - exact (proj1 (only_objects_yield_tokens anthropic (Js.lit "null")
                    Json.JNull [] [] eq_refl ltac:(discriminate))).
  - exact (proj1 (only_objects_yield_tokens gemini (Js.lit "null") Json.JNull
                    [] [] eq_refl ltac:(discriminate))).
Defined.

Section TokensWritten.

Import LLMProviders.

Lemma for_events_tokens p events :
  Forall (fun r => match r with
                   | TokenRecord t => Json.truthy t = true
                   | ErrorRecord _ => False
                   | DoneRecord => True
                   end)
    (written (fst (for_events p events)))
  /\ (length (written (fst (for_events p events))) <= length events)%nat.
Proof.
  induction events as [|event events [IH1 IH2]]; [by split; [constructor|]|].
  cbn [for_events].
  destruct (decode_event p event) as [|tok].
  - split; [by repeat constructor|]. cbn. lia.
  - destruct (for_events p events) as [fx r]. cbn [fst snd] in *.
    rewrite written_app. destruct (Json.truthy tok) eqn:Htok.
    + cbn. split; [by constructor|lia].
    + cbn. split; [done|lia].
Qed.

End TokensWritten.

(** X4. What [streamResponse] writes.  The value it hands to
    [JSON.stringify] in a token record is truthy: for an empty string,
    [null], [false] or a number that is zero as a double, found at the
    place of the content, no record is written, so a token that is a
    string is never empty.  (The text written need not show a truthy
    value: a number too large for a double is [Infinity], and
    [JSON.stringify] writes [null] for it; see the example below.)  It
    writes no error record itself.  And a complete event gives at most
    one record, so the records written are never more than the complete
    events received. *)
Theorem written_records_are_sound
    (provider : SupportedProviders) (pending : list (list byte)) (e : Ending) :
  let run := LLMProviders.streamResponse (streaming pending e) provider in
  (forall t, TokenRecord t ∈ written (fst run) -> Json.truthy t = true)
  /\ (forall s, TokenRecord (Json.JString s) ∈ written (fst run) -> s <> [])
  /\ (forall message, ErrorRecord message ∉ written (fst run))
  /\ (length (written (fst run))
      <= length (complete_events (decoded (concat pending))))%nat.
Proof.
  cbn zeta.
  destruct (streamResponse_closed_form provider pending e) as [H1 _].
  cbn zeta in H1.
  assert (written (fst (LLMProviders.streamResponse (streaming pending e)
                          provider))
          = written (fst (LLMProviders.for_events provider
                            (complete_events (decoded (concat pending))))))
    as ->.
  { rewrite <- written_without_reads, H1, written_app.
    destruct (snd (LLMProviders.for_events provider _)); [|destruct e];
      cbn; by rewrite app_nil_r. }
  destruct (for_events_tokens provider
              (complete_events (decoded (concat pending)))) as [Hall Hlen].
  rewrite Forall_forall in Hall.
  split; [|split; [|split]].
  - intros t Ht. exact (Hall _ Ht).
  - intros s Hs ->. by pose proof (Hall _ Hs).
  - intros message Hm. exact (Hall _ Hm).
  - exact Hlen.
Qed.

(** Numbers at the place of the content.  The literal [1e400] is read
    as [Infinity], which is truthy: a record is written for it (its
    text is [null], which the client takes for no token).  The literal
    [9007199254740993] is read as 2^53, as [9007199254740992] is: the
    two give the same record.  And [1e-400] is read as zero: no record. *)
Example numbers_as_tokens :
  let delta content :=
    [bytes "data: " ++ bytes (quoted "{'choices':[{'delta':{'content':")
     ++ bytes content ++ bytes "}}]}" ++ blank_line] in
  let tokens content :=
    written (fst (LLMProviders.streamResponse
                    (streaming (delta content) Closed) openai)) in
  tokens "1e400" = [TokenRecord (Json.JNumber (Json.Infinite false))]
  /\ tokens "9007199254740993"
     = [TokenRecord (Json.JNumber (Json.Finite false (2 ^ 52) 1))]
  /\ tokens "9007199254740992" = tokens "9007199254740993"
  /\ tokens "1e-400" = [].
Proof. cbn zeta. split; [|split; [|split]]; vm_compute; reflexivity. Qed.

(** ** Framing *)

Section Framing.

Lemma split_blank_framed event rest :
  framed event ->
  Js.split_blank (event ++ Js.LF :: Js.LF :: rest)
  = event :: Js.split_blank rest.
Proof.
  unfold framed.
  induction event as [| c | c d r _ IH] using pair_induction;
    intros [Hwhole Hlast].
  - reflexivity.
  - change ([c] ++ Js.LF :: Js.LF :: rest) with (c :: Js.LF :: Js.LF :: rest).
    rewrite split_blank_cons2.
    destruct (c =? Js.LF) eqn:Hc.
    + apply N.eqb_eq in Hc. subst c. by destruct Hlast.
    + cbn [andb]. reflexivity.
  - change ((c :: d :: r) ++ Js.LF :: Js.LF :: rest)
      with (c :: d :: (r ++ Js.LF :: Js.LF :: rest)).
    rewrite split_blank_cons2 in Hwhole |- *.
    destruct ((c =? Js.LF) && (d =? Js.LF)).
    + discriminate Hwhole.
    + change (d :: r ++ Js.LF :: Js.LF :: rest)
        with ((d :: r) ++ Js.LF :: Js.LF :: rest).
      destruct (Js.split_blank (d :: r)) as [|h [|h2 t]] eqn:E.
      * by apply split_blank_not_nil in E.
      * cbn [Js.cons_head] in Hwhole. injection Hwhole as ->.
        rewrite IH; [reflexivity|]. split; [reflexivity|].
        by rewrite last_cons_cons in Hlast.
      * discriminate Hwhole.
Qed.

Lemma split_blank_frame events tail :
  Forall framed events ->
  Js.split_blank (frame events ++ tail) = events ++ Js.split_blank tail.
Proof.
  induction 1 as [|event events Hev _ IH]; [reflexivity|].
  unfold frame. cbn [map concat]. fold (frame events).
  rewrite <- !app_assoc. cbn [app].
  by rewrite (split_blank_framed event _ Hev), IH.
Qed.

Lemma decode_ascii value :
  forall d,
    TextDecoder.bytes_needed d = 0 ->
    Forall (fun b => Byte.to_N b <= 127) value ->
    snd (TextDecoder.decode d value) = map Byte.to_N value
    /\ TextDecoder.bytes_needed (fst (TextDecoder.decode d value)) = 0.
Proof.
  induction value as [|b value IH]; intros d Hd Hall; [done|].
  apply Forall_cons in Hall as [Hb Hall].
  cbn [TextDecoder.decode map].
  assert (exists d1, TextDecoder.decode_byte d b = (d1, [Byte.to_N b])
                     /\ TextDecoder.bytes_needed d1 = 0) as (d1 & -> & Hd1).
  { unfold TextDecoder.decode_byte, TextDecoder.step. rewrite Hd.
    cbn [N.eqb]. unfold TextDecoder.lead.
    apply N.leb_le in Hb as Hb'. rewrite Hb'.
    cbn [TextDecoder.outputs]. unfold TextDecoder.output.
    assert (TextDecoder.utf16 (Byte.to_N b) = [Byte.to_N b]) as Hutf.
    { unfold TextDecoder.utf16.
      assert ((Byte.to_N b <? 65536) = true) as -> by (apply N.ltb_lt; lia).
      reflexivity. }
    assert ((Byte.to_N b =? 65279) = false) as Hbom
      by (apply N.eqb_neq; lia).
    destruct (TextDecoder.bom_seen d); rewrite ?Hbom, Hutf; eexists;
      (split; [reflexivity|]); assumption. }
  destruct (IH d1 Hd1 Hall) as [Htext Hneeded].
  destruct (TextDecoder.decode d1 value) as [d2 u2]. cbn [fst snd] in *.
  by rewrite Htext.
Qed.

End Framing.

(** X5. Framing is undone exactly.  Events that hold no blank line and
    do not end in a line feed, each followed by a blank line, with an
    unfinished piece after the last one, are split back into exactly
    those events, and the unfinished piece is what stays in the buffer.
    An ASCII byte stream with that text, however it is cut into chunks,
    so has each of its events handled once, in order, and the piece after
    the last blank line is never handled, not even when the stream
    closes. *)
Theorem framing_round_trip (events : list (list N)) (tail : list N) :
  Forall framed events ->
  Js.split_blank tail = [tail] ->
  complete_events (frame events ++ tail) = events
  /\ partial_tail (frame events ++ tail) = tail
  /\ forall (provider : SupportedProviders) (pending : list (list byte))
            (e : Ending),
       Forall (fun b => Byte.to_N b <= 127) (concat pending) ->
       map Byte.to_N (concat pending) = frame events ++ tail ->
       written
         (fst (LLMProviders.streamResponse (streaming pending e) provider))
       = written (fst (LLMProviders.for_events provider events)).
Proof.
  intros Hev Htail.
  assert (complete_events (frame events ++ tail) = events
          /\ partial_tail (frame events ++ tail) = tail) as [Hc Hp].
  { unfold complete_events, partial_tail.
    rewrite (split_blank_frame events tail Hev), Htail.
    by rewrite removelast_last, last_snoc. }
  split; [exact Hc|]. split; [exact Hp|].
  intros provider pending e Hascii Htext.
  destruct (streamResponse_closed_form provider pending e) as [H1 _].
  cbn zeta in H1.
  assert (decoded (concat pending) = frame events ++ tail) as Hdec.
  { unfold decoded.
    rewrite (proj1 (decode_ascii (concat pending) TextDecoder.create
                      eq_refl Hascii)).
    exact Htext. }
  rewrite Hdec, Hc in H1.
  rewrite <- written_without_reads, H1, written_app.
  destruct (snd (LLMProviders.for_events provider events)); [|destruct e];
    cbn; by rewrite app_nil_r.
Qed.

(** Two deltas and the beginning of a third. *)
Lemma framing_round_trip_witness :
  let events :=
    [Js.lit (quoted "data: {'choices':[{'delta':{'content':'Hi'}}]}");
     Js.lit (quoted "data: {'choices':[{'delta':{'content':' there'}}]}")] in
  let tail := Js.lit (quoted "data: {'choi") in
  Forall framed events
  /\ Js.split_blank tail = [tail]
  /\ complete_events (frame events ++ tail) = events
  /\ partial_tail (frame events ++ tail) = tail.
Proof.
  cbn zeta.
  assert (Forall framed
            [Js.lit (quoted "data: {'choices':[{'delta':{'content':'Hi'}}]}");
             Js.lit (quoted "data: {'choices':[{'delta':{'content':' there'}}]}")])
    as Hev.
  { repeat constructor; try (vm_compute; reflexivity);
      vm_compute; discriminate. }
  split; [exact Hev|]. split; [reflexivity|].
  destruct (framing_round_trip _ (Js.lit (quoted "data: {'choi")) Hev eq_refl)
    as (Hc & Hp & _).
  split; [exact Hc | exact Hp].
Defined.

(** * Further properties of the configuration *)

Section Sanitising.

Import ConfigManager.

Lemma with_apiKey_twice k record :
  LLMProvider.with_apiKey k (LLMProvider.with_apiKey k record)
  = LLMProvider.with_apiKey k record.
Proof. reflexivity. Qed.

Lemma with_apiKey_same record :
  LLMProvider.with_apiKey (LLMProvider.apiKey record) record = record.
Proof. by destruct record. Qed.

Lemma masking_of_refl h : masking_of h h.
Proof.
  split; [done|]. intros r. destruct (records h !! r); [by left|done].
Qed.

Lemma masking_of_trans h1 h2 h3 :
  masking_of h1 h2 -> masking_of h2 h3 -> masking_of h1 h3.
Proof.
  intros [Ht12 Hr12] [Ht23 Hr23]. split; [congruence|].
  intros r. specialize (Hr12 r). specialize (Hr23 r).
  destruct (records h1 !! r) as [a|], (records h2 !! r) as [b|],
    (records h3 !! r) as [c|]; try done.
  destruct Hr12 as [->|[Ha ->]]; [exact Hr23|].
  destruct Hr23 as [->|[_ ->]]; right; by split.
Qed.

Lemma mask_key_masking table h key : masking_of h (mask_key table h key).
Proof.
  unfold mask_key.
  destruct (table_get table key) as [r|]; [|apply masking_of_refl].
  destruct (records h !! r) as [record|] eqn:Hr; [|apply masking_of_refl].
  destruct (falsy (LLMProvider.apiKey record)) eqn:Hf; cbn [negb];
    [apply masking_of_refl|].
  split; [done|]. intros r'. cbn [records].
  destruct (decide (r = r')) as [<-|Hne].
  - rewrite lookup_insert_eq, Hr. right. by split.
  - rewrite lookup_insert_ne by done.
    destruct (records h !! r'); [by left|done].
Qed.

Lemma fold_mask_masking table keys :
  forall h, masking_of h (fold_left (mask_key table) keys h).
Proof.
  induction keys as [|k keys IH]; intros h; [apply masking_of_refl|].
  cbn [fold_left]. eapply masking_of_trans; [apply mask_key_masking|apply IH].
Qed.

Lemma getSafeConfig_masking this h : masking_of h (getSafeConfig this h).2.
Proof.
  unfold getSafeConfig.
  destruct (tables h !! _); [apply fold_mask_masking|apply masking_of_refl].
Qed.

Lemma getSafeConfig_no_key this h table key r record :
  tables h !! providers (config this) = Some table ->
  table_get table key = Some r ->
  records (snd (getSafeConfig this h)) !! r = Some record ->
  falsy (LLMProvider.apiKey record) = true
  \/ LLMProvider.apiKey record = Some "***".
Proof.
  intros Htable Hkey Hrec.
  pose proof (getSafeConfig_masking this h) as [_ Hrel].
  specialize (Hrel r). rewrite Hrec in Hrel.
  destruct (records h !! r) as [before|] eqn:Hbefore; [|done].
  destruct (falsy (LLMProvider.apiKey before)) eqn:Hf.
  + left. destruct Hrel as [->|[Hf' _]]; [exact Hf|congruence].
  + right. unfold getSafeConfig in Hrec.
    rewrite Htable in Hrec. cbn [snd] in Hrec.
    destruct (fold_mask_masks table (map fst table) h key r before
                (table_get_key _ _ _ Hkey) Hkey Hbefore Hf)
      as (record' & Hrec' & Hmasked).
    rewrite Hrec in Hrec'. by injection Hrec' as <-.
Qed.

End Sanitising.



Section SanitisingAgain.

Import ConfigManager.

Lemma fold_left_fixed {A B} (f : A -> B -> A) (l : list B) (a : A) :
  (forall b, b ∈ l -> f a b = a) -> fold_left f l a = a.
Proof.
  induction l as [|b l IH]; intros H; [done|].
  cbn [fold_left]. rewrite (H b) by apply list_elem_of_here.
  apply IH. intros b' Hb'. apply H. by apply list_elem_of_further.
Qed.

Lemma mask_key_fixed table h key :
  (forall r record,
     table_get table key = Some r -> records h !! r = Some record ->
     falsy (LLMProvider.apiKey record) = true
     \/ LLMProvider.apiKey record = Some "***") ->
  mask_key table h key = h.
Proof.
  intros Hsafe. unfold mask_key.
  destruct (table_get table key) as [r|]; [|done].
  destruct (records h !! r) as [record|] eqn:Hr; [|done].
  destruct (Hsafe r record eq_refl Hr) as [Hf|Hm].
  - by rewrite Hf.
  - rewrite Hm. cbn [falsy negb]. rewrite <- Hm, with_apiKey_same.
    rewrite insert_id by done. by destruct h.
Qed.

Lemma mapM_pointwise {A B} (f g : A -> option B) (l : list A) :
  (forall x, x ∈ l -> f x = g x) -> mapM f l = mapM g l.
Proof.
  induction l as [|x l IH]; intros H; [done|].
  cbn. rewrite (H x) by apply list_elem_of_here.
  rewrite IH; [done|]. intros y Hy. apply H. by apply list_elem_of_further.
Qed.

Lemma provider_status_masked name before after :
  kept_or_masked before after ->
  provider_status name after = provider_status name before.
Proof.
  intros [->|[Hf ->]]; [done|].
  unfold provider_status. cbn. by rewrite Hf.
Qed.

Lemma getProviderStatus_masking this h h' :
  masking_of h h' -> getProviderStatus this h' = getProviderStatus this h.
Proof.
  intros [Ht Hr]. unfold getProviderStatus. rewrite Ht.
  destruct (tables h !! _) as [table|]; [|done].
  rewrite (mapM_pointwise _
             (fun entry : string * ref =>
                match records h !! entry.2 with
                | Some config => Some (entry.1, provider_status entry.1 config)
                | None => None
                end) table); [done|].
  intros [name r] _. cbn [fst snd]. specialize (Hr r).
  destruct (records h !! r) as [a|], (records h' !! r) as [b|]; try done.
  by rewrite (provider_status_masked name a b Hr).
Qed.

End SanitisingAgain.

(** X7. [getSafeConfig] a second time changes nothing more: the store
    after two calls is the store after one. *)
Theorem getSafeConfig_idempotent
    (this : ConfigManager.t) (h : ConfigManager.Heap) :
  snd (ConfigManager.getSafeConfig this
         (snd (ConfigManager.getSafeConfig this h)))
  = snd (ConfigManager.getSafeConfig this h).
Proof.
  destruct (getSafeConfig_masking this h) as [Ht _].
  pose proof (getSafeConfig_no_key this h) as Hsafe.
  set (h' := snd (ConfigManager.getSafeConfig this h)) in *.
  unfold ConfigManager.getSafeConfig at 1. rewrite Ht.
  destruct (ConfigManager.tables h !! _) as [table|] eqn:Htable; [|done].
  cbn [snd]. apply fold_left_fixed. intros key _.
  apply mask_key_fixed. intros r record Hkey Hrec.
  exact (Hsafe table key r record eq_refl Hkey Hrec).
Qed.

(** X8. The provider list is blind to the masking: [getProviderStatus]
    answers the same before and after [getSafeConfig], so a provider
    whose key has been overwritten by [***] is still listed as
    [configured] with [hasApiKey] true. *)
Theorem provider_status_survives_masking
    (this : ConfigManager.t) (h : ConfigManager.Heap) :
  ConfigManager.getProviderStatus this
    (snd (ConfigManager.getSafeConfig this h))
  = ConfigManager.getProviderStatus this h.
Proof. apply getProviderStatus_masking, getSafeConfig_masking. Qed.

(** The list of a fresh installation with a key for OpenAI, before or
    after [GET /config]. *)
Example provider_status_after_masking :
  (fun response =>
     (ConfigManager.active response,
      map (fun entry => (entry.1, ConfigManager.hasApiKey entry.2,
                         ConfigManager.status entry.2))
        (ConfigManager.status_providers response)))
  <$> Server.get_providers keyed_manager
        (Server.get_config keyed_manager keyed_heap)
  = Some ("lmstudio",
          [("lmstudio", false, "local"); ("openai", true, "configured");
           ("anthropic", false, "needs-key"); ("gemini", false, "needs-key")]).
Proof. vm_compute. reflexivity. Qed.



Section Health.

Import ConfigManager.

Lemma table_get_NoDup table key r :
  NoDup (map fst table) -> (key, r) ∈ table -> table_get table key = Some r.
Proof.
  induction table as [|[k r'] table IH]; intros Hnd Hin.
  - by apply elem_of_nil in Hin.
  - cbn [map fst] in Hnd. apply NoDup_cons in Hnd as [Hk Hnd].
    cbn [table_get]. apply elem_of_cons in Hin as [[= <- <-]|Hin].
    + by rewrite bool_decide_eq_true_2.
    + case_bool_decide as Heq; [|by apply IH].
      subst k. destruct Hk.
      change key with (fst (key, r)). by apply list_elem_of_fmap_2.
Qed.

Lemma provider_key_not_local p : p <> lmstudio -> provider_key p <> "lmstudio".
Proof. by destruct p. Qed.

End Health.

(** X10. The two status endpoints agree.  For an active provider other
    than LM Studio, [GET /health] fetches nothing, answers [ok], and
    reports as [providerStatus] the status that [GET /providers] lists for
    that provider: [configured] or [needs-key]. *)
Theorem health_agrees_with_provider_list
    (probe : string -> result Response)
    (this : ConfigManager.t) (h : ConfigManager.Heap) :
  ConfigManager.activeProvider (ConfigManager.config this) <> lmstudio ->
  snd (Server.health probe this h) = []
  /\ Server.health_status (fst (Server.health probe this h)) = "ok"
  /\ forall response s,
       Server.get_providers this h = Some response ->
       NoDup (ConfigManager.available response) ->
       (ConfigManager.active response, s)
         ∈ ConfigManager.status_providers response ->
       Server.providerStatus (fst (Server.health probe this h))
       = ConfigManager.status s.
Proof.
  intros Hactive. unfold Server.health.
  rewrite bool_decide_eq_false_2 by done.
  split; [|split].
  - by destruct (ConfigManager.getActiveProvider this h).
  - by destruct (ConfigManager.getActiveProvider this h).
  - intros response s Hlist Hnd Hin.
    unfold Server.get_providers, ConfigManager.getProviderStatus in Hlist.
    unfold ConfigManager.getActiveProvider, ConfigManager.provider_of.
    destruct (ConfigManager.tables h !! _) as [table|]; [|done].
    destruct (mapM _ table) as [entries|] eqn:Hentries; [|done].
    injection Hlist as <-.
    cbn [ConfigManager.active ConfigManager.available
         ConfigManager.status_providers] in *.
    apply mapM_Some in Hentries.
    apply list_elem_of_lookup in Hin as [i Hi].
    destruct (Forall2_lookup_r _ _ _ _ _ Hentries Hi)
      as ([name r] & Htable & Hf).
    cbn [fst snd] in Hf.
    destruct (ConfigManager.records h !! r) as [record|] eqn:Hrec; [|done].
    injection Hf as -> <-.
    rewrite (table_get_NoDup table _ r Hnd)
      by (by eapply list_elem_of_lookup_2).
    rewrite Hrec. cbn [fst Server.providerStatus].
    unfold ConfigManager.provider_status. cbn [ConfigManager.status].
    rewrite bool_decide_eq_false_2 by (by apply provider_key_not_local).
    reflexivity.
Qed.

(** A fresh installation switched to OpenAI, with its key. *)
Lemma health_agrees_with_provider_list_witness :
  let this :=
    {| ConfigManager.defaultConfig :=
         ConfigManager.defaultConfig keyed_manager;
       ConfigManager.config :=
         {| ConfigManager.activeProvider := openai;
            ConfigManager.providers := 1%positive;
            ConfigManager.features :=
              ConfigManager.features (ConfigManager.config keyed_manager);
            ConfigManager.bookmarklet :=
              ConfigManager.bookmarklet
                (ConfigManager.config keyed_manager) |} |} in
  ConfigManager.activeProvider (ConfigManager.config this) <> lmstudio
  /\ forall probe,
       Server.health probe this keyed_heap
       = ({| Server.health_status := "ok";
             Server.health_activeProvider := "openai";
             Server.providerStatus := "configured";
             Server.version := "2.0.0" |}, [])
       /\ snd (Server.health probe this keyed_heap) = [].
Proof.
  cbn zeta. split; [discriminate|]. intros probe.
  split; [vm_compute; reflexivity|].
  refine (proj1 (health_agrees_with_provider_list probe _ keyed_heap _)).
  discriminate.
Defined.

(** * Further properties of the adapters and of the handler *)

(** X11. Every adapter that has what it needs makes exactly one [POST]
    with a JSON content type, and hands back what the network answered,
    a response of any status or the rejection, as it is: no retry, no
    look at the response.  LM Studio and OpenAI send the conversation
    unchanged with [stream: true]; the key goes in a bearer
    [Authorization] header for OpenAI, in [x-api-key] beside the fixed
    version header for Anthropic, and for Gemini in the query of the URL
    and in no header. *)
Theorem adapter_makes_one_call
    (net : Network) (provider : SupportedProviders) (config : LLMProvider.t)
    (messages : list ChatMessage.t) (log : list HttpRequest) :
  provider = lmstudio \/ falsy (LLMProvider.apiKey config) = false ->
  exists request,
    LLMProviders.callProvider net provider config messages log
    = (net request, log ++ [request])
    /\ req_method request = "POST"
    /\ ("Content-Type", "application/json") ∈ req_headers request
    /\ match provider with
       | lmstudio =>
           req_headers request = [("Content-Type", "application/json")]
           /\ req_body request =
                ChatCompletions (LLMProvider.model config) messages true
                  (LLMProvider.temperature config)
                  (LLMProvider.maxTokens config)
       | openai =>
           ("Authorization",
            "Bearer " +:+ interpolate (LLMProvider.apiKey config))
             ∈ req_headers request
           /\ req_body request =
                ChatCompletions (LLMProvider.model config) messages true
                  (LLMProvider.temperature config)
                  (LLMProvider.maxTokens config)
       | anthropic =>
           ("x-api-key", interpolate (LLMProvider.apiKey config))
             ∈ req_headers request
           /\ ("anthropic-version", "2023-06-01") ∈ req_headers request
       | gemini =>
           req_headers request = [("Content-Type", "application/json")]
           /\ req_url request =
                interpolate (LLMProvider.baseUrl config) +:+ "/models/"
                +:+ LLMProvider.model config
                +:+ ":streamGenerateContent?key="
                +:+ interpolate (LLMProvider.apiKey config)
       end.
Proof.
  intros Hready.
  assert (provider = lmstudio \/ provider <> lmstudio
          /\ falsy (LLMProvider.apiKey config) = false) as [->|[Hp Hkey]].
  { destruct Hready as [->|Hkey]; [by left|].
    destruct provider; [by left|right..]; by split. }
  - cbn [LLMProviders.callProvider]. unfold LLMProviders.callLMStudio.
    rewrite fetch_then_return. eexists. split; [reflexivity|].
    cbn [req_method req_headers req_body]. repeat split.
    apply list_elem_of_here.
  - destruct provider; [done|..]; cbn [LLMProviders.callProvider];
      unfold LLMProviders.callOpenAI, LLMProviders.callAnthropic,
        LLMProviders.callGemini;
      rewrite Hkey, fetch_then_return; eexists; (split; [reflexivity|]);
      cbn [req_method req_headers req_body req_url];
      repeat split; unfold LLMProviders.json_headers;
      repeat first [apply list_elem_of_here | apply list_elem_of_further].
Qed.

(** OpenAI with a key. *)
Lemma adapter_makes_one_call_witness :
  let config := ConfigManager.default_record "OpenAI"
                  "https://api.openai.com/v1" (Some "sk-live")
                  "gpt-4o-mini" in
  (openai = lmstudio \/ falsy (LLMProvider.apiKey config) = false)
  /\ forall net, exists request,
       LLMProviders.callProvider net openai config [] []
       = (net request, [] ++ [request])
       /\ req_method request = "POST".
Proof.
  cbn zeta. split; [by right|]. intros net.
  destruct (adapter_makes_one_call net openai
              (ConfigManager.default_record "OpenAI"
                 "https://api.openai.com/v1" (Some "sk-live") "gpt-4o-mini")
              [] [] (or_intror eq_refl))
    as (request & H1 & H2 & _).
  exists request. split; [exact H1 | exact H2].
Defined.

(** X12. The conversation as Anthropic gets it.  No message of the
    [messages] array has the system role, and the others are all there,
    in their order.  The [system] field is the content of the first
    system message when it has one that is not empty, and the configured
    prompt otherwise; any further system message is sent nowhere.  For
    the conversation the chat handler builds, this gives the configured
    prompt in [system] and the one user message in [messages]. *)
Theorem anthropic_conversation
    (net : Network) (config : LLMProvider.t) (messages : list ChatMessage.t)
    (log : list HttpRequest) :
  falsy (LLMProvider.apiKey config) = false ->
  exists request sent system_text,
    LLMProviders.callAnthropic net config messages log
    = (net request, log ++ [request])
    /\ req_body request =
         AnthropicMessages (LLMProvider.model config) sent system_text true
           (LLMProvider.temperature config) (LLMProvider.maxTokens config)
    /\ (forall m, m ∈ sent <-> m ∈ messages /\ ChatMessage.role m <> system)
    /\ sent `sublist_of` messages
    /\ (Forall (fun m => ChatMessage.role m <> system) messages ->
        sent = messages /\ system_text = LLMProvider.systemPrompt config)
    /\ (forall before first after,
          messages = before ++ first :: after ->
          Forall (fun m => ChatMessage.role m <> system) before ->
          ChatMessage.role first = system ->
          system_text =
            if bool_decide (ChatMessage.content first = EmptyString)
            then LLMProvider.systemPrompt config
            else ChatMessage.content first)
    /\ (forall chat : ChatRequest.t,
          messages = Server.build_messages config chat ->
          system_text = LLMProvider.systemPrompt config
          /\ sent = [ ChatMessage.mk user
                        (Server.contextualQuestion (ChatRequest.title chat)
                           (ChatRequest.url chat) (ChatRequest.text chat)
                           (ChatRequest.question chat)) ]).
Proof.
  intros Hkey. unfold LLMProviders.callAnthropic.
  rewrite Hkey, fetch_then_return.
  eexists. eexists. eexists.
  split; [reflexivity|]. split; [reflexivity|].
  split; [|split; [|split; [|split]]].
  - intros m. rewrite !list_elem_of_In, filter_In.
    by rewrite bool_decide_eq_true.
  - induction messages as [|m ms IH]; [constructor|].
    cbn [List.filter]. case_bool_decide; by constructor.
  - intros Hnone. split.
    + induction Hnone as [|m ms Hm _ IH]; [done|].
      cbn [List.filter]. rewrite bool_decide_eq_true_2 by done.
      by rewrite IH.
    + unfold LLMProviders.system_field.
      induction Hnone as [|m ms Hm _ IH]; [done|].
      cbn [List.find]. by rewrite bool_decide_eq_false_2.
  - intros before first after -> Hbefore Hfirst.
    unfold LLMProviders.system_field.
    induction Hbefore as [|m ms Hm _ IH].
    + cbn [app List.find]. rewrite bool_decide_eq_true_2 by done.
      by destruct (ChatMessage.content first).
    + cbn [app List.find]. by rewrite bool_decide_eq_false_2.
  - intros chat ->. split; [|reflexivity].
    unfold LLMProviders.system_field. cbn.
    by destruct (LLMProvider.systemPrompt config).
Qed.

(** Two system messages around a user message. *)
Lemma anthropic_conversation_witness :
  let config := ConfigManager.default_record "Anthropic Claude"
                  "https://api.anthropic.com/v1" (Some "key")
                  "claude-3-haiku-20240307" in
  let messages := [ChatMessage.mk system "First"; ChatMessage.mk user "U";
                   ChatMessage.mk system "Second"] in
  falsy (LLMProvider.apiKey config) = false
  /\ forall net, exists request sent system_text,
       LLMProviders.callAnthropic net config messages []
       = (net request, [] ++ [request])
       /\ req_body request =
            AnthropicMessages (LLMProvider.model config) sent system_text true
              (LLMProvider.temperature config) (LLMProvider.maxTokens config)
       /\ system_text = "First".
Proof.
  cbn zeta. split; [reflexivity|]. intros net.
  destruct (anthropic_conversation net
              (ConfigManager.default_record "Anthropic Claude"
                 "https://api.anthropic.com/v1" (Some "key")
                 "claude-3-haiku-20240307")
              [ChatMessage.mk system "First"; ChatMessage.mk user "U";
               ChatMessage.mk system "Second"] [] eq_refl)
    as (request & sent & system_text & H1 & H2 & _ & _ & _ & H6 & _).
  exists request, sent, system_text.
  split; [exact H1|]. split; [exact H2|].
  exact (H6 [] (ChatMessage.mk system "First")
           [ChatMessage.mk user "U"; ChatMessage.mk system "Second"]
           eq_refl (List.Forall_nil _) eq_refl).
Defined.

Section HandlerOutcomes.

Lemma adapter_call_of_lmstudio net config messages log :
  exists request,
    LLMProviders.callProvider net lmstudio config messages log
    = (net request, log ++ [request]).
Proof.
  cbn [LLMProviders.callProvider]. unfold LLMProviders.callLMStudio.
  rewrite fetch_then_return. by eexists.
Qed.

Lemma relay_finish response provider :
  exists tokens ending_effects,
    without_reads (Server.relay response provider)
    = token_writes tokens ++ ending_effects
    /\ Finish ending_effects.
Proof.
  unfold Server.relay.
  destruct response as [ok status statusText [[pending e]|]].
  - change (LLMProviders.streamResponse
              {| ok := ok; status := status; statusText := statusText;
                 body := Some {| chunks := pending; ending := e |} |}
              provider)
      with (LLMProviders.streamResponse (streaming pending e) provider).
    destruct (streamResponse_shape provider pending e)
      as (tokens & _ & Hfx & Hres).
    cbn zeta in *.
    destruct (LLMProviders.streamResponse (streaming pending e) provider)
      as [fx res].
    cbn [fst snd] in *. exists tokens.
    destruct (existsb _ _).
    + subst res. eexists. split; [exact Hfx|constructor].
    + destruct e as [|message]; subst res.
      * eexists. split; [exact Hfx|constructor].
      * exists [ReaderReleaseLock; ResWrite (ErrorRecord message); ResEnd].
        split; [|constructor].
        rewrite without_reads_app, Hfx, <- app_assoc. reflexivity.
  - exists [], [ResWrite (ErrorRecord "Response body is not readable"); ResEnd].
    split; [reflexivity|constructor].
Qed.

End HandlerOutcomes.

(** X13. How [POST /chat-stream] can answer a body of the declared type
    [ChatRequest].  Either it refuses the request with status 400 and
    nothing else, having called no provider; or it sends the 200 header,
    then token records, then exactly one of four endings: the terminator
    record and the end, the end alone, an error record and the end after
    the reader was released, or an error record and the end with nothing
    read.  So the response to such a body is always finished, once, and
    nothing is written after its end; and the request reaches the
    provider at most once.  (A body of another shape can get the status
    500 of the [catch] block; see [Server.chat_stream].) *)
Theorem chat_stream_outcomes
    (configManager : ConfigManager.t) (heap : ConfigManager.Heap)
    (net : Network) (request : ChatRequest.t) :
  let answer := Server.chat_stream configManager heap net request in
  (exists message,
     fst answer = [ResStatusJson 400 message] /\ snd answer = [])
  \/ (exists tokens ending_effects,
        without_reads (fst answer)
        = ResWriteHead 200 :: token_writes tokens ++ ending_effects
        /\ Finish ending_effects
        /\ (length (snd answer) <= 1)%nat).
Proof.
  cbn zeta. unfold Server.chat_stream.
  destruct (_ || _); [left; by eexists|].
  destruct (ConfigManager.provider_of heap _ _) as [providerConfig|];
    [|left; by eexists].
  right.
  set (activeProvider := match ChatRequest.provider request with
                         | Some p => p
                         | None => _
                         end).
  assert (exists outcome requests,
            LLMProviders.callProvider net activeProvider providerConfig
              (Server.build_messages providerConfig request) []
            = (outcome, requests) /\ (length requests <= 1)%nat)
    as (outcome & requests & -> & Hlen).
  { destruct (falsy (LLMProvider.apiKey providerConfig)) eqn:Hkey.
    - destruct (decide (activeProvider = lmstudio)) as [Hp|Hp].
      + destruct (adapter_call_of_lmstudio net providerConfig
                    (Server.build_messages providerConfig request) [])
          as (r & Hr).
        rewrite Hp, Hr. eexists. eexists. split; [reflexivity|]. cbn. lia.
      + assert (LLMProviders.callProvider net activeProvider providerConfig
                  (Server.build_messages providerConfig request) []
                = (Throw (missing_key_message activeProvider), [])) as ->.
        { destruct activeProvider; [done|..];
            cbn [LLMProviders.callProvider missing_key_message];
            unfold LLMProviders.callOpenAI, LLMProviders.callAnthropic,
              LLMProviders.callGemini; rewrite Hkey; reflexivity. }
        eexists. eexists. split; [reflexivity|]. cbn. lia.
    - assert (exists r,
                LLMProviders.callProvider net activeProvider providerConfig
                  (Server.build_messages providerConfig request) []
                = (net r, [r])) as (r & ->).
      { destruct activeProvider; cbn [LLMProviders.callProvider];
          unfold LLMProviders.callLMStudio, LLMProviders.callOpenAI,
            LLMProviders.callAnthropic, LLMProviders.callGemini;
          rewrite ?Hkey, fetch_then_return; by eexists. }
      eexists. eexists. split; [reflexivity|]. cbn. lia. }
  destruct outcome as [response|message].
  - destruct (ok response); cbn [negb].
    + destruct (relay_finish response activeProvider)
        as (tokens & ending_effects & Hfx & Hfinish).
      exists tokens, ending_effects. cbn [fst snd].
      split; [|by split].
      change (without_reads (ResWriteHead 200
                             :: Server.relay response activeProvider))
        with (ResWriteHead 200
              :: without_reads (Server.relay response activeProvider)).
      by rewrite Hfx.
    + exists []. eexists. cbn [fst snd]. split; [reflexivity|].
      split; [constructor|exact Hlen].
  - exists []. eexists. cbn [fst snd Server.on_error negb].
    split; [reflexivity|]. split; [constructor|exact Hlen].
Qed.

Section BeforeStreaming.

Lemma complete_request_passes request :
  complete_request request ->
  falsy (Some (ChatRequest.title request))
  || falsy (Some (ChatRequest.url request))
  || falsy (Some (ChatRequest.text request))
  || falsy (Some (ChatRequest.question request)) = false.
Proof.
  intros (H1 & H2 & H3 & H4).
  destruct (ChatRequest.title request), (ChatRequest.url request),
    (ChatRequest.text request), (ChatRequest.question request); done.
Qed.

End BeforeStreaming.

(** X14. Errors that come before the stream are sent inside it.  For a
    complete request to a configured provider the 200 header goes out
    before the provider is called, so when the adapter throws for a
    missing key (no request is made then), when the network rejects the
    call, or when the provider answers with a failure status, the client
    gets status 200 and one error record, then the end; the body of a
    failed response is never read. *)
Theorem errors_before_streaming_are_streamed
    (configManager : ConfigManager.t) (heap : ConfigManager.Heap)
    (net : Network) (request : ChatRequest.t)
    (provider : SupportedProviders) (config : LLMProvider.t) :
  complete_request request ->
  requested_provider configManager request = provider ->
  ConfigManager.provider_of heap (ConfigManager.config configManager) provider
  = Some config ->
  let answer := Server.chat_stream configManager heap net request in
  let call :=
    LLMProviders.callProvider net provider config
      (Server.build_messages config request) [] in
  (provider <> lmstudio ->
   falsy (LLMProvider.apiKey config) = true ->
   answer = ([ResWriteHead 200;
              ResWrite (ErrorRecord (missing_key_message provider));
              ResEnd], []))
  /\ (forall message,
        fst call = Throw message ->
        answer = ([ResWriteHead 200; ResWrite (ErrorRecord message); ResEnd],
                  snd call))
  /\ (forall response,
        fst call = Ok response ->
        ok response = false ->
        answer = ([ResWriteHead 200;
                   ResWrite (ErrorRecord
                               (provider_key provider +:+ " server error: "
                                +:+ Server.decimal (status response)));
                   ResEnd], snd call)).
Proof.
  intros Hcomplete Hprovider Hconfig. cbn zeta.
  unfold Server.chat_stream.
  rewrite (complete_request_passes request Hcomplete).
  fold (requested_provider configManager request).
  rewrite Hprovider, Hconfig.
  split; [|split].
  - intros Hp Hkey.
    assert (LLMProviders.callProvider net provider config
              (Server.build_messages config request) []
            = (Throw (missing_key_message provider), [])) as ->.
    { destruct provider; [done|..];
        cbn [LLMProviders.callProvider missing_key_message];
        unfold LLMProviders.callOpenAI, LLMProviders.callAnthropic,
          LLMProviders.callGemini; rewrite Hkey; reflexivity. }
    reflexivity.
  - intros message Hcall.
    destruct (LLMProviders.callProvider net provider config _ [])
      as [outcome requests].
    cbn [fst snd] in *. by subst outcome.
  - intros response Hcall Hok.
    destruct (LLMProviders.callProvider net provider config _ [])
      as [outcome requests].
    cbn [fst snd] in *. subst outcome. by rewrite Hok.
Qed.

(** A fresh installation asked for OpenAI, which has no key. *)
Lemma errors_before_streaming_are_streamed_witness :
  let '(configManager, heap) := ConfigManager.create None None None in
  let request :=
    ChatRequest.mk "Title" "https://example.com/" "Page text" "Why?" None
      (Some openai) in
  complete_request request
  /\ forall net,
       Server.chat_stream configManager heap net request
       = ([ResWriteHead 200;
           ResWrite (ErrorRecord "OpenAI API key not configured");
           ResEnd], []).
Proof.
  cbn beta iota zeta delta [ConfigManager.create].
  split; [by repeat split|]. intros net.
  refine (proj1 (errors_before_streaming_are_streamed _ _ net
                   (ChatRequest.mk "Title" "https://example.com/" "Page text"
                      "Why?" None (Some openai))
                   openai
                   (ConfigManager.default_record "OpenAI"
                      "https://api.openai.com/v1" (Some "") "gpt-4o-mini")
                   _ eq_refl _) _ eq_refl).
  - by repeat split.
  - vm_compute. reflexivity.
  - discriminate.
Defined.

(** * Properties of the client *)

Section Retry.

Import ApiClient.

Lemma withRetry_from_spec {A} (left : nat) (delay : N)
    (operation : nat -> result A) :
  forall count,
    exists k,
      (k <= left)%nat
      /\ fst (withRetry_from left delay operation count)
         = operation (count + k)%nat
      /\ (forall j, (j < k)%nat ->
            exists message, operation (count + j)%nat = Throw message)
      /\ ((exists a, operation (count + k)%nat = Ok a) \/ k = left)
      /\ snd (withRetry_from left delay operation count)
         = map (fun j => delay * (N.of_nat (count + j) + 1)) (seq 0 k).
Proof.
  induction left as [|left IH]; intros count; cbn [withRetry_from].
  - exists 0%nat. rewrite Nat.add_0_r.
    destruct (operation count) as [a|message] eqn:E; cbn [fst snd];
      (split; [lia|]); (split; [done|]); (split; [intros; lia|]);
      (split; [|done]); by right.
  - destruct (operation count) as [a|message] eqn:E.
    + exists 0%nat. rewrite Nat.add_0_r. cbn [fst snd].
      split; [lia|]. split; [done|]. split; [intros; lia|].
      split; [|done]. left. by exists a.
    + destruct (IH (S count)) as (k & Hk & Hout & Hfail & Hlast & Hwaits).
      destruct (withRetry_from left delay operation (S count))
        as [outcome waits].
      cbn [fst snd] in *. exists (S k).
      replace (count + S k)%nat with (S count + k)%nat by lia.
      split; [lia|]. split; [exact Hout|]. split; [|split].
      * intros [|j] Hj.
        -- rewrite Nat.add_0_r. by exists message.
        -- replace (count + S j)%nat with (S count + j)%nat by lia.
           apply Hfail. lia.
      * destruct Hlast as [Hok| ->]; [by left|by right].
      * cbn [seq map]. rewrite Nat.add_0_r. f_equal.
        rewrite Hwaits, <- seq_shift, map_map.
        apply map_ext. intros j. f_equal. f_equal. lia.
Qed.

End Retry.

(** X15. How [withRetry] retries.  The outcome is that of the first call
    that succeeds, if one of the first [retryAttempts + 1] calls does,
    and otherwise the error of call number [retryAttempts + 1]: the
    operation is never called more often than that.  Before the call
    that follows failure number [j] it waits [j] times [retryDelay], so
    with the defaults at most 1000, 2000 and 3000 milliseconds. *)
Theorem withRetry_stops
    {A} (config : ApiClient.ApiClientConfig) (operation : nat -> result A) :
  exists k,
    (k <= ApiClient.retryAttempts config)%nat
    /\ fst (ApiClient.withRetry config operation) = operation k
    /\ (forall j, (j < k)%nat -> exists message, operation j = Throw message)
    /\ ((exists a, operation k = Ok a) \/ k = ApiClient.retryAttempts config)
    /\ snd (ApiClient.withRetry config operation)
       = map (fun j => ApiClient.retryDelay config * (N.of_nat j + 1))
           (seq 0 k).
Proof.
  unfold ApiClient.withRetry.
  destruct (withRetry_from_spec (ApiClient.retryAttempts config)
              (ApiClient.retryDelay config) operation 0%nat)
    as (k & H1 & H2 & H3 & H4 & H5).
  exists k. cbn [Nat.add] in *. repeat split; assumption.
Qed.

(** A server that never answers, with the default configuration. *)
Example withRetry_gives_up :
  ApiClient.withRetry ApiClient.defaultApiConfig
    (fun _ => @Throw Response "Request timeout")
  = (Throw "Request timeout", [1000; 2000; 3000]).
Proof. reflexivity. Qed.

Section ClientProtocol.

Import ApiClient.

Lemma only_tokens_nil : only_tokens [].
Proof. by exists []. Qed.

Lemma only_tokens_app a b :
  only_tokens a -> only_tokens b -> only_tokens (a ++ b).
Proof.
  intros (ta & -> & Ha) (tb & -> & Hb). exists (ta ++ tb).
  split; [by rewrite map_app|by apply Forall_app].
Qed.

Lemma only_tokens_finished a b :
  only_tokens a -> finished b -> finished (a ++ b).
Proof.
  intros (ta & -> & Ha) (tb & last & -> & Hlast & Hb).
  exists (ta ++ tb), last.
  split; [by rewrite map_app, app_assoc|]. split; [done|by apply Forall_app].
Qed.

Lemma taken_truthy x v : taken x = Some v -> Json.truthy v = true.
Proof.
  unfold taken. destruct x as [w|]; [|done].
  destruct (Json.truthy w) eqn:E; [|done]. by intros [= <-].
Qed.

Lemma handle_line_shape line :
  if snd (handle_line line) then finished (fst (handle_line line))
  else only_tokens (fst (handle_line line)).
Proof.
  unfold handle_line.
  destruct (Js.startsWith line _); [|apply only_tokens_nil].
  destruct (Json.parse _) as [data|]; [|apply only_tokens_nil].
  unfold handle_data.
  destruct (Json.member _ data) as [error|]; [|apply only_tokens_nil].
  destruct (taken error) as [e|].
  { cbn. exists [], (OnError (FromStream e)). by repeat split. }
  assert (only_tokens
            match taken (Json.prop "token" data) with
            | Some t => [OnToken t]
            | None => []
            end) as Htokens.
  { destruct (taken (Json.prop "token" data)) as [t|] eqn:E;
      [|apply only_tokens_nil].
    exists [t]. split; [done|]. constructor; [|done].
    by eapply taken_truthy. }
  destruct (taken (Json.prop "done" data)); cbn [fst snd].
  - apply only_tokens_finished; [exact Htokens|].
    exists [], OnComplete. by repeat split.
  - exact Htokens.
Qed.

Lemma for_lines_shape lines :
  if snd (for_lines lines) then finished (fst (for_lines lines))
  else only_tokens (fst (for_lines lines)).
Proof.
  induction lines as [|line lines IH]; [apply only_tokens_nil|].
  cbn [for_lines]. pose proof (handle_line_shape line) as Hline.
  destruct (handle_line line) as [fx [|]]; cbn [fst snd] in *; [done|].
  destruct (for_lines lines) as [fx' [|]]; cbn [fst snd] in *.
  - by apply only_tokens_finished.
  - by apply only_tokens_app.
Qed.

Lemma client_read_loop_shape pending :
  forall d e,
    match snd (read_loop d pending e) with
    | Raise _ => only_tokens (fst (read_loop d pending e))
    | _ => finished (fst (read_loop d pending e))
    end.
Proof.
  induction pending as [|value pending IH]; intros d e.
  - destruct e; cbn; [|apply only_tokens_nil].
    exists [], OnComplete. by repeat split.
  - cbn [read_loop].
    destruct (TextDecoder.decode d value) as [d' chunk].
    pose proof (for_lines_shape (split_lines chunk)) as Hlines.
    destruct (for_lines (split_lines chunk)) as [fx [|]];
      cbn [fst snd] in *; [done|].
    specialize (IH d' e).
    destruct (read_loop d' pending e) as [fx' exit]. cbn [fst snd] in *.
    destruct exit;
      first [by apply only_tokens_finished | by apply only_tokens_app].
Qed.

Lemma finished_no_release fx : finished fx -> callbacks fx = fx.
Proof.
  intros (tokens & last & -> & Hlast & _). unfold callbacks.
  rewrite List.filter_app. f_equal.
  - induction tokens as [|t ts IH]; [done|]. cbn. by rewrite IH.
  - by destruct last.
Qed.

Lemma only_tokens_no_release fx : only_tokens fx -> callbacks fx = fx.
Proof.
  intros (tokens & -> & _). unfold callbacks.
  induction tokens as [|t ts IH]; [done|]. cbn. by rewrite IH.
Qed.

End ClientProtocol.

(** X16. The client always ends an exchange, and does so once.  However
    the request goes (no answer after the retries, a failure status, no
    body, a body that closes, breaks off, or carries an error or a
    [done] record), the callbacks of [sendChatRequest] are [onToken]
    calls, each with a truthy token, followed by exactly one call of
    [onError] or [onComplete], after which nothing is called; and the
    reader is released at most once. *)
Theorem client_calls_back_once
    (config : ApiClient.ApiClientConfig) (operation : nat -> result Response) :
  let effects := fst (ApiClient.sendChatRequest config operation) in
  finished (callbacks effects)
  /\ (length (List.filter (fun x => match x with
                                    | ApiClient.ReleaseLock => true
                                    | _ => false
                                    end) effects) <= 1)%nat.
Proof.
  cbn zeta. unfold ApiClient.sendChatRequest.
  destruct (ApiClient.withRetry config operation) as [[response|message] waits].
  2:{ cbn. split; [|lia]. exists [], (ApiClient.OnError (ApiClient.Caught message)).
      by repeat split. }
  destruct (ok response); cbn [negb].
  2:{ cbn. split; [|lia]. eexists [], _. by repeat split. }
  destruct (body response) as [stream|].
  2:{ cbn. split; [|lia]. eexists [], _. by repeat split. }
  pose proof (client_read_loop_shape (chunks stream) TextDecoder.create
                (ending stream)) as Hshape.
  destruct (ApiClient.read_loop _ _ _) as [fx exit]. cbn [fst snd] in *.
  assert (forall fx tail,
            callbacks fx = fx ->
            callbacks (fx ++ ApiClient.ReleaseLock :: tail)
            = fx ++ callbacks tail
            /\ length (List.filter
                         (fun x => match x with
                                   | ApiClient.ReleaseLock => true
                                   | _ => false
                                   end) (fx ++ ApiClient.ReleaseLock :: tail))
               = S (length (List.filter
                              (fun x => match x with
                                        | ApiClient.ReleaseLock => true
                                        | _ => false
                                        end) tail))) as Hrel.
  { intros gx tail Hgx. unfold callbacks in *.
    rewrite !List.filter_app. cbn [List.filter]. rewrite Hgx.
    split; [done|]. rewrite length_app. cbn [length].
    enough (List.filter (fun x => match x with
                                  | ApiClient.ReleaseLock => true
                                  | _ => false
                                  end) gx = []) as -> by (cbn; lia).
    rewrite <- Hgx. clear. induction gx as [|x gx IH]; [done|].
    destruct x; cbn; by rewrite ?IH. }
  destruct exit as [| |message]; cbn [fst].
  - destruct (Hrel fx [] (finished_no_release fx Hshape)) as [-> ->].
    cbn. rewrite app_nil_r. split; [exact Hshape|lia].
  - destruct (Hrel fx [] (finished_no_release fx Hshape)) as [-> ->].
    cbn. rewrite app_nil_r. split; [exact Hshape|lia].
  - destruct (Hrel fx [ApiClient.OnError (ApiClient.Caught message)]
                (only_tokens_no_release fx Hshape)) as [-> ->].
    cbn. split; [|lia].
    destruct Hshape as (tokens & -> & Htokens).
    exists tokens, (ApiClient.OnError (ApiClient.Caught message)).
    by repeat split.
Qed.

Section ClientAndTerminator.

Import ApiClient.

Lemma outputs_state d cps :
  TextDecoder.bytes_needed (fst (TextDecoder.outputs d cps))
  = TextDecoder.bytes_needed d
  /\ TextDecoder.lower (fst (TextDecoder.outputs d cps)) = TextDecoder.lower d.
Proof.
  revert d. induction cps as [|cp cps IH]; intros d; [done|].
  cbn [TextDecoder.outputs].
  destruct (TextDecoder.output d cp) as [d1 u1] eqn:E.
  specialize (IH d1).
  destruct (TextDecoder.outputs d1 cps) as [d2 u2]. cbn [fst] in *.
  unfold TextDecoder.output in E.
  destruct (TextDecoder.bom_seen d); injection E as <- _; exact IH.
Qed.

Lemma lead_ok d b :
  TextDecoder.bytes_needed d = 0 -> decoder_ok (fst (TextDecoder.lead d b)).
Proof.
  intros Hd. unfold TextDecoder.lead, decoder_ok.
  repeat (match goal with |- context [if ?c then _ else _] => destruct c end;
          cbn [fst TextDecoder.expect TextDecoder.bytes_needed
               TextDecoder.lower]);
    try (by left); right; lia.
Qed.

Lemma step_ok d b : decoder_ok (fst (TextDecoder.step d b)).
Proof.
  unfold TextDecoder.step.
  destruct (TextDecoder.bytes_needed d =? 0) eqn:Hn.
  - apply lead_ok. by apply N.eqb_eq.
  - destruct (negb _).
    + pose proof (lead_ok (TextDecoder.reset d) b eq_refl) as H.
      by destruct (TextDecoder.lead (TextDecoder.reset d) b).
    + destruct (TextDecoder.bytes_seen d + 1 =? TextDecoder.bytes_needed d);
        unfold decoder_ok;
        cbn [fst TextDecoder.reset TextDecoder.bytes_needed TextDecoder.lower];
        [by left|right; apply N.le_refl].
Qed.

Lemma decode_byte_ok d b : decoder_ok (fst (TextDecoder.decode_byte d b)).
Proof.
  unfold TextDecoder.decode_byte. pose proof (step_ok d (Byte.to_N b)) as H.
  destruct (TextDecoder.step d (Byte.to_N b)) as [d1 cps].
  destruct (outputs_state d1 cps) as [H1 H2]. unfold decoder_ok in *.
  cbn [fst] in H. by rewrite H1, H2.
Qed.

Lemma decode_ok value :
  forall d, decoder_ok d -> decoder_ok (fst (TextDecoder.decode d value)).
Proof.
  induction value as [|b value IH]; intros d Hd; [done|].
  cbn [TextDecoder.decode].
  pose proof (decode_byte_ok d b) as H1.
  destruct (TextDecoder.decode_byte d b) as [d1 u1].
  specialize (IH d1 H1). by destruct (TextDecoder.decode d1 value).
Qed.

(** An ASCII byte read in any state the decoder can be in: itself,
    after a replacement character if a sequence was open.  No sequence
    is open afterwards. *)
Lemma decode_byte_ascii d b :
  decoder_ok d -> Byte.to_N b <= 127 ->
  TextDecoder.bytes_needed (fst (TextDecoder.decode_byte d b)) = 0
  /\ (snd (TextDecoder.decode_byte d b) = [Byte.to_N b]
      \/ snd (TextDecoder.decode_byte d b) = [65533; Byte.to_N b]).
Proof.
  intros Hd Hb. unfold TextDecoder.decode_byte, TextDecoder.step.
  assert (TextDecoder.utf16 (Byte.to_N b) = [Byte.to_N b]) as Hutf.
  { unfold TextDecoder.utf16.
    assert ((Byte.to_N b <? 65536) = true) as -> by (apply N.ltb_lt; lia).
    reflexivity. }
  assert ((Byte.to_N b =? 65279) = false) as Hbom by (apply N.eqb_neq; lia).
  assert (forall d0, TextDecoder.lead d0 (Byte.to_N b) = (d0, [Byte.to_N b]))
    as Hlead.
  { intros d0. unfold TextDecoder.lead.
    by rewrite (proj2 (N.leb_le _ _) Hb). }
  destruct (TextDecoder.bytes_needed d =? 0) eqn:Hn.
  - apply N.eqb_eq in Hn. rewrite Hlead. cbn [TextDecoder.outputs].
    unfold TextDecoder.output.
    destruct (TextDecoder.bom_seen d); rewrite ?Hbom, Hutf; cbn;
      split; auto.
  - apply N.eqb_neq in Hn. destruct Hd as [Hd|Hd]; [done|].
    assert ((TextDecoder.lower d <=? Byte.to_N b) = false) as ->
      by (apply N.leb_gt; lia).
    cbn [andb negb]. rewrite Hlead. cbn [TextDecoder.outputs].
    unfold TextDecoder.output. destruct d as [cp seen needed lo up [|]];
      cbn; rewrite ?Hbom, ?Hutf; cbn; split; auto.
Qed.

Lemma decode_done d :
  decoder_ok d ->
  snd (TextDecoder.decode d done_bytes) = map Byte.to_N done_bytes
  \/ snd (TextDecoder.decode d done_bytes)
     = 65533 :: map Byte.to_N done_bytes.
Proof.
  intros Hd.
  change done_bytes with (x64 :: tl done_bytes).
  cbn [TextDecoder.decode].
  destruct (decode_byte_ascii d x64 Hd) as [Hn Hu]; [by vm_compute|].
  destruct (TextDecoder.decode_byte d x64) as [d1 u1]. cbn [fst snd] in *.
  destruct (decode_ascii (tl done_bytes) d1 Hn) as [Htext _].
  { vm_compute. repeat constructor; discriminate. }
  destruct (TextDecoder.decode d1 (tl done_bytes)) as [d2 u2].
  cbn [fst snd] in *. subst u2.
  destruct Hu as [->| ->]; [left|right]; reflexivity.
Qed.

Lemma done_chunk_is_silent d :
  decoder_ok d ->
  for_lines (split_lines (snd (TextDecoder.decode d done_bytes)))
  = ([], false).
Proof.
  intros Hd. destruct (decode_done d Hd) as [-> | ->]; by vm_compute.
Qed.

Lemma read_loop_ignores_done pending :
  forall d e,
    decoder_ok d ->
    read_loop d (pending ++ [done_bytes]) e = read_loop d pending e.
Proof.
  induction pending as [|value pending IH]; intros d e Hd.
  - cbn [app read_loop].
    pose proof (done_chunk_is_silent d Hd) as Hsilent.
    destruct (TextDecoder.decode d done_bytes) as [d' chunk].
    cbn [snd] in Hsilent. rewrite Hsilent. by destruct e.
  - cbn [app read_loop].
    pose proof (decode_ok value d Hd) as Hd'.
    destruct (TextDecoder.decode d value) as [d' chunk]. cbn [fst] in Hd'.
    destruct (for_lines (split_lines chunk)) as [fx [|]]; [done|].
    by rewrite IH.
Qed.

End ClientAndTerminator.

(** X17. The terminator record of the server means nothing to the
    client.  A body whose last chunk is [data: [DONE]] and a blank line,
    as [streamResponse] writes it, is handled exactly like the body
    without that chunk: the payload is not JSON, the parse error is
    caught and logged, and the exchange is completed by the end of the
    body (or ended by its failure), which is the signal the client goes
    by. *)
Theorem terminator_record_is_ignored_by_client
    (config : ApiClient.ApiClientConfig) (pending : list (list byte))
    (e : Ending) :
  ApiClient.sendChatRequest config (served (pending ++ [done_bytes]) e)
  = ApiClient.sendChatRequest config (served pending e).
Proof.
  unfold ApiClient.sendChatRequest, ApiClient.withRetry, served.
  destruct (ApiClient.retryAttempts config); cbn [ApiClient.withRetry_from];
    cbn [streaming ok negb body chunks ending];
    by rewrite read_loop_ignores_done by (by left).
Qed.

(** A body with nothing but the terminator record. *)
Example client_completes_on_the_end_of_the_body :
  fst (ApiClient.sendChatRequest ApiClient.defaultApiConfig
         (served [done_bytes] Closed))
  = [ApiClient.OnComplete; ApiClient.ReleaseLock].
Proof. vm_compute. reflexivity. Qed.

Section ClientChunks.

Import ApiClient.

Lemma split_lines_cons c rest :
  split_lines (c :: rest) =
  if c =? Js.LF then [] :: split_lines rest
  else Js.cons_head c (split_lines rest).
Proof. reflexivity. Qed.

Lemma split_lines_not_nil s : split_lines s <> [].
Proof.
  destruct s as [|c s]; [done|]. rewrite split_lines_cons.
  destruct (c =? Js.LF); [done|]. by destruct (split_lines s).
Qed.

Lemma split_lines_after_line_feed a b :
  split_lines (a ++ Js.LF :: b) = split_lines a ++ split_lines b.
Proof.
  induction a as [|c a IH]; [reflexivity|].
  change ((c :: a) ++ Js.LF :: b) with (c :: (a ++ Js.LF :: b)).
  rewrite !split_lines_cons, IH.
  destruct (c =? Js.LF); [reflexivity|].
  pose proof (split_lines_not_nil a).
  by destruct (split_lines a).
Qed.

Lemma for_lines_app l1 l2 :
  for_lines (l1 ++ l2) =
  if snd (for_lines l1) then for_lines l1
  else (fst (for_lines l1) ++ fst (for_lines l2), snd (for_lines l2)).
Proof.
  induction l1 as [|line l1 IH]; cbn [app for_lines].
  - by destruct (for_lines l2).
  - destruct (handle_line line) as [fx [|]]; [done|].
    rewrite IH. destruct (for_lines l1) as [fx1 [|]]; cbn [fst snd]; [done|].
    by rewrite app_assoc.
Qed.

Lemma decode_ends_with_line_feed value :
  forall d,
    decoder_ok d ->
    exists text,
      snd (TextDecoder.decode d (value ++ [x0a])) = text ++ [Js.LF]
      /\ TextDecoder.bytes_needed
           (fst (TextDecoder.decode d (value ++ [x0a]))) = 0.
Proof.
  intros d Hd. rewrite decode_app.
  pose proof (decode_ok value d Hd) as Hd1.
  destruct (TextDecoder.decode d value) as [d1 t1]. cbn [fst] in Hd1.
  cbn [TextDecoder.decode].
  destruct (decode_byte_ascii d1 x0a Hd1) as [Hn Hu]; [by vm_compute|].
  destruct (TextDecoder.decode_byte d1 x0a) as [d2 u2]. cbn [fst snd] in *.
  destruct Hu as [->| ->].
  - exists t1. by rewrite app_nil_r.
  - exists (t1 ++ [65533]). split; [|done].
    rewrite app_nil_r, <- app_assoc. reflexivity.
Qed.

Lemma client_read_loop_merge d v1 v2 pending e :
  decoder_ok d ->
  read_loop d ((v1 ++ [x0a] ++ v2) :: pending) e
  = read_loop d ((v1 ++ [x0a]) :: v2 :: pending) e.
Proof.
  intros Hd. cbn [read_loop].
  rewrite (app_assoc v1 [x0a] v2), (decode_app d (v1 ++ [x0a]) v2).
  destruct (decode_ends_with_line_feed v1 d Hd) as (text & Htext & _).
  destruct (TextDecoder.decode d (v1 ++ [x0a])) as [d1 t1].
  cbn [fst snd] in Htext. subst t1.
  destruct (TextDecoder.decode d1 v2) as [d2 t2].
  rewrite <- app_assoc. cbn [app].
  rewrite split_lines_after_line_feed.
  rewrite (split_lines_after_line_feed text []).
  rewrite !for_lines_app. cbn [split_lines for_lines].
  change (handle_line []) with (@nil ClientEffect, false). cbn iota.
  destruct (for_lines (split_lines text)) as [fx1 [|]]; cbn [fst snd];
    [done|].
  rewrite app_nil_r.
  destruct (for_lines (split_lines t2)) as [fx2 [|]]; cbn [fst snd]; [done|].
  destruct (read_loop d2 pending e) as [fx3 exit].
  by rewrite app_assoc.
Qed.

Lemma client_read_loop_merge_inside before :
  forall d v1 v2 after e,
    decoder_ok d ->
    read_loop d (before ++ (v1 ++ [x0a] ++ v2) :: after) e
    = read_loop d (before ++ (v1 ++ [x0a]) :: v2 :: after) e.
Proof.
  induction before as [|value before IH]; intros d v1 v2 after e Hd.
  - by apply client_read_loop_merge.
  - cbn [app read_loop].
    pose proof (decode_ok value d Hd) as Hd1.
    destruct (TextDecoder.decode d value) as [d1 t1]. cbn [fst] in Hd1.
    destruct (for_lines (split_lines t1)) as [fx [|]]; [done|].
    specialize (IH d1 v1 v2 after e Hd1). cbn [app] in IH.
    by rewrite IH.
Qed.

End ClientChunks.

(** X18. The client depends on the chunk boundaries only where they
    cut a line.  It keeps no buffer between chunks, but a boundary that
    falls right after a line feed is harmless: whether the bytes up to a
    line feed and the bytes after it come as one chunk or as two, the
    callbacks are the same.  So a body whose chunks each end with a line
    feed, as every write of the server does, may be regrouped at will. *)
Theorem client_chunks_may_split_after_line_feed
    (config : ApiClient.ApiClientConfig)
    (before after : list (list byte)) (v1 v2 : list byte) (e : Ending) :
  ApiClient.sendChatRequest config
    (served (before ++ (v1 ++ [x0a] ++ v2) :: after) e)
  = ApiClient.sendChatRequest config
      (served (before ++ (v1 ++ [x0a]) :: v2 :: after) e).
Proof.
  unfold ApiClient.sendChatRequest, ApiClient.withRetry, served.
  destruct (ApiClient.retryAttempts config); cbn [ApiClient.withRetry_from];
    cbn [streaming ok negb body chunks ending];
    by rewrite client_read_loop_merge_inside by (by left).
Qed.

(** A boundary inside a line is not harmless: the record is lost. *)
Example client_loses_a_record_cut_in_two :
  let record := data_record "{'token':'Hi'}" in
  fst (ApiClient.sendChatRequest ApiClient.defaultApiConfig
         (served [record] Closed))
  = [ApiClient.OnToken (Json.JString (Js.lit "Hi")); ApiClient.OnComplete;
     ApiClient.ReleaseLock]
  /\ fst (ApiClient.sendChatRequest ApiClient.defaultApiConfig
            (served [take 10 record; drop 10 record] Closed))
     = [ApiClient.OnComplete; ApiClient.ReleaseLock].
Proof. split; vm_compute; reflexivity. Qed.

(** * From the handler to the callbacks *)

Section Utf8.

Ltac divlia := zify; Z.to_euclidean_division_equations; lia.

Ltac cmp :=
  repeat match goal with
  | |- context [N.leb ?a ?b] =>
      first [ rewrite (proj2 (N.leb_le a b)) by divlia
            | rewrite (proj2 (N.leb_gt a b)) by divlia ]
  | |- context [N.ltb ?a ?b] =>
      first [ rewrite (proj2 (N.ltb_lt a b)) by divlia
            | rewrite (proj2 (N.ltb_ge a b)) by divlia ]
  | |- context [N.eqb ?a ?b] =>
      first [ rewrite (proj2 (N.eqb_eq a b)) by divlia
            | rewrite (proj2 (N.eqb_neq a b)) by divlia ]
  end; cbn [andb orb negb].

Lemma to_N_byte_of n : n < 256 -> Byte.to_N (Wire.byte_of n) = n.
Proof.
  intros Hn. unfold Wire.byte_of.
  destruct (Byte.of_N n) as [b|] eqn:E; [by apply Byte.to_of_N|].
  pose proof (Byte.to_of_N_option_map n) as H. rewrite E in H.
  cbn in H. destruct (N.leb_spec n 255); [done|lia].
Qed.

Lemma continuation a b :
  N.lor (N.shiftl a 6) (N.land b 0x3F) = a * 64 + b mod 64.
Proof.
  change 0x3F with (N.ones 6). rewrite N.land_ones.
  assert (N.land (N.shiftl a 6) (b mod 2 ^ 6) = 0) as H.
  { apply N.bits_inj. intros n. rewrite N.land_spec, N.bits_0.
    destruct (N.lt_ge_cases n 6) as [Hn|Hn].
    - by rewrite N.shiftl_spec_low.
    - by rewrite N.mod_pow2_bits_high, andb_false_r. }
  rewrite <- N.lxor_lor, <- N.add_nocarry_lxor by exact H.
  by rewrite N.shiftl_mul_pow2.
Qed.

Lemma utf16_unit c : c < 0x10000 -> TextDecoder.utf16 c = [c].
Proof. intros. unfold TextDecoder.utf16. by cmp. Qed.

(** The decoder, byte by byte, on the bytes of a well-formed sequence. *)
Lemma decode_cons d b rest :
  TextDecoder.decode d (b :: rest) =
  let '(d1, u1) := TextDecoder.decode_byte d b in
  let '(d2, u2) := TextDecoder.decode d1 rest in
  (d2, u1 ++ u2).
Proof. reflexivity. Qed.

Lemma decode_one_byte d n :
  idle d -> n < 0x80 ->
  TextDecoder.decode_byte d (Wire.byte_of n) = (d, [n]).
Proof.
  intros [Hn Hb] H. unfold TextDecoder.decode_byte, TextDecoder.step.
  rewrite to_N_byte_of, Hn by lia. cbn [N.eqb]. unfold TextDecoder.lead.
  cmp. cbn [TextDecoder.outputs]. unfold TextDecoder.output.
  by rewrite Hb, utf16_unit, app_nil_r by lia.
Qed.

Lemma decode_lead_byte d n :
  TextDecoder.bytes_needed d = 0 -> 0xC2 <= n <= 0xF4 ->
  TextDecoder.decode_byte d (Wire.byte_of n)
  = (if n <=? 0xDF then TextDecoder.expect d 1 0x80 0xBF (n mod 32)
     else if n <=? 0xEF then
       TextDecoder.expect d 2 (if n =? 0xE0 then 0xA0 else 0x80)
         (if n =? 0xED then 0x9F else 0xBF) (n mod 16)
     else
       TextDecoder.expect d 3 (if n =? 0xF0 then 0x90 else 0x80)
         (if n =? 0xF4 then 0x8F else 0xBF) (n mod 8), []).
Proof.
  intros Hn H. unfold TextDecoder.decode_byte, TextDecoder.step.
  rewrite to_N_byte_of, Hn by lia. cbn [N.eqb]. unfold TextDecoder.lead.
  change 0x1F with (N.ones 5). change 0xF with (N.ones 4).
  change 0x7 with (N.ones 3). rewrite !N.land_ones.
  change (2 ^ 5) with 32. change (2 ^ 4) with 16. change (2 ^ 3) with 8.
  destruct (N.leb_spec n 0xDF); [by cmp|].
  destruct (N.leb_spec n 0xEF); by cmp.
Qed.

Lemma decode_continuation_byte d n :
  TextDecoder.bytes_needed d <> 0 -> n < 256 ->
  TextDecoder.lower d <= n <= TextDecoder.upper d ->
  TextDecoder.bom_seen d = true ->
  TextDecoder.decode_byte d (Wire.byte_of n)
  = if TextDecoder.bytes_seen d + 1 =? TextDecoder.bytes_needed d
    then (TextDecoder.reset d,
          TextDecoder.utf16 (TextDecoder.code_point d * 64 + n mod 64))
    else ({| TextDecoder.code_point := TextDecoder.code_point d * 64 + n mod 64;
             TextDecoder.bytes_seen := TextDecoder.bytes_seen d + 1;
             TextDecoder.bytes_needed := TextDecoder.bytes_needed d;
             TextDecoder.lower := 0x80; TextDecoder.upper := 0xBF;
             TextDecoder.bom_seen := true |}, []).
Proof.
  intros Hn H Hr Hb. unfold TextDecoder.decode_byte, TextDecoder.step.
  rewrite to_N_byte_of by lia.
  rewrite (proj2 (N.eqb_neq _ _) Hn).
  rewrite (proj2 (N.leb_le _ _) (proj1 Hr)), (proj2 (N.leb_le _ _) (proj2 Hr)).
  cbn [andb negb]. rewrite continuation, Hb.
  destruct (_ =? _); [|reflexivity].
  cbn [TextDecoder.outputs]. unfold TextDecoder.output, TextDecoder.reset.
  cbn [TextDecoder.bom_seen]. by rewrite Hb, app_nil_r.
Qed.

Ltac continue :=
  rewrite decode_cons, decode_continuation_byte
    by (cbn [TextDecoder.expect TextDecoder.bytes_seen
             TextDecoder.bytes_needed TextDecoder.code_point
             TextDecoder.lower TextDecoder.upper TextDecoder.bom_seen];
        done || divlia);
  cbn [TextDecoder.expect TextDecoder.bytes_seen TextDecoder.bytes_needed
       TextDecoder.code_point TextDecoder.lower TextDecoder.upper
       TextDecoder.bom_seen];
  cmp.

Ltac finish :=
  cbn [fst snd TextDecoder.decode TextDecoder.reset
       TextDecoder.bytes_needed TextDecoder.bom_seen TextDecoder.expect];
  rewrite ?app_nil_r; unfold idle;
  cbn [fst snd app TextDecoder.reset TextDecoder.bytes_needed
       TextDecoder.bom_seen TextDecoder.expect];
  split; [f_equal; divlia|split; first [reflexivity|assumption]].

Lemma decode_two a b d :
  idle d -> 2 <= a < 32 -> b < 64 ->
  snd (TextDecoder.decode d (map Wire.byte_of [0xC0 + a; 0x80 + b]))
  = TextDecoder.utf16 (a * 64 + b)
  /\ idle (fst (TextDecoder.decode d
                  (map Wire.byte_of [0xC0 + a; 0x80 + b]))).
Proof.
  intros [Hn Hb] Ha Hb'. cbn [map].
  rewrite decode_cons, decode_lead_byte by (done || divlia). cmp.
  continue. finish.
Qed.

Lemma decode_three a b c d :
  idle d -> a < 16 -> b < 64 -> c < 64 ->
  (a = 0 -> 32 <= b) -> (a = 13 -> b < 32) ->
  snd (TextDecoder.decode d
         (map Wire.byte_of [0xE0 + a; 0x80 + b; 0x80 + c]))
  = TextDecoder.utf16 ((a * 64 + b) * 64 + c)
  /\ idle (fst (TextDecoder.decode d
                  (map Wire.byte_of [0xE0 + a; 0x80 + b; 0x80 + c]))).
Proof.
  intros [Hn Hb] Ha Hb' Hc H0 H13. cbn [map].
  destruct (N.eq_dec a 0) as [E0|E0]; destruct (N.eq_dec a 13) as [E13|E13];
    try specialize (H0 E0); try specialize (H13 E13);
    (rewrite decode_cons, decode_lead_byte by (done || divlia); cmp;
     do 2 continue; finish).
Qed.

Lemma decode_four a b c e d :
  idle d -> a <= 4 -> b < 64 -> c < 64 -> e < 64 ->
  (a = 0 -> 16 <= b) -> (a = 4 -> b < 16) ->
  snd (TextDecoder.decode d
         (map Wire.byte_of [0xF0 + a; 0x80 + b; 0x80 + c; 0x80 + e]))
  = TextDecoder.utf16 (((a * 64 + b) * 64 + c) * 64 + e)
  /\ idle (fst (TextDecoder.decode d
                  (map Wire.byte_of
                     [0xF0 + a; 0x80 + b; 0x80 + c; 0x80 + e]))).
Proof.
  intros [Hn Hb] Ha Hb' Hc He H0 H4. cbn [map].
  destruct (N.eq_dec a 0) as [E0|E0]; destruct (N.eq_dec a 4) as [E4|E4];
    try specialize (H0 E0); try specialize (H4 E4);
    (rewrite decode_cons, decode_lead_byte by (done || divlia); cmp;
     do 3 continue; finish).
Qed.

Lemma decode_code_point cp d :
  idle d ->
  cp < 0xD800 \/ 0xE000 <= cp < 0x110000 ->
  snd (TextDecoder.decode d (Wire.utf8_code_point cp)) = TextDecoder.utf16 cp
  /\ idle (fst (TextDecoder.decode d (Wire.utf8_code_point cp))).
Proof.
  intros Hd Hcp. unfold Wire.utf8_code_point.
  destruct (N.ltb_spec cp 0x80) as [H1|H1];
    [|destruct (N.ltb_spec cp 0x800) as [H2|H2];
      [|destruct (N.ltb_spec cp 0x10000) as [H3|H3]]].
  - cbn [map]. rewrite decode_cons, decode_one_byte by done. cbn.
    by rewrite utf16_unit by lia.
  - replace (TextDecoder.utf16 cp)
      with (TextDecoder.utf16 (cp / 64 * 64 + cp mod 64))
      by (f_equal; divlia).
    apply decode_two; [done|divlia..].
  - replace (TextDecoder.utf16 cp)
      with (TextDecoder.utf16
              ((cp / 4096 * 64 + (cp / 64) mod 64) * 64 + cp mod 64))
      by (f_equal; divlia).
    apply decode_three; [done|divlia..].
  - replace (TextDecoder.utf16 cp)
      with (TextDecoder.utf16
              (((cp / 262144 * 64 + (cp / 4096) mod 64) * 64
                + (cp / 64) mod 64) * 64 + cp mod 64))
      by (f_equal; divlia).
    apply decode_four; [done|divlia..].
Qed.

Lemma decode_utf8 s :
  well_formed s ->
  forall d,
    idle d ->
    snd (TextDecoder.decode d (Wire.utf8 s)) = s
    /\ idle (fst (TextDecoder.decode d (Wire.utf8 s))).
Proof.
  induction 1 as [|c s Hc Hh Hl _ IH|c e s Hh Hl _ IH]; intros d Hd; [done| |].
  - cbn [Wire.utf8]. rewrite Hh, Hl, decode_app.
    destruct (decode_code_point c d Hd) as [Hu Hd1].
    { unfold Wire.is_high, Wire.is_low in Hh, Hl.
      destruct (N.ltb_spec c 0xD800); [by left|right].
      destruct (N.leb_spec 0xE000 c); [lia|].
      revert Hh Hl. destruct (N.leb_spec c 0xDBFF); by cmp. }
    destruct (TextDecoder.decode d (Wire.utf8_code_point c)) as [d1 u1].
    cbn [fst snd] in Hu, Hd1. destruct (IH d1 Hd1) as [Hs Hd2].
    destruct (TextDecoder.decode d1 (Wire.utf8 s)) as [d2 u2].
    cbn [fst snd] in *. by rewrite Hu, Hs, utf16_unit.
  - cbn [Wire.utf8]. rewrite Hh, Hl, decode_app.
    unfold Wire.is_high in Hh. unfold Wire.is_low in Hl.
    apply andb_true_iff in Hh as [Hh1 Hh2]. apply andb_true_iff in Hl as [Hl1 Hl2].
    apply N.leb_le in Hh1, Hh2, Hl1, Hl2.
    destruct (decode_code_point
                (0x10000 + (c - 0xD800) * 1024 + (e - 0xDC00)) d Hd)
      as [Hu Hd1]; [right; lia|].
    destruct (TextDecoder.decode d (Wire.utf8_code_point _)) as [d1 u1].
    cbn [fst snd] in Hu, Hd1. destruct (IH d1 Hd1) as [Hs Hd2].
    destruct (TextDecoder.decode d1 (Wire.utf8 s)) as [d2 u2].
    cbn [fst snd] in *. rewrite Hu, Hs. split; [|done].
    unfold TextDecoder.utf16. cmp.
    change 0x3FF with (N.ones 10).
    rewrite N.land_ones, N.shiftr_div_pow2.
    change (2 ^ 10) with 1024. cbn [app]. f_equal; [|f_equal]; divlia.
Qed.

Lemma well_formed_app a b :
  well_formed a -> well_formed b -> well_formed (a ++ b).
Proof.
  induction 1; intros Hb; cbn [app]; [done| |].
  - apply well_formed_unit; auto.
  - apply well_formed_pair; auto.
Qed.

Lemma well_formed_below a :
  Forall (fun c => c < 0xD800) a -> well_formed a.
Proof.
  induction 1 as [|c a Hc _ IH]; [constructor|].
  apply well_formed_unit; [lia| | |exact IH];
    unfold Wire.is_high, Wire.is_low; by cmp.
Qed.

Lemma well_formed_lit m : well_formed (Js.lit m).
Proof.
  apply well_formed_below. eapply Forall_impl; [apply lit_below|].
  cbn. intros; lia.
Qed.

End Utf8.

Section EndToEnd.

Import ApiClient.

Ltac divlia := zify; Z.to_euclidean_division_equations; lia.

Lemma well_formed_quote_chars s :
  Forall (fun c => c < 65536) s -> well_formed (Wire.quote_chars s).
Proof.
  assert (forall c, c < 65536 -> forall r, well_formed r ->
                    well_formed (Wire.unicode_escape c ++ r)) as Hescape.
  { intros c Hc r Hr. apply well_formed_app; [|exact Hr].
    apply well_formed_below. unfold Wire.unicode_escape, Wire.hex_digit.
    repeat (apply List.Forall_cons;
            [first [lia | destruct (_ <? _); divlia]|]).
    apply List.Forall_nil. }
  assert (forall c, c < 65536 -> Wire.is_high c = false ->
                    Wire.is_low c = false -> forall r, well_formed r ->
                    well_formed (Wire.quote_unit c ++ r)) as Hunit.
  { intros c Hc Hh Hl r Hr. unfold Wire.quote_unit.
    repeat match goal with
           | |- context [if ?a =? ?b then _ else _] =>
               destruct (N.eqb_spec a b) as [->|?];
               [apply well_formed_app; [|exact Hr];
                apply well_formed_below;
                repeat (apply List.Forall_cons; [lia|]);
                apply List.Forall_nil|]
           end.
    destruct (N.ltb_spec c 0x20); [by apply Hescape|].
    by apply well_formed_unit. }
  induction s as [|c|c d r IHr IHd] using pair_induction; intros Hs.
  - constructor.
  - apply Forall_cons in Hs as [Hc _]. cbn [Wire.quote_chars].
    destruct (Wire.is_high c) eqn:Hh; [|destruct (Wire.is_low c) eqn:Hl].
    + rewrite <- (app_nil_r (Wire.unicode_escape c)).
      apply Hescape; [done|constructor].
    + apply Hescape; [done|constructor].
    + apply Hunit; [done..|constructor].
  - apply Forall_cons in Hs as [Hc Hs]. specialize (IHd Hs).
    apply Forall_cons in Hs as [Hd Hs]. specialize (IHr Hs).
    change (Wire.quote_chars (c :: d :: r))
      with (if Wire.is_high c then
              if Wire.is_low d then c :: d :: Wire.quote_chars r
              else Wire.unicode_escape c ++ Wire.quote_chars (d :: r)
            else if Wire.is_low c
                 then Wire.unicode_escape c ++ Wire.quote_chars (d :: r)
                 else Wire.quote_unit c ++ Wire.quote_chars (d :: r)).
    destruct (Wire.is_high c) eqn:Hh;
      [destruct (Wire.is_low d) eqn:Hl|destruct (Wire.is_low c) eqn:Hl];
      auto.
    by apply well_formed_pair.
Qed.

Lemma well_formed_stringify name s :
  Forall (fun c => c < 65536) s -> well_formed (Wire.stringify name s).
Proof.
  intros Hs. unfold Wire.stringify, Wire.quote.
  assert (forall c, c < 0xD800 -> well_formed [c]) as Hone.
  { intros c Hc. apply well_formed_below. by repeat constructor. }
  assert (forall x, Forall (fun c => c < 65536) x ->
                    well_formed (0x22 :: Wire.quote_chars x ++ [0x22]))
    as Hquote.
  { intros x Hx. apply (well_formed_app [0x22]); [by apply Hone|].
    apply well_formed_app; [by apply well_formed_quote_chars|by apply Hone]. }
  repeat apply well_formed_app; try (by apply Hone); apply Hquote; [|done].
  eapply Forall_impl; [apply lit_below|]. cbn. intros; lia.
Qed.

(** The first byte of a chunk, an ASCII one, read between two
    characters. *)
Lemma decode_first_byte d b :
  TextDecoder.bytes_needed d = 0 -> Byte.to_N b <= 127 ->
  snd (TextDecoder.decode_byte d b) = [Byte.to_N b]
  /\ idle (fst (TextDecoder.decode_byte d b)).
Proof.
  intros Hd Hb. unfold TextDecoder.decode_byte, TextDecoder.step.
  rewrite Hd. cbn [N.eqb]. unfold TextDecoder.lead.
  rewrite (proj2 (N.leb_le _ _) Hb).
  cbn [TextDecoder.outputs]. unfold TextDecoder.output, TextDecoder.utf16.
  assert ((Byte.to_N b <? 65536) = true) as -> by (apply N.ltb_lt; lia).
  assert ((Byte.to_N b =? 65279) = false) as -> by (apply N.eqb_neq; lia).
  destruct d as [cp seen needed lo up [|]]; cbn in *; by subst.
Qed.

(** A record of the server as the decoder of the client gives it back. *)
Lemma decode_data_bytes d name s :
  TextDecoder.bytes_needed d = 0 ->
  Forall (fun c => c < 65536) s ->
  snd (TextDecoder.decode d (Wire.data_bytes name s)) = Wire.data_text name s
  /\ idle (fst (TextDecoder.decode d (Wire.data_bytes name s))).
Proof.
  intros Hd Hs. unfold Wire.data_bytes, Wire.data_text.
  change (Js.lit "data: ") with (0x64 :: Js.lit "ata: ").
  set (rest := Js.lit "ata: " ++ Wire.stringify name s ++ [Js.LF; Js.LF]).
  assert (well_formed rest) as Hrest.
  { apply well_formed_app; [apply well_formed_lit|].
    apply well_formed_app; [by apply well_formed_stringify|].
    apply well_formed_below. repeat constructor; unfold Js.LF; lia. }
  change (Wire.utf8 ((0x64 :: Js.lit "ata: ") ++ _))
    with (x64 :: Wire.utf8 rest).
  cbn [TextDecoder.decode].
  destruct (decode_first_byte d x64 Hd) as [Hu Hd1]; [by vm_compute|].
  destruct (TextDecoder.decode_byte d x64) as [d1 u1]. cbn [fst snd] in *.
  destruct (decode_utf8 rest Hrest d1 Hd1) as [Htext Hd2].
  destruct (TextDecoder.decode d1 (Wire.utf8 rest)) as [d2 u2].
  cbn [fst snd] in *. by subst.
Qed.

Lemma split_lines_one_line a :
  Forall (fun c => c <> Js.LF) a -> split_lines a = [a].
Proof.
  induction 1 as [|c a Hc _ IH]; [reflexivity|].
  cbn [split_lines]. rewrite (proj2 (N.eqb_neq _ _) Hc), IH. reflexivity.
Qed.

Lemma data_text_lines name s :
  split_lines (Wire.data_text name s)
  = [Js.lit "data: " ++ Wire.stringify name s; []; []].
Proof.
  unfold Wire.data_text. rewrite app_assoc.
  change [Js.LF; Js.LF] with ([] ++ Js.LF :: [Js.LF]).
  rewrite app_nil_l, split_lines_after_line_feed.
  rewrite split_lines_one_line; [reflexivity|].
  apply Forall_app. split.
  - by repeat constructor.
  - unfold Wire.stringify, Wire.quote.
    assert (forall x, Forall (fun c => c <> Js.LF) (Wire.quote_chars x)) as H.
    { intros x. eapply Forall_impl; [apply quote_chars_printable|].
      cbn. unfold Js.LF. intros; lia. }
    repeat first [apply Forall_app; split | apply Forall_cons; split
                 | apply Forall_nil | apply H | done].
Qed.

Lemma handle_line_data payload :
  handle_line (Js.lit "data: " ++ payload)
  = match Json.parse payload with
    | None => ([], false)
    | Some data =>
        match handle_data data with
        | Some outcome => outcome
        | None => ([], false)
        end
    end.
Proof. by destruct payload. Qed.

Lemma for_lines_data name s :
  Forall (fun c => c < 65536) s ->
  for_lines (split_lines (Wire.data_text name s))
  = match handle_data (Json.JObject [(Js.lit name, Json.JString s)]) with
    | Some outcome => outcome
    | None => ([], false)
    end.
Proof.
  intros Hs. rewrite data_text_lines. cbn [for_lines].
  rewrite handle_line_data, parse_stringify by done.
  change (handle_line []) with (@nil ClientEffect, false).
  destruct (handle_data _) as [[fx [|]]|]; [done| |done].
  by rewrite app_nil_r.
Qed.

End EndToEnd.

Section Composition.

Import ApiClient.

Lemma mapM_app_Some {A B} (f : A -> option B) a b chunks :
  mapM f (a ++ b) = Some chunks ->
  exists ca cb, chunks = ca ++ cb /\ mapM f a = Some ca /\ mapM f b = Some cb.
Proof.
  rewrite mapM_Some. intros (ca & cb & Ha & Hb & ->)%Forall2_app_inv_l.
  exists ca, cb. by rewrite !mapM_Some.
Qed.

(** The chunks of token records: every token is called back, in order,
    and the loop goes on. *)
Lemma read_loop_tokens tokens :
  forall d chunks pending e,
    TextDecoder.bytes_needed d = 0 ->
    Forall (fun t => Json.truthy t = true) tokens ->
    Forall code_units (map TokenRecord tokens) ->
    mapM Wire.record_bytes (map TokenRecord tokens) = Some chunks ->
    exists d',
      TextDecoder.bytes_needed d' = 0
      /\ read_loop d (chunks ++ pending) e
         = (map OnToken tokens ++ fst (read_loop d' pending e),
            snd (read_loop d' pending e)).
Proof.
  induction tokens as [|t tokens IH]; intros d chunks pending e Hd Ht Hu Hc.
  - injection Hc as <-. exists d. split; [done|]. cbn [app map].
    by destruct (read_loop d pending e).
  - apply Forall_cons in Ht as [Ht Hts]. cbn [map] in Hu, Hc.
    apply Forall_cons in Hu as [Hu Hus].
    apply mapM_Some, Forall2_cons_inv_l in Hc
      as (chunk & chunks' & Hchunk & Hc & ->).
    apply mapM_Some in Hc.
    destruct t as [| | |s| |]; try discriminate Hchunk.
    injection Hchunk as <-. cbn [code_units] in Hu.
    destruct s as [|c s]; [discriminate Ht|].
    cbn [app read_loop].
    destruct (decode_data_bytes d "token" (c :: s) Hd Hu) as [Htext [Hd1 _]].
    destruct (TextDecoder.decode d (Wire.data_bytes "token" (c :: s)))
      as [d1 text].
    cbn [fst snd] in Htext, Hd1. subst text.
    rewrite for_lines_data by done.
    change (handle_data _)
      with (Some ([OnToken (Json.JString (c :: s))], false)).
    destruct (IH d1 chunks' pending e Hd1 Hts Hus Hc) as (d' & Hd' & ->).
    exists d'. by split.
Qed.

(** The chunk of an error record: the error is called back and the
    loop left, unless the message is empty. *)
Lemma read_loop_error d message pending e :
  TextDecoder.bytes_needed d = 0 ->
  exists d',
    TextDecoder.bytes_needed d' = 0
    /\ read_loop d (Wire.data_bytes "error" (Js.lit message) :: pending) e
       = match message with
         | EmptyString => read_loop d' pending e
         | String _ _ =>
             ([OnError (FromStream (Json.JString (Js.lit message)))], Return)
         end.
Proof.
  intros Hd.
  assert (Forall (fun c => c < 65536) (Js.lit message)) as Hu.
  { eapply Forall_impl; [apply lit_below|]. cbn. intros; lia. }
  cbn [read_loop].
  destruct (decode_data_bytes d "error" (Js.lit message) Hd Hu)
    as [Htext [Hd1 _]].
  destruct (TextDecoder.decode d (Wire.data_bytes "error" (Js.lit message)))
    as [d1 text].
  cbn [fst snd] in Htext, Hd1. subst text. exists d1. split; [done|].
  rewrite for_lines_data by done.
  destruct message as [|a message].
  - change (handle_data _) with (Some (@nil ClientEffect, false)).
    by destruct (read_loop d1 pending e).
  - reflexivity.
Qed.

Lemma done_record_bytes : Wire.record_bytes DoneRecord = Some done_bytes.
Proof. reflexivity. Qed.

(** The records a run of the handler can write, once the header is
    out: tokens, all truthy, and then nothing, the terminator record, or
    one error record. *)
Lemma relay_written response provider :
  exists tokens closing,
    written (Server.relay response provider)
    = map TokenRecord tokens ++ closing
    /\ Forall (fun t => Json.truthy t = true) tokens
    /\ (closing = [] \/ closing = [DoneRecord]
        \/ exists message, closing = [ErrorRecord message]).
Proof.
  unfold Server.relay.
  destruct response as [ok status statusText [[pending e]|]].
  - change (LLMProviders.streamResponse
              {| ok := ok; status := status; statusText := statusText;
                 body := Some {| chunks := pending; ending := e |} |}
              provider)
      with (LLMProviders.streamResponse (streaming pending e) provider).
    destruct (streamResponse_shape provider pending e)
      as (tokens & Hw & Hfx & Hres).
    cbn zeta in *.
    destruct (for_events_tokens provider
                (complete_events (decoded (concat pending)))) as [Hall _].
    rewrite Hw in Hall. apply Forall_app in Hall as [Hall _].
    rewrite Forall_fmap in Hall.
    destruct (LLMProviders.streamResponse (streaming pending e) provider)
      as [fx res].
    cbn [fst snd] in *. exists tokens.
    assert (written fx
            = map TokenRecord tokens
              ++ written (if existsb (is_terminator provider)
                               (complete_events (decoded (concat pending)))
                          then [ResWrite DoneRecord; ResEnd;
                                ReaderReleaseLock]
                          else match e with
                               | Closed => [ReaderReleaseLock; ResEnd]
                               | Aborted _ => [ReaderReleaseLock]
                               end)) as Hwritten.
    { by rewrite <- written_without_reads, Hfx, written_app,
        token_writes_written. }
    destruct (existsb _ _).
    + subst res. exists [DoneRecord]. split; [exact Hwritten|]. split; auto.
    + destruct e as [|message]; subst res.
      * exists []. split; [exact Hwritten|]. split; auto.
      * exists [ErrorRecord message].
        rewrite written_app, Hwritten, <- app_assoc.
        split; [reflexivity|]. split; eauto.
  - exists [], [ErrorRecord "Response body is not readable"].
    split; [reflexivity|]. split; eauto.
Qed.

Lemma chat_stream_written configManager heap net request :
  head (fst (Server.chat_stream configManager heap net request))
  = Some (ResWriteHead 200) ->
  exists tokens closing,
    written (fst (Server.chat_stream configManager heap net request))
    = map TokenRecord tokens ++ closing
    /\ Forall (fun t => Json.truthy t = true) tokens
    /\ (closing = [] \/ closing = [DoneRecord]
        \/ exists message, closing = [ErrorRecord message]).
Proof.
  unfold Server.chat_stream.
  destruct (_ || _); [discriminate|].
  destruct (ConfigManager.provider_of heap _ _) as [providerConfig|];
    [|discriminate].
  intros _.
  destruct (LLMProviders.callProvider net _ providerConfig _ [])
    as [[response|message] log]; cbn [fst].
  - destruct (ok response); cbn [negb].
    + destruct (relay_written response
                  match ChatRequest.provider request with
                  | Some p => p
                  | None => ConfigManager.activeProvider
                              (ConfigManager.config configManager)
                  end)
        as (tokens & closing & Hw & Ht & Hc).
      exists tokens, closing. split; [exact Hw|]. by split.
    + exists []. eexists. split; [reflexivity|]. split; eauto.
  - exists []. eexists. split; [reflexivity|]. split; eauto.
Qed.

Lemma callbacks_of_served config pending e :
  callbacks (fst (sendChatRequest config (served pending e)))
  = callbacks (fst (read_loop TextDecoder.create pending e))
    ++ match snd (read_loop TextDecoder.create pending e) with
       | Raise message => [OnError (Caught message)]
       | _ => []
       end.
Proof.
  unfold sendChatRequest, withRetry, served.
  destruct (retryAttempts config); cbn [withRetry_from];
    cbn [streaming ok negb body chunks ending];
    destruct (read_loop TextDecoder.create pending e) as [fx [| |message]];
    cbn [fst snd]; unfold callbacks; rewrite List.filter_app; cbn;
    by rewrite ?app_nil_r.
Qed.

Lemma callbacks_tokens tokens : callbacks (map OnToken tokens) = map OnToken tokens.
Proof. induction tokens as [|t ts IH]; [done|]. cbn. by f_equal. Qed.

End Composition.

(** X19. The exchange from end to end.  When the handler of
    [POST /chat-stream] accepts a request, its tokens are strings, and
    each of its writes reaches the client as one chunk, the callbacks of
    [sendChatRequest] are [onToken] with the tokens written, all of them
    and in the order written, and then one call: [onError] with the
    message of the error record when the handler ended with one, and
    [onComplete] otherwise.  [JSON.parse] after the UTF-8 decoder gives
    back what [JSON.stringify] was given, whatever the characters of the
    token.  An error record with an empty message is taken for
    completion. *)
Theorem chat_stream_reaches_the_client
    (configManager : ConfigManager.t) (heap : ConfigManager.Heap)
    (net : Network) (request : ChatRequest.t)
    (config : ApiClient.ApiClientConfig) (chunks : list (list byte)) :
  let answer := Server.chat_stream configManager heap net request in
  head (fst answer) = Some (ResWriteHead 200) ->
  Forall code_units (written (fst answer)) ->
  mapM Wire.record_bytes (written (fst answer)) = Some chunks ->
  exists tokens closing,
    written (fst answer) = map TokenRecord tokens ++ closing
    /\ (closing = [] \/ closing = [DoneRecord]
        \/ exists message, closing = [ErrorRecord message])
    /\ callbacks (fst (ApiClient.sendChatRequest config
                         (served chunks Closed)))
       = map ApiClient.OnToken tokens ++ [last_call closing].
Proof.
  cbn zeta. intros Hhead Hunits Hchunks.
  destruct (chat_stream_written configManager heap net request Hhead)
    as (tokens & closing & Hw & Ht & Hc).
  exists tokens, closing. split; [exact Hw|]. split; [exact Hc|].
  rewrite Hw in Hunits, Hchunks.
  apply Forall_app in Hunits as [Hunits _].
  apply mapM_app_Some in Hchunks as (ca & cb & -> & Ha & Hb).
  rewrite callbacks_of_served.
  destruct (read_loop_tokens tokens TextDecoder.create ca cb Closed
              eq_refl Ht Hunits Ha) as (d & Hd & ->).
  cbn [fst snd]. unfold callbacks at 1. rewrite List.filter_app.
  fold (callbacks (map ApiClient.OnToken tokens)).
  rewrite callbacks_tokens, <- app_assoc. f_equal.
  destruct Hc as [->|[->|[message ->]]].
  - injection Hb as <-. reflexivity.
  - change (mapM Wire.record_bytes [DoneRecord]) with (Some [done_bytes])
      in Hb.
    injection Hb as <-.
    pose proof (read_loop_ignores_done [] d Closed (or_introl Hd)) as H.
    cbn [app] in H. rewrite H. reflexivity.
  - change (mapM Wire.record_bytes [ErrorRecord message])
      with (Some [Wire.data_bytes "error" (Js.lit message)]) in Hb.
    injection Hb as <-.
    destruct (read_loop_error d message [] Closed Hd) as (d' & _ & ->).
    by destruct message.
Qed.

(** LM Studio streams [Hi], then the letter U+00E9, then the
    terminator. *)
Lemma chat_stream_reaches_the_client_witness :
  let '(configManager, heap) := ConfigManager.create None None None in
  let net :=
    streams [data_record "{'choices':[{'delta':{'content':'Hi'}}]}";
             accented_record; data_record "[DONE]"] in
  let chunks :=
    [Wire.data_bytes "token" (Js.lit "Hi"); Wire.data_bytes "token" [0xE9];
     done_bytes] in
  let answer := Server.chat_stream configManager heap net plain_request in
  head (fst answer) = Some (ResWriteHead 200)
  /\ Forall code_units (written (fst answer))
  /\ mapM Wire.record_bytes (written (fst answer)) = Some chunks
  /\ exists tokens closing,
       written (fst answer) = map TokenRecord tokens ++ closing
       /\ (closing = [] \/ closing = [DoneRecord]
           \/ exists message, closing = [ErrorRecord message])
       /\ callbacks (fst (ApiClient.sendChatRequest
                            ApiClient.defaultApiConfig
                            (served chunks Closed)))
          = map ApiClient.OnToken tokens ++ [last_call closing].
Proof.
  cbn beta iota zeta delta [ConfigManager.create].
  assert (forall (P Q R S : Prop), P -> Q -> R -> (P -> Q -> R -> S) ->
                                   P /\ Q /\ R /\ S) as pack by tauto.
  apply pack.
  - vm_compute. reflexivity.
  - match goal with
    | |- Forall _ ?l =>
        replace l
          with [fragment "Hi"; TokenRecord (Json.JString [0xE9]); DoneRecord]
          by (vm_compute; reflexivity)
    end.
    repeat first [apply List.Forall_cons | apply List.Forall_nil
                 | exact I | reflexivity].
  - vm_compute. reflexivity.
  - apply chat_stream_reaches_the_client.
Defined.

(** What the client is called with in that exchange. *)
Example accented_token_is_delivered :
  fst (ApiClient.sendChatRequest ApiClient.defaultApiConfig
         (served [Wire.data_bytes "token" (Js.lit "Hi");
                  Wire.data_bytes "token" [0xE9]; done_bytes] Closed))
  = [ApiClient.OnToken (Json.JString (Js.lit "Hi"));
     ApiClient.OnToken (Json.JString [0xE9]);
     ApiClient.OnComplete; ApiClient.ReleaseLock].
Proof. vm_compute. reflexivity. Qed.

(** A token with a quotation mark, a line feed and a surrogate on its
    own comes back as it was written. *)
Example escaped_token_is_delivered :
  fst (ApiClient.sendChatRequest ApiClient.defaultApiConfig
         (served [Wire.data_bytes "token" [0x22; 0x0A; 0xD83D]] Closed))
  = [ApiClient.OnToken (Json.JString [0x22; 0x0A; 0xD83D]);
     ApiClient.OnComplete; ApiClient.ReleaseLock].
Proof. vm_compute. reflexivity. Qed.
